(** * DocStructureX: outline extraction from PDF documents

    A shallow embedding of [main.py] (class [DocStructureXExtractor]) and the
    properties of its extraction pipeline.

    Conventions of the embedding.
    - A Python [str] is a [list ascii]; a character is a code point below 256
      and the character classes of [re] and [str] are the ones Python uses,
      restricted to that range.
    - Font sizes, bounding boxes and clock readings are rationals ([Q]).
      The sum [body_font_size + 2] of [_extract_title] is the sum of doubles:
      each operand is the double nearest to the rational ([to_float]) and the
      result is rounded ([float_add]).  The differences of [_heading_level]
      and [_time_left], and the comparisons with the literals of the source,
      are taken exactly.
    - [int] of a string of digits raises [ValueError] above 4300 digits, the
      default limit of Python 3.11 and later.
    - A dictionary with fixed keys is a record.
    - [None] returned by a strategy is [None : option Outline]; a raised
      exception is the [Raise] case of [outcome].
    - [time.time()] is an effect: the n-th call returns [clock n]; code that
      reads the clock threads the number of reads made so far.
    - [print] in the driver ([_log_time], the warning and the error message
      of [extract_outline]) is an effect that can raise: a run starts with
      the outcomes its writes to the console will meet.  The strategies are
      functions of the document and of the clock; the warnings they print
      when they leave a loop early are not part of their model, and a
      strategy whose write fails is, for the driver, a strategy that
      raises. *)

From Stdlib Require Import Bool Ascii String DecimalString.
From Stdlib Require Import List Arith ZArith QArith Lia DecimalNat.
From Stdlib Require Import Permutation Sorted.
Import ListNotations.

Set Implicit Arguments.
Local Open Scope nat_scope.
Local Open Scope list_scope.

(* ================================================================== *)
(** ** Characters and strings *)

Definition pystr := list ascii.

(** String literals of the source. *)
Definition str (s : string) : pystr := list_ascii_of_string s.

Definition code (c : ascii) : N := N_of_ascii c.

Definition in_range (lo hi : N) (c : ascii) : bool :=
  ((lo <=? code c) && (code c <=? hi))%N.

(** [\d] *)
Definition isdigit (c : ascii) : bool := in_range 48 57 c.

(** [\s], and the characters [str.strip()] removes: tab, line feed, vertical
    tab, form feed, carriage return, the separators 28..31, space, NEL and
    the no-break space. *)
Definition isspace (c : ascii) : bool :=
  in_range 9 13 c || in_range 28 32 c || (code c =? 133)%N || (code c =? 160)%N.

(** [[A-Z]] *)
Definition isupper (c : ascii) : bool := in_range 65 90 c.

Definition newline : ascii := ascii_of_N 10.
Definition space : ascii := ascii_of_N 32.

(** [.] without DOTALL, and [[^\n]]. *)
Definition notnl (c : ascii) : bool := negb (Ascii.eqb c newline).

(** [str.lower()] on one character. *)
Definition lower (c : ascii) : ascii :=
  if in_range 65 90 c || (in_range 192 222 c && negb (code c =? 215)%N)
  then ascii_of_N (code c + 32) else c.

Definition str_lower (s : pystr) : pystr := map lower s.

Definition mem_char (c : ascii) (set : pystr) : bool := existsb (Ascii.eqb c) set.

Fixpoint lstrip (p : ascii -> bool) (s : pystr) : pystr :=
  match s with
  | [] => []
  | c :: s' => if p c then lstrip p s' else s
  end.

Definition rstrip (p : ascii -> bool) (s : pystr) : pystr :=
  rev (lstrip p (rev s)).

(** [s.strip(chars)] *)
Definition strip_chars (set : pystr) (s : pystr) : pystr :=
  rstrip (fun c => mem_char c set) (lstrip (fun c => mem_char c set) s).

(** [s.strip()] *)
Definition strip (s : pystr) : pystr := rstrip isspace (lstrip isspace s).

Fixpoint str_eqb (a b : pystr) : bool :=
  match a, b with
  | [], [] => true
  | x :: a', y :: b' => Ascii.eqb x y && str_eqb a' b'
  | _, _ => false
  end.

(** [a < b] and [a <= b] on strings: lexicographic on code points. *)
Fixpoint str_ltb (a b : pystr) : bool :=
  match a, b with
  | _, [] => false
  | [], _ :: _ => true
  | x :: a', y :: b' =>
      if (code x <? code y)%N then true
      else if (code y <? code x)%N then false
      else str_ltb a' b'
  end.

Definition str_leb (a b : pystr) : bool := negb (str_ltb b a).

(** [x in seen] for a collection of strings. *)
Definition str_mem (x : pystr) (seen : list pystr) : bool := existsb (str_eqb x) seen.

Fixpoint is_prefix (p s : pystr) : bool :=
  match p, s with
  | [], _ => true
  | x :: p', y :: s' => Ascii.eqb x y && is_prefix p' s'
  | _ :: _, [] => false
  end.

(** [needle in s] *)
Fixpoint contains (needle s : pystr) : bool :=
  is_prefix needle s ||
  match s with
  | [] => false
  | _ :: s' => contains needle s'
  end.

(** [s.count(c)] for a one-character [c]. *)
Definition count_char (c : ascii) (s : pystr) : nat :=
  length (filter (Ascii.eqb c) s).

(** [int(s)] on a string of decimal digits. *)
Definition int_of_digits (s : pystr) : Z :=
  fold_left (fun acc c => (10 * acc + (Z.of_N (code c) - 48))%Z) s 0%Z.

(* ================================================================== *)
(** ** Regular expressions: the backtracking matcher of [re]

    The patterns of the program are written as terms of [regex]; [rmatch] is
    a backtracking matcher with the priorities of [re]: alternatives left to
    right, a greedy repetition tries one more iteration before stopping, a
    lazy one ([*?]) tries to stop first.  [Star g (Some n) r] is [r{0,n}],
    [Star g None r] is [r*]; [r{lo,hi}] is [lo] copies of [r] followed by
    [r{0,hi-lo}]. *)

Inductive regex : Type :=
| Eps : regex
| Chr : (ascii -> bool) -> regex
| Cat : regex -> regex -> regex
| Alt : regex -> regex -> regex
| Star : bool -> option nat -> regex -> regex
| Group : nat -> regex -> regex
| Bos : regex     (* [^] without MULTILINE *)
| Eos : regex.    (* [$] without MULTILINE *)

Definition captures := list (nat * pystr).
Definition mres := option (pystr * captures).

(** The loop of a repetition: [step] matches the body once, [n] bounds the
    iterations still allowed.  An iteration has to consume something. *)
Section StarLoop.
Variable step : (pystr -> captures -> mres) -> pystr -> captures -> mres.
Variable greedy : bool.
Variable k : pystr -> captures -> mres.

Fixpoint star_loop (n : nat) (s : pystr) (c : captures) {struct n} : mres :=
  match n with
  | O => k s c
  | S n' =>
      let again (_ : unit) :=
        step (fun s' c' =>
                if length s' <? length s then star_loop n' s' c' else None) s c in
      if greedy then
        match again tt with
        | Some x => Some x
        | None => k s c
        end
      else
        match k s c with
        | Some x => Some x
        | None => again tt
        end
  end.
End StarLoop.

Section Matcher.
(** The whole subject string; a position is the suffix still to read. *)
Variable inp : pystr.

Fixpoint rmatch (r : regex) (k : pystr -> captures -> mres)
         (s : pystr) (c : captures) {struct r} : mres :=
  match r with
  | Eps => k s c
  | Chr p =>
      match s with
      | a :: s' => if p a then k s' c else None
      | [] => None
      end
  | Cat r1 r2 => rmatch r1 (rmatch r2 k) s c
  | Alt r1 r2 =>
      match rmatch r1 k s c with
      | Some x => Some x
      | None => rmatch r2 k s c
      end
  | Star greedy mx r1 =>
      star_loop (rmatch r1) greedy k
                (match mx with Some m => m | None => length s end) s c
  | Group g r1 =>
      rmatch r1 (fun s' c' =>
                   k s' ((g, firstn (length s - length s') s) :: c')) s c
  | Bos => if length s =? length inp then k s c else None
  | Eos =>
      match s with
      | [] => k s c
      | [a] => if Ascii.eqb a newline then k s c else None
      | _ => None
      end
  end.

Definition accept : pystr -> captures -> mres := fun s c => Some (s, c).

(** One attempt of the pattern at the position [s]. *)
Definition match_at (r : regex) (s : pystr) : mres := rmatch r accept s [].
End Matcher.

(** A match object: where it starts, how long it is, its groups. *)
Record Match : Type := mkMatch {
  m_start : nat;
  m_len : nat;
  m_caps : captures
}.

(** [m.group(g)] *)
Fixpoint group (g : nat) (c : captures) : pystr :=
  match c with
  | [] => []
  | (g', v) :: c' => if (g =? g')%nat then v else group g c'
  end.

(** [re.match(r, s)] *)
Definition re_match (r : regex) (s : pystr) : option Match :=
  match match_at s r s with
  | Some (rest, c) => Some (mkMatch 0 (length s - length rest) c)
  | None => None
  end.

Section Scan.
Variable inp : pystr.
Variable r : regex.

(** [re.search(r, inp)]: the first position, from the left, where the
    pattern matches.  [s] is the suffix of [inp] still to be tried. *)
Fixpoint search_from (s : pystr) : option Match :=
  match match_at inp r s with
  | Some (rest, c) =>
      Some (mkMatch (length inp - length s) (length s - length rest) c)
  | None =>
      match s with
      | [] => None
      | _ :: s' => search_from s'
      end
  end.

(** [re.finditer(r, inp)]: successive non-overlapping matches, left to
    right.  [skip] counts the characters of [s] that the previous match
    still covers.  Every pattern the program scans with consumes at least
    one character, so the special rule of [re] after an empty match never
    applies; here the scan then moves one character on. *)
Fixpoint finditer_from (s : pystr) (skip : nat) : list Match :=
  match skip with
  | S skip' =>
      match s with
      | [] => []
      | _ :: s' => finditer_from s' skip'
      end
  | O =>
      match match_at inp r s with
      | Some (rest, c) =>
          mkMatch (length inp - length s) (length s - length rest) c ::
          match s with
          | [] => []
          | _ :: s' => finditer_from s' (length s - length rest - 1)
          end
      | None =>
          match s with
          | [] => []
          | _ :: s' => finditer_from s' 0
          end
      end
  end.
End Scan.

Definition re_search (r : regex) (s : pystr) : option Match := search_from s r s.
Definition re_finditer (r : regex) (s : pystr) : list Match := finditer_from s r s 0.

(** [re.sub(r, repl, s)] for a replacement without group references:
    the text between the matches is kept, every match becomes [repl]. *)
Fixpoint sub_build (repl : pystr) (s : pystr) (pos : nat) (ms : list Match) : pystr :=
  match ms with
  | [] => s
  | m :: ms' =>
      firstn (m_start m - pos) s ++ repl ++
      sub_build repl (skipn (m_start m - pos + m_len m) s) (m_start m + m_len m) ms'
  end.

Definition re_sub (r : regex) (repl : pystr) (s : pystr) : pystr :=
  sub_build repl s 0 (re_finditer r s).

(** *** Building blocks for patterns *)

Definition Lit1 (c : ascii) : regex := Chr (Ascii.eqb c).
(** A literal character under IGNORECASE. *)
Definition LitI1 (c : ascii) : regex := Chr (fun a => Ascii.eqb (lower a) (lower c)).

Fixpoint cat_list (rs : list regex) : regex :=
  match rs with
  | [] => Eps
  | [r] => r
  | r :: rs' => Cat r (cat_list rs')
  end.

Definition Lit (s : string) : regex := cat_list (map Lit1 (str s)).
Definition LitI (s : string) : regex := cat_list (map LitI1 (str s)).

Fixpoint power (n : nat) (r : regex) : regex :=
  match n with
  | O => Eps
  | S n' => Cat r (power n' r)
  end.

(** [r{lo,hi}], greedy. *)
Definition Rep (lo hi : nat) (r : regex) : regex :=
  Cat (power lo r) (Star true (Some (hi - lo)) r).
(** [r+], [r*], [r?], [r*?] *)
Definition Plus (r : regex) : regex := Cat r (Star true None r).
Definition Many (r : regex) : regex := Star true None r.
Definition Opt (r : regex) : regex := Star true (Some 1) r.
Definition ManyLazy (r : regex) : regex := Star false None r.

Definition digit : regex := Chr isdigit.
Definition ws : regex := Chr isspace.
Definition dot : regex := Chr notnl.

(* ================================================================== *)
(** ** Effects: the clock, exceptions, and the record of calls *)

Inductive exn : Type := Exception (msg : pystr).

Inductive outcome (A : Type) : Type :=
| Ret : A -> outcome A
| Raise : exn -> outcome A.
Arguments Raise {A} _.

(** A computation over a state [S] that returns or raises. *)
Definition M (S A : Type) : Type := S -> outcome A * S.

Definition ret {S A : Type} (a : A) : M S A := fun s => (Ret a, s).
Definition raise {S A : Type} (e : exn) : M S A := fun s => (Raise e, s).
Definition bind {S A B : Type} (m : M S A) (f : A -> M S B) : M S B :=
  fun s => match m s with
           | (Ret a, s') => f a s'
           | (Raise e, s') => (Raise e, s')
           end.
(** [try: m  except Exception as exc: h exc] *)
Definition try_except {S A : Type} (m : M S A) (h : exn -> M S A) : M S A :=
  fun s => match m s with
           | (Ret a, s') => (Ret a, s')
           | (Raise e, s') => h e s'
           end.

Notation "x <- m ;; f" := (bind m (fun x => f))
  (at level 61, m at next level, right associativity).

(** The state of code that only reads the clock: how many times
    [time.time()] has been called so far. *)
Definition Clock (A : Type) : Type := M nat A.

(* ================================================================== *)
(** ** Data model *)

Inductive Level : Type := H1 | H2 | H3.

(** [{"level": ..., "text": ..., "page": ...}] *)
Record Entry : Type := mkEntry {
  level : Level;
  text : pystr;
  page : Z
}.

(** [{"title": ..., "outline": [...]}] *)
Record Outline : Type := mkOutline {
  title : pystr;
  outline : list Entry
}.

(** *** The document engine (PyMuPDF) at its interface *)

(** A span of [page.get_text("dict")]: ["text"], ["size"], ["flags"], ["bbox"]. *)
Record Span : Type := mkSpan {
  span_text : pystr;
  span_size : Q;
  span_flags : Z;
  span_bbox : Q * Q * Q * Q
}.

(** A line is its ["spans"]; a block has ["lines"] or (an image block) not. *)
Definition Line : Type := list Span.
Definition Block : Type := option (list Line).

Record Page : Type := mkPage {
  page_blocks : list Block;    (* [page.get_text("dict").get("blocks", [])] *)
  page_text : pystr            (* [page.get_text()] *)
}.

Record Document : Type := mkDocument {
  doc_toc : list (Z * pystr * Z);   (* [doc.get_toc()]: level, title, page *)
  doc_pages : list Page
}.

(** The entries of [all_blocks]. *)
Record TextBlock : Type := mkTextBlock {
  b_text : pystr;
  b_page : Z;
  b_font_size : Q;
  b_font_flags : Z;
  b_bbox : Q * Q * Q * Q
}.

(** The fields of [self]. *)
Record Extractor : Type := mkExtractor {
  max_runtime : Q;
  start_time : option Q
}.

Definition untitled : pystr := str "Untitled Document".

(* ================================================================== *)
(** ** The patterns of the program *)

(** [\s+] *)
Definition re_spaces : regex := Plus ws.

(** [^(\d+\.?\s+|\d+\.\d+\.?\s+|[IVXLC]+\.?\s+)] *)
Definition isroman (c : ascii) : bool := mem_char c (str "IVXLC").
Definition re_numbered : regex :=
  Cat Bos
      (Group 1
         (Alt (cat_list [Plus digit; Opt (Lit "."); Plus ws])
              (Alt (cat_list [Plus digit; Lit "."; Plus digit; Opt (Lit "."); Plus ws])
                   (cat_list [Plus (Chr isroman); Opt (Lit "."); Plus ws])))).

(** [^(Chapter|Section|Part)\s+\d+] with IGNORECASE *)
Definition re_chapter : regex :=
  cat_list [Bos;
            Group 1 (Alt (LitI "Chapter") (Alt (LitI "Section") (LitI "Part")));
            Plus ws; Plus digit].

(** [^\d+\.\s+[A-Z]] *)
Definition re_num_upper : regex :=
  cat_list [Bos; Plus digit; Lit "."; Plus ws; Chr isupper].

(** [^\d+\.\d+\s+[A-Z]] *)
Definition re_subnum_upper : regex :=
  cat_list [Bos; Plus digit; Lit "."; Plus digit; Plus ws; Chr isupper].

(** [^\d+$] *)
Definition re_all_digits : regex := cat_list [Bos; Plus digit; Eos].

(** [^Page \d+] with IGNORECASE *)
Definition re_page_number : regex := cat_list [Bos; LitI "Page "; Plus digit].

(** [(http|www\.|@)] *)
Definition re_link : regex :=
  Group 1 (Alt (Lit "http") (Alt (Lit "www.") (Lit "@"))).

(** [\[PAGE_(\d+)\].*?(\d+\.\d*\s+[A-Z][^\n]{5,80})] with MULTILINE, which
    only changes [^] and [$] and so changes nothing here. *)
Definition re_numbered_heading : regex :=
  cat_list [Lit "[PAGE_"; Group 1 (Plus digit); Lit "]"; ManyLazy dot;
            Group 2 (cat_list [Plus digit; Lit "."; Many digit; Plus ws;
                               Chr isupper; Rep 5 80 (Chr notnl)])].

(** [\[PAGE_(\d+)\].*?((Chapter|Section)\s+\d+[^\n]{0,50})] with IGNORECASE
    and MULTILINE. *)
Definition re_chapter_heading : regex :=
  cat_list [LitI "[PAGE_"; Group 1 (Plus digit); LitI "]"; ManyLazy dot;
            Group 2 (cat_list [Group 3 (Alt (LitI "Chapter") (LitI "Section"));
                               Plus ws; Plus digit; Rep 0 50 (Chr notnl)])].

(** [\[PAGE_1\].*?([A-Z][^\n]{10,100})] *)
Definition re_title : regex :=
  cat_list [Lit "[PAGE_1]"; ManyLazy dot;
            Group 1 (Cat (Chr isupper) (Rep 10 100 (Chr notnl)))].

(* ================================================================== *)
(** ** [_time_left], [_validate_result] *)

Section Timed.
(** The n-th call of [time.time()] returns [clock n]. *)
Variable clock : nat -> Q.

Definition time_time : Clock Q := fun n => (Ret (clock n), S n).

Definition truthy (x : option Q) : bool :=
  match x with
  | Some t => negb (Qeq_bool t 0)
  | None => false
  end.

(** [elapsed = time.time() - self.start_time if self.start_time else 0]:
    the clock is read only when [start_time] is set and not zero. *)
Definition _time_left (self : Extractor) : Clock Q :=
  match start_time self with
  | Some t0 =>
      if truthy (start_time self)
      then now <- time_time ;; ret (max_runtime self - (now - t0))%Q
      else ret (max_runtime self - 0)%Q
  | None => ret (max_runtime self - 0)%Q
  end.

End Timed.

(** [a < b] and [a > b] on numbers. *)
Definition Qltb (a b : Q) : bool := negb (Qle_bool b a).
Definition Qgtb (a b : Q) : bool := Qltb b a.

(* ================================================================== *)
(** ** [float]: IEEE 754 binary64

    The values of a Python [float]: the finite doubles, the two infinities
    and NaN.  (A negative zero is the finite value 0: no comparison tells
    them apart.) *)
Inductive float : Type :=
| Finite (q : Q)
| Infinity (negative : bool)
| NaN.

(** The integer nearest to [n / d], for [0 < d]; a tie goes to the even
    one. *)
Definition round_half_even (n d : Z) : Z :=
  let q := (n / d)%Z in
  match (2 * (n mod d) ?= d)%Z with
  | Lt => q
  | Gt => (q + 1)%Z
  | Eq => if Z.even q then q else (q + 1)%Z
  end.

(** Numerator and denominator of [(n / d) / 2^u]. *)
Definition scaled (n d u : Z) : Z * Z :=
  if (0 <=? u)%Z then (n, d * 2 ^ u)%Z else (n * 2 ^ (- u), d)%Z.

(** The [e] with [2^e <= n / d < 2^(e+1)], for [0 < n] and [0 < d]. *)
Definition binade (n d : Z) : Z :=
  let e := (Z.log2 n - Z.log2 d)%Z in
  let '(a, b) := scaled n d e in
  if (b <=? a)%Z then e else (e - 1)%Z.

(** [m * 2^u] as a rational in lowest terms. *)
Definition dyadic (m u : Z) : Q :=
  if (0 <=? u)%Z then inject_Z (m * 2 ^ u) else Qred (m # Z.to_pos (2 ^ (- u))).

(** The double nearest to [n / d], for [0 < n] and [0 < d]: 53 significant
    bits, the unit in the last place no smaller than [2^-1074], a tie to the
    even significand, infinity from [2^1024] on. *)
Definition nearest (n d : Z) : float :=
  let u := Z.max (binade n d - 52) (-1074) in
  let '(a, b) := scaled n d u in
  let m := round_half_even a b in
  if (1024 <=? Z.log2 m + u)%Z then Infinity false else Finite (dyadic m u).

Definition float_neg (a : float) : float :=
  match a with
  | Finite q => Finite (- q)
  | Infinity negative => Infinity (negb negative)
  | NaN => NaN
  end.

(** The double nearest to a rational: what a number of the model denotes
    where the program holds a [float]. *)
Definition to_float (x : Q) : float :=
  match Qnum x with
  | Z0 => Finite 0
  | Zpos n => nearest (Zpos n) (Zpos (Qden x))
  | Zneg n => float_neg (nearest (Zpos n) (Zpos (Qden x)))
  end.

(** [a + b] on floats: the exact sum, rounded. *)
Definition float_add (a b : float) : float :=
  match a, b with
  | Finite x, Finite y => to_float (x + y)
  | Finite _, Infinity negative => Infinity negative
  | Infinity negative, Finite _ => Infinity negative
  | Infinity s, Infinity t => if Bool.eqb s t then Infinity s else NaN
  | _, _ => NaN
  end.

(** [a < b] on floats; [a > b] is [float_lt b a]. *)
Definition float_lt (a b : float) : bool :=
  match a, b with
  | Finite x, Finite y => Qltb x y
  | Finite _, Infinity negative => negb negative
  | Infinity negative, Finite _ => negative
  | Infinity s, Infinity t => s && negb t
  | _, _ => false
  end.

Definition _validate_result (result : option Outline) : bool :=
  match result with
  | None => false
  | Some o =>
      let count := length (outline o) in
      (1 <=? count) && (count <=? 100)
  end.

(* ================================================================== *)
(** ** MetadataStrategy: [_extract_with_toc] *)

(** [re.sub(r'\s+', ' ', title).strip(' .,;:')] *)
Definition toc_clean (title_ : pystr) : pystr :=
  strip_chars (str " .,;:") (re_sub re_spaces (str " ") title_).

Definition toc_level (lvl : Z) : Level :=
  if (lvl =? 1)%Z then H1 else if (lvl =? 2)%Z then H2 else H3.

(** The loop over [toc]; the result is [outline] in the order of appending. *)
Fixpoint toc_loop (toc : list (Z * pystr * Z)) : list Entry :=
  match toc with
  | [] => []
  | (lvl, title_, page_) :: rest =>
      let title_clean := toc_clean title_ in
      if (length title_clean =? 0) || (length title_clean <? 3)
         || (150 <? length title_clean)
      then toc_loop rest
      else mkEntry (toc_level lvl) title_clean page_ :: toc_loop rest
  end.

Definition _extract_with_toc (doc : Document) : option Outline :=
  match doc_toc doc with
  | [] => None
  | _ :: _ =>
      match toc_loop (doc_toc doc) with
      | [] => None
      | (first :: _) as outline_ =>
          let document_title :=
            if 100 <? length (text first) then untitled else text first in
          Some (mkOutline document_title outline_)
      end
  end.

(* ================================================================== *)
(** ** LayoutStrategy: [_extract_with_pymupdf] and its helpers *)

(** A stable insertion sort, for [list.sort(key=...)]: [leb a b] compares the
    keys of [a] and [b]. *)
Section Sort.
Variable A : Type.
Variable leb : A -> A -> bool.

Fixpoint insert (x : A) (l : list A) : list A :=
  match l with
  | [] => [x]
  | y :: l' => if leb x y then x :: y :: l' else y :: insert x l'
  end.

Fixpoint sort (l : list A) : list A :=
  match l with
  | [] => []
  | x :: l' => insert x (sort l')
  end.
End Sort.

(** [bool(block["font_flags"] & 2**4)] *)
Definition is_bold (b : TextBlock) : bool :=
  negb (Z.land (b_font_flags b) (2 ^ 4) =? 0)%Z.

Definition matched (m : option Match) : bool :=
  match m with Some _ => true | None => false end.

Definition _heading_level (block : TextBlock) (body_font_size : Q) : option Level :=
  let text_ := b_text block in
  let size_diff := (b_font_size block - body_font_size)%Q in
  let bold := is_bold block in
  let numbered := matched (re_match re_numbered text_) in
  let chapter := matched (re_match re_chapter text_) in
  if Qle_bool 6 size_diff then Some H1
  else if Qle_bool 4 size_diff || (Qle_bool 2 size_diff && bold)
  then (if Qle_bool 4 size_diff then Some H2 else Some H3)
  else if bold && (numbered || chapter) then Some H2
  else if numbered && Qle_bool 1 size_diff then Some H3
  else if matched (re_match re_num_upper text_) then Some H2
  else if matched (re_match re_subnum_upper text_) then Some H3
  else None.

Definition artifact_words : list pystr :=
  [str "copyright"; str "all rights reserved"; str "page"; str "table of contents"].

Definition _is_artifact (text_ : pystr) : bool :=
  if matched (re_match re_all_digits text_) || matched (re_match re_page_number text_)
  then true
  else if existsb (fun artifact => contains artifact (str_lower text_)) artifact_words
  then true
  else if matched (re_search re_link text_) then true
  else false.

(** [re.sub(r'\s+', ' ', h["text"]).strip('.,;:')] *)
Definition heading_clean (t : pystr) : pystr :=
  strip_chars (str ".,;:") (re_sub re_spaces (str " ") t).

Definition set_text (h : Entry) (t : pystr) : Entry :=
  mkEntry (level h) t (page h).

(** The loop of [_clean_headings], [seen] being the set built so far. *)
Fixpoint clean_loop (headings : list Entry) (seen : list pystr) : list Entry :=
  match headings with
  | [] => []
  | h :: rest =>
      let text_ := heading_clean (text h) in
      if negb (length text_ =? 0) && negb (str_mem text_ seen) && (3 <=? length text_)
      then set_text h text_ :: clean_loop rest (text_ :: seen)
      else clean_loop rest seen
  end.

Definition _clean_headings (headings : list Entry) : list Entry :=
  clean_loop headings [].

(** [(x["page"], x["text"])] compared as tuples. *)
Definition heading_key_leb (a b : Entry) : bool :=
  (page a <? page b)%Z || ((page a =? page b)%Z && str_leb (text a) (text b)).

(** [(x["page"], x["bbox"][1])] compared as tuples. *)
Definition bbox_y (b : TextBlock) : Q :=
  match b_bbox b with (_, y0, _, _) => y0 end.
Definition title_key_leb (a b : TextBlock) : bool :=
  (b_page a <? b_page b)%Z || ((b_page a =? b_page b)%Z && Qle_bool (bbox_y a) (bbox_y b)).

(** [b["font_size"] > body_font_size + 2] adds and compares doubles. *)
Definition _extract_title (blocks : list TextBlock) (body_font_size : Q) : pystr :=
  let first_pages := filter (fun b => (b_page b <=? 3)%Z) blocks in
  let candidates :=
    filter (fun b => float_lt (float_add (to_float body_font_size) (to_float 2))
                              (to_float (b_font_size b))
                     && (5 <? length (b_text b)) && (length (b_text b) <? 200))
           first_pages in
  match sort title_key_leb candidates with
  | c :: _ => b_text c
  | [] =>
      match find (fun b => 10 <? length (b_text b)) first_pages with
      | Some b => b_text b
      | None => untitled
      end
  end.

(** The spans one page contributes to [all_blocks]. *)
Definition span_block (page_num : nat) (sp : Span) : list TextBlock :=
  let text_ := strip (span_text sp) in
  if negb (length text_ =? 0) && (2 <? length text_)
  then [mkTextBlock text_ (Z.of_nat page_num + 1) (span_size sp) (span_flags sp) (span_bbox sp)]
  else [].

Definition page_spans (page_num : nat) (p : Page) : list TextBlock :=
  flat_map (fun block =>
              match block with
              | Some lines =>
                  flat_map (fun line => flat_map (span_block page_num) line) lines
              | None => []
              end)
           (page_blocks p).

Section Layout.
Variable clock : nat -> Q.
(** [statistics.mode]; [None] when it raises [StatisticsError]. *)
Variable mode : list Q -> option Q.
Variable self : Extractor.

(** The loop over [range(min(50, len(doc)))]; [pages] are the pages still
    to scan, [page_num] the index of the first of them. *)
Fixpoint scan_pages (pages : list Page) (page_num : nat)
         (all_blocks : list TextBlock) : Clock (list TextBlock) :=
  match pages with
  | [] => ret all_blocks
  | p :: rest =>
      let all_blocks' := all_blocks ++ page_spans page_num p in
      remaining <- _time_left clock self ;;
      if Qltb remaining 0.5 then ret all_blocks'
      else scan_pages rest (S page_num) all_blocks'
  end.

(** [mode(font_sizes) if font_sizes else 12], any exception giving 12. *)
Definition body_font_of (all_blocks : list TextBlock) : Q :=
  let font_sizes :=
    filter (fun x => Qltb 0 x) (map b_font_size all_blocks) in
  match font_sizes with
  | [] => 12%Q
  | _ :: _ =>
      match mode font_sizes with
      | Some m => m
      | None => 12%Q
      end
  end.

(** The loop of [_extract_headings_multilayer]. *)
Fixpoint headings_loop (blocks : list TextBlock) (body_font_size : Q)
         (headings : list Entry) (seen : list pystr) : Clock (list Entry) :=
  match blocks with
  | [] => ret headings
  | block :: rest =>
      let text_ := strip (b_text block) in
      if str_mem text_ seen || (length text_ <? 3) || (150 <? length text_)
         || _is_artifact text_
      then headings_loop rest body_font_size headings seen
      else
        let '(headings', seen') :=
          match _heading_level block body_font_size with
          | Some lvl => (headings ++ [mkEntry lvl text_ (b_page block)], text_ :: seen)
          | None => (headings, seen)
          end in
        remaining <- _time_left clock self ;;
        if Qltb remaining 0.2 then ret headings'
        else headings_loop rest body_font_size headings' seen'
  end.

Definition _extract_headings_multilayer (blocks : list TextBlock)
           (body_font_size : Q) : Clock (list Entry) :=
  headings <- headings_loop blocks body_font_size [] [] ;;
  ret (_clean_headings (sort heading_key_leb headings)).

Definition _extract_with_pymupdf (doc : Document) : Clock (option Outline) :=
  all_blocks <- scan_pages (firstn 50 (doc_pages doc)) 0 [] ;;
  let body_font := body_font_of all_blocks in
  let title_ := _extract_title all_blocks body_font in
  headings <- _extract_headings_multilayer all_blocks body_font ;;
  ret (Some (mkOutline title_ headings)).
End Layout.

(** *** [statistics.mode]

    Since Python 3.8 [mode] returns the first value met among the most
    frequent ones and raises only on empty data; before 3.8 it raised
    [StatisticsError] when the most frequent value was not unique. *)

Definition count_q (x : Q) (data : list Q) : nat :=
  length (filter (Qeq_bool x) data).

Definition most_frequent (data : list Q) (x : Q) : bool :=
  forallb (fun y => count_q y data <=? count_q x data) data.

Definition mode_py38 (data : list Q) : option Q :=
  find (most_frequent data) data.

Definition mode_py37 (data : list Q) : option Q :=
  match find (most_frequent data) data with
  | Some x =>
      if forallb (fun y => negb (most_frequent data y) || Qeq_bool y x) data
      then Some x else None
  | None => None
  end.

(* ================================================================== *)
(** ** PatternStrategy: [_extract_with_regex_fallback] *)

(** [f"[PAGE_{n}]"] *)
Definition decimal (n : nat) : pystr :=
  str (DecimalString.NilZero.string_of_uint (Nat.to_uint n)).

Definition page_marker (n : nat) : pystr := str "[PAGE_" ++ decimal n ++ str "]".

(** [all_text], built over [range(min(50, len(doc)))]. *)
Fixpoint concat_pages (pages : list Page) (page_num : nat) (all_text : pystr) : pystr :=
  match pages with
  | [] => all_text
  | p :: rest =>
      concat_pages rest (S page_num)
                   (all_text ++ page_marker (page_num + 1) ++ page_text p)
  end.

Definition all_text_of (doc : Document) : pystr :=
  concat_pages (firstn 50 (doc_pages doc)) 0 [].

Definition numbered_entry (m : Match) : Entry :=
  let page_num := int_of_digits (group 1 (m_caps m)) in
  let text_ := strip (group 2 (m_caps m)) in
  let lvl := if 1 <? count_char "."%char text_ then H3 else H2 in
  mkEntry lvl text_ page_num.

Definition chapter_entry (m : Match) : Entry :=
  let page_num := int_of_digits (group 1 (m_caps m)) in
  let text_ := strip (group 2 (m_caps m)) in
  mkEntry H1 text_ page_num.

(** The headings of the two passes, when every [int(m.group(1))] returns. *)
Definition regex_headings (all_text : pystr) : list Entry :=
  map numbered_entry (re_finditer re_numbered_heading all_text) ++
  map chapter_entry (re_finditer re_chapter_heading all_text).

Definition regex_title (all_text : pystr) : pystr :=
  match re_search re_title all_text with
  | Some m => strip (group 1 (m_caps m))
  | None => untitled
  end.

(** The outline PatternStrategy returns, when it returns. *)
Definition regex_outline (all_text : pystr) : Outline :=
  mkOutline (regex_title all_text) (firstn 20 (regex_headings all_text)).

(** [int(s)] on a string of decimal digits.  Since Python 3.11 (and the
    security releases of 3.7 to 3.10) a string of more than
    [sys.get_int_max_str_digits()] digits, 4300 unless set otherwise, raises
    [ValueError]; [int_of_digits] is the value when the call returns. *)
Definition int_max_str_digits : nat := 4300.

Definition int (s : pystr) : outcome Z :=
  if int_max_str_digits <? length s
  then Raise (Exception (str "ValueError"))
  else Ret (int_of_digits s).

(** One loop over [re.finditer(...)]: [int(m.group(1))] for each match, then
    its entry, whose page is the value [int] returned. *)
Fixpoint pattern_pass (entry_of : Match -> Entry) (ms : list Match)
  : outcome (list Entry) :=
  match ms with
  | [] => Ret []
  | m :: ms' =>
      match int (group 1 (m_caps m)) with
      | Raise e => Raise e
      | Ret _ =>
          match pattern_pass entry_of ms' with
          | Ret headings => Ret (entry_of m :: headings)
          | Raise e => Raise e
          end
      end
  end.

Definition _extract_with_regex_fallback (doc : Document) : outcome (option Outline) :=
  let all_text := all_text_of doc in
  match pattern_pass numbered_entry (re_finditer re_numbered_heading all_text) with
  | Raise e => Raise e
  | Ret numbered =>
      match pattern_pass chapter_entry (re_finditer re_chapter_heading all_text) with
      | Raise e => Raise e
      | Ret chapters =>
          Ret (Some (mkOutline (regex_title all_text) (firstn 20 (numbered ++ chapters))))
      end
  end.

(* ================================================================== *)
(** ** The pipeline driver: [extract_outline] *)

Inductive Strategy : Type := MetadataStrategy | LayoutStrategy | PatternStrategy.

(** What a run leaves behind, for stating what was and was not called: the
    calls of strategies with what they gave back, and the values
    [_time_left()] gave to the driver. *)
Inductive Event : Type :=
| Called (s : Strategy) (result : outcome (option Outline))
| Budget (remaining : Q).

Record World : Type := mkWorld {
  reads : nat;            (* calls of [time.time()] so far *)
  events : list Event;
  console : list (option exn)
  (* what the writes of the driver still to come will meet, in order:
     [None], the write succeeds; [Some e], it raises [e]; past the end of
     the list every write succeeds *)
}.

(** [print(...)], whatever the text. *)
Definition print : M World unit :=
  fun w => match console w with
           | Some e :: rest => (Raise e, mkWorld (reads w) (events w) rest)
           | None :: rest => (Ret tt, mkWorld (reads w) (events w) rest)
           | [] => (Ret tt, w)
           end.

Definition sentinel_outline : Outline := mkOutline untitled [].
Definition error_outline : Outline := mkOutline (str "Error in Processing") [].

(** The candidate, when [_validate_result] accepts it. *)
Definition accepted (result : option Outline) : option Outline :=
  if _validate_result result then result else None.

Section Driver.
Variable clock : nat -> Q.
(** [self._extract_with_toc(pdf_path)], [self._extract_with_pymupdf(pdf_path)]
    and [self._extract_with_regex_fallback(pdf_path)] on the document at
    hand: each reads the clock, returns a candidate or [None], or raises. *)
Variables toc_strategy layout_strategy regex_strategy :
  Extractor -> Clock (option Outline).

Definition on_clock {A : Type} (m : Clock A) : M World A :=
  fun w => let '(r, n) := m (reads w) in (r, mkWorld n (events w) (console w)).

Definition call (s : Strategy) (m : Clock (option Outline)) : M World (option Outline) :=
  fun w => let '(r, n) := m (reads w) in
           (r, mkWorld n (events w ++ [Called s r]) (console w)).

Definition time_left (self : Extractor) : M World Q :=
  fun w => match on_clock (_time_left clock self) w with
           | (Ret remaining, w') =>
               (Ret remaining,
                mkWorld (reads w') (events w' ++ [Budget remaining]) (console w'))
           | (Raise e, w') => (Raise e, w')
           end.

(** [elapsed = time.time() - self.start_time], which raises [TypeError]
    while [start_time] is [None], then the [print] of the line. *)
Definition _log_time (self : Extractor) : M World unit :=
  now <- on_clock (time_time clock) ;;
  match start_time self with
  | Some _ => print
  | None => raise (Exception (str "TypeError"))
  end.

(** The body of the [try]. *)
Definition attempt (self : Extractor) : M World Outline :=
  toc_result <- call MetadataStrategy (toc_strategy self) ;;
  match accepted toc_result with
  | Some o => _ <- _log_time self ;; ret o
  | None =>
      remaining <- time_left self ;;
      heuristic <-
        (if Qgtb remaining 5
         then r <- call LayoutStrategy (layout_strategy self) ;; ret (accepted r)
         else ret None) ;;
      match heuristic with
      | Some o => _ <- _log_time self ;; ret o
      | None =>
          remaining' <- time_left self ;;
          fallback <-
            (if Qgtb remaining' 1
             then r <- call PatternStrategy (regex_strategy self) ;; ret (accepted r)
             else ret None) ;;
          match fallback with
          | Some o => _ <- _log_time self ;; ret o
          | None => _ <- print ;; ret sentinel_outline
          end
      end
  end.

Definition extract_outline (self0 : Extractor) : M World Outline :=
  now <- on_clock (time_time clock) ;;
  let self := mkExtractor (max_runtime self0) (Some now) in
  try_except (attempt self) (fun exc => _ <- print ;; ret error_outline).
End Driver.

(** [fitz.open(pdf_path)] gives the document or raises. *)
Definition with_doc {A : Type} (opened : outcome Document)
           (f : Document -> Clock A) : Clock A :=
  match opened with
  | Ret doc => f doc
  | Raise e => raise e
  end.

(** A call that reads no clock. *)
Definition timeless {A : Type} (result : outcome A) : Clock A := fun n => (result, n).

(** The driver on the three strategies of the class. *)
Definition extract_outline_pdf (clock : nat -> Q) (mode : list Q -> option Q)
           (opened : outcome Document) (self0 : Extractor) : M World Outline :=
  extract_outline clock
    (fun _ => with_doc opened (fun doc => ret (_extract_with_toc doc)))
    (fun self => with_doc opened (_extract_with_pymupdf clock mode self))
    (fun _ => with_doc opened (fun doc => timeless (_extract_with_regex_fallback doc)))
    self0.

(** The first and the second value [_time_left()] gave to the driver. *)
Fixpoint budgets (evs : list Event) : list Q :=
  match evs with
  | [] => []
  | Budget remaining :: evs' => remaining :: budgets evs'
  | Called _ _ :: evs' => budgets evs'
  end.

Definition was_called (s : Strategy) (evs : list Event) : Prop :=
  exists result, In (Called s result) evs.

(** The start of a run on a console that takes every write. *)
Definition new_world (n : nat) : World := mkWorld n [] [].

(* ================================================================== *)
(** ** Notions the properties are stated with *)

(** Whitespace runs collapsed to single spaces, as a direct recursion:
    [in_run] tells that the previous character was whitespace. *)
Fixpoint collapse_from (in_run : bool) (s : pystr) : pystr :=
  match s with
  | [] => []
  | a :: s' =>
      if isspace a
      then (if in_run then collapse_from true s' else space :: collapse_from true s')
      else a :: collapse_from false s'
  end.

Definition collapse_ws (s : pystr) : pystr := collapse_from false s.

(** A run of two or more whitespace characters occurs in [s]. *)
Fixpoint has_ws_run (s : pystr) : bool :=
  match s with
  | a :: s' =>
      match s' with
      | b :: _ => (isspace a && isspace b) || has_ws_run s'
      | [] => false
      end
  | [] => false
  end.

Definition punctuation : pystr := str ".,;:".

(** The first, the last character of [s] satisfies [p]. *)
Definition first_sat (p : ascii -> bool) (s : pystr) : bool :=
  match s with
  | a :: _ => p a
  | [] => false
  end.

Definition last_sat (p : ascii -> bool) (s : pystr) : bool := first_sat p (rev s).

Definition first_in (set : pystr) (s : pystr) : bool :=
  first_sat (fun c => mem_char c set) s.

Definition last_in (set : pystr) (s : pystr) : bool :=
  last_sat (fun c => mem_char c set) s.

(** No whitespace run, no punctuation of [.,;:] at either end. *)
Definition normalized (s : pystr) : bool :=
  negb (has_ws_run s) && negb (first_in punctuation s) && negb (last_in punctuation s).

(** *** MetadataStrategy as the specification words it *)

Definition spec_normalize (rawTitle : pystr) : pystr :=
  strip_chars (str " .,;:") (collapse_ws rawTitle).

Definition spec_retained (item : Z * pystr * Z) : bool :=
  let '(_, rawTitle, _) := item in
  (3 <=? length (spec_normalize rawTitle)) && (length (spec_normalize rawTitle) <=? 150).

Definition spec_level (nestingLevel : Z) : Level :=
  match nestingLevel with
  | 1%Z => H1
  | 2%Z => H2
  | _ => H3
  end.

Definition spec_entry (item : Z * pystr * Z) : Entry :=
  let '(nestingLevel, rawTitle, page_) := item in
  mkEntry (spec_level nestingLevel) (spec_normalize rawTitle) page_.

Definition spec_title (first : Entry) : pystr :=
  if 100 <? length (text first) then str "Untitled Document" else text first.

Definition spec_metadata (bookmarks : list (Z * pystr * Z)) : option Outline :=
  match map spec_entry (filter spec_retained bookmarks) with
  | [] => None
  | (first :: _) as entries => Some (mkOutline (spec_title first) entries)
  end.

(** *** The decision table of heading classification, as specified

    [sizeDiff] is [fragment.fontSize - bodyFontSize]; the booleans tell
    whether the fragment is bold and whether its text matches the numbering
    prefix, the Chapter/Section/Part prefix, [^\d+\.\s+[A-Z]] and
    [^\d+\.\d+\s+[A-Z]].  The first rule that applies decides. *)
Definition spec_heading_level (sizeDiff : Q) (bold numbering keyword : bool)
           (number_capital subnumber_capital : bool) : option Level :=
  if Qle_bool 6 sizeDiff then Some H1
  else if Qle_bool 4 sizeDiff then Some H2
  else if Qle_bool 2 sizeDiff && Qltb sizeDiff 4 && bold then Some H3
  else if bold && (numbering || keyword) then Some H2
  else if numbering && Qle_bool 1 sizeDiff then Some H3
  else if number_capital then Some H2
  else if subnumber_capital then Some H3
  else None.

(** The value [_time_left()] gives at the [m]-th reading of the clock. *)
Definition remaining_at (clock : nat -> Q) (self : Extractor) (m : nat) : Q :=
  match _time_left clock self m with
  | (Ret t, _) => t
  | (Raise _, _) => 0%Q
  end.

(** *** The runs of the driver

    What [attempt] can do, by the events it leaves: [evs0] are the events
    before it.  Either a strategy raised, which ends the events; or no
    call raised and the result is an accepted candidate or, every
    candidate having been rejected, the sentinel. *)
Inductive attempt_shape (reading : Q -> Prop) (evs0 : list Event) :
  outcome Outline -> list Event -> Prop :=
| shape_meta_raise e :
    attempt_shape reading evs0 (Raise e) (evs0 ++ [Called MetadataStrategy (Raise e)])
| shape_meta_ok r o :
    accepted r = Some o ->
    attempt_shape reading evs0 (Ret o) (evs0 ++ [Called MetadataStrategy (Ret r)])
| shape_layout_raise r t e :
    accepted r = None -> reading t -> Qgtb t 5 = true ->
    attempt_shape reading evs0 (Raise e)
      (evs0 ++ [Called MetadataStrategy (Ret r); Budget t; Called LayoutStrategy (Raise e)])
| shape_layout_ok r t r2 o :
    accepted r = None -> reading t -> Qgtb t 5 = true -> accepted r2 = Some o ->
    attempt_shape reading evs0 (Ret o)
      (evs0 ++ [Called MetadataStrategy (Ret r); Budget t; Called LayoutStrategy (Ret r2)])
| shape_layout_then_regex r t r2 t' res3 out :
    accepted r = None -> reading t -> Qgtb t 5 = true -> accepted r2 = None ->
    reading t' -> Qgtb t' 1 = true ->
    match res3 with
    | Raise e => out = Raise e
    | Ret r3 => out = Ret match accepted r3 with Some o => o | None => sentinel_outline end
    end ->
    attempt_shape reading evs0 out
      (evs0 ++ [Called MetadataStrategy (Ret r); Budget t; Called LayoutStrategy (Ret r2);
                Budget t'; Called PatternStrategy res3])
| shape_layout_then_stop r t r2 t' :
    accepted r = None -> reading t -> Qgtb t 5 = true -> accepted r2 = None ->
    reading t' -> Qgtb t' 1 = false ->
    attempt_shape reading evs0 (Ret sentinel_outline)
      (evs0 ++ [Called MetadataStrategy (Ret r); Budget t; Called LayoutStrategy (Ret r2);
                Budget t'])
| shape_regex r t t' res3 out :
    accepted r = None -> reading t -> Qgtb t 5 = false ->
    reading t' -> Qgtb t' 1 = true ->
    match res3 with
    | Raise e => out = Raise e
    | Ret r3 => out = Ret match accepted r3 with Some o => o | None => sentinel_outline end
    end ->
    attempt_shape reading evs0 out
      (evs0 ++ [Called MetadataStrategy (Ret r); Budget t; Budget t';
                Called PatternStrategy res3])
| shape_stop r t t' :
    accepted r = None -> reading t -> Qgtb t 5 = false ->
    reading t' -> Qgtb t' 1 = false ->
    attempt_shape reading evs0 (Ret sentinel_outline)
      (evs0 ++ [Called MetadataStrategy (Ret r); Budget t; Budget t']).

Definition has_shape (reading : Q -> Prop) (evs0 : list Event)
           (run : outcome Outline * World) : Prop :=
  attempt_shape reading evs0 (fst run) (events (snd run)).

(** [t] is what [_time_left()] gives at some reading of the clock. *)
Definition is_reading (clock : nat -> Q) (self : Extractor) (t : Q) : Prop :=
  exists k, t = remaining_at clock self k.

(** The console has served the first writes of [c]; [c'] is what is left. *)
Definition served (c c' : list (option exn)) : Prop :=
  exists used, c = used ++ c'.

(** The console [c] refuses some write with the exception [e]. *)
Definition refuses (c : list (option exn)) (e : exn) : Prop := In (Some e) c.

(** A run of [attempt] on any console: it goes as [attempt_shape] tells,
    [out0] being what it gives when the writes succeed; or a write of the
    driver, made when [out0] was about to be returned, raised. *)
Definition run_like (reading : Q -> Prop) (evs0 : list Event)
           (c : list (option exn)) (run : outcome Outline * World) : Prop :=
  exists out0,
    attempt_shape reading evs0 out0 (events (snd run))
    /\ served c (console (snd run))
    /\ (fst run = out0
        \/ exists o e, out0 = Ret o /\ fst run = Raise e /\ refuses c e).

(** *** The accepted headings of LayoutStrategy

    A fragment is a candidate when its text passes the length and artifact
    filters and [_heading_level] classifies it; candidates are deduplicated
    by exact text, the first occurrence being kept. *)
Definition candidate (body_font_size : Q) (block : TextBlock) : list Entry :=
  let text_ := strip (b_text block) in
  if (length text_ <? 3) || (150 <? length text_) || _is_artifact text_ then []
  else match _heading_level block body_font_size with
       | Some lvl => [mkEntry lvl text_ (b_page block)]
       | None => []
       end.

Fixpoint dedup_first (seen : list pystr) (es : list Entry) : list Entry :=
  match es with
  | [] => []
  | e :: es' =>
      if str_mem (text e) seen then dedup_first seen es'
      else e :: dedup_first (text e :: seen) es'
  end.

Definition accepted_headings (body_font_size : Q) (blocks : list TextBlock) : list Entry :=
  dedup_first [] (flat_map (candidate body_font_size) blocks).

(** An entry with its text cleaned as [_clean_headings] cleans it. *)
Definition cleaned_entry (h : Entry) : Entry := set_text h (heading_clean (text h)).

(** *** Documents and fragments used as examples *)

Definition text_page (t : pystr) : Page := mkPage [] t.

(** A fragment on page 1 at height [y], of font size [size]. *)
Definition fragment (t : string) (y size : Q) : TextBlock :=
  mkTextBlock (str t) 1 size 0 (0, y, 0, 0)%Q.

(** The engine found no fragment on any page. *)
Definition no_fragments (doc : Document) : Prop :=
  forall i p, In p (doc_pages doc) -> page_spans i p = [].

(** The positive font sizes of the collected fragments. *)
Definition positive_sizes (blocks : list TextBlock) : list Q :=
  filter (fun x => Qltb 0 x) (map b_font_size blocks).

(** *** What a successful match consists of

    [Matches inp r s c s' c']: from the position [s] with the groups [c],
    the pattern [r] can read up to the position [s'] and leave the groups
    [c'].  The bound of a repetition is left aside. *)
Inductive Matches (inp : pystr) : regex -> pystr -> captures -> pystr -> captures -> Prop :=
| M_Eps s c : Matches inp Eps s c s c
| M_Chr p a s c : p a = true -> Matches inp (Chr p) (a :: s) c s c
| M_Cat r1 r2 s c s1 c1 s2 c2 :
    Matches inp r1 s c s1 c1 -> Matches inp r2 s1 c1 s2 c2 ->
    Matches inp (Cat r1 r2) s c s2 c2
| M_AltL r1 r2 s c s1 c1 :
    Matches inp r1 s c s1 c1 -> Matches inp (Alt r1 r2) s c s1 c1
| M_AltR r1 r2 s c s1 c1 :
    Matches inp r2 s c s1 c1 -> Matches inp (Alt r1 r2) s c s1 c1
| M_StarStop g mx r s c : Matches inp (Star g mx r) s c s c
| M_StarStep g mx r s c s1 c1 s2 c2 :
    Matches inp r s c s1 c1 -> length s1 < length s ->
    Matches inp (Star g mx r) s1 c1 s2 c2 ->
    Matches inp (Star g mx r) s c s2 c2
| M_Group g r s c s1 c1 :
    Matches inp r s c s1 c1 ->
    Matches inp (Group g r) s c s1 ((g, firstn (length s - length s1) s) :: c1)
| M_Bos s c : length s = length inp -> Matches inp Bos s c s c
| M_Eos s c : s = [] \/ s = [newline] -> Matches inp Eos s c s c.

(** The groups a pattern can set. *)
Fixpoint groups_of (r : regex) : list nat :=
  match r with
  | Eps | Chr _ | Bos | Eos => []
  | Cat r1 r2 | Alt r1 r2 => groups_of r1 ++ groups_of r2
  | Star _ _ r1 => groups_of r1
  | Group g r1 => g :: groups_of r1
  end.

(** *** A match that starts at a page marker

    [m] starts at a marker [mark digits close] of [all_text]; from there to
    the text of group 2 there is no line break; group 1 is [digits], group 2
    is [heading]. *)
Definition marker_match (mark_ok close_ok head_ok : pystr -> Prop)
           (all_text : pystr) (m : Match) : Prop :=
  exists pre mark digits close bridge heading rest,
    all_text = pre ++ mark ++ digits ++ close ++ bridge ++ heading ++ rest
    /\ m_start m = length pre
    /\ m_len m = length (mark ++ digits ++ close ++ bridge ++ heading)
    /\ mark_ok mark /\ close_ok close
    /\ digits <> [] /\ forallb isdigit digits = true
    /\ forallb notnl bridge = true
    /\ head_ok heading
    /\ group 1 (m_caps m) = digits
    /\ group 2 (m_caps m) = heading.

(** The heading of the numbered pass begins with a digit; the one of the
    Chapter/Section pass with that keyword, in any case. *)
Definition numbered_head (heading : pystr) : Prop := first_sat isdigit heading = true.

Definition chapter_head (heading : pystr) : Prop :=
  exists keyword tail,
    heading = keyword ++ tail /\
    (str_lower keyword = str "chapter" \/ str_lower keyword = str "section").

(** The matches of one scan follow each other without overlap. *)
Definition before (m1 m2 : Match) : Prop :=
  m_start m1 < m_start m2 /\ m_start m1 + m_len m1 <= m_start m2.

(** A match of the title pattern: on the line of a [[PAGE_1]] marker. *)
Definition title_match (all_text : pystr) (m : Match) : Prop :=
  exists pre bridge title_ rest,
    all_text = pre ++ str "[PAGE_1]" ++ bridge ++ title_ ++ rest
    /\ m_start m = length pre
    /\ forallb notnl (bridge ++ title_) = true
    /\ first_sat isupper title_ = true
    /\ group 1 (m_caps m) = title_.

(** A matcher for [r] only succeeds through a match of [r]. *)
Definition sound_step (inp : pystr) (r : regex)
           (step : (pystr -> captures -> mres) -> pystr -> captures -> mres) : Prop :=
  forall k s c res, step k s c = Some res ->
    exists s1 c1, Matches inp r s c s1 c1 /\ k s1 c1 = Some res.

(** The order a comparison function decides. *)
Definition key_le {A : Type} (leb : A -> A -> bool) (a b : A) : Prop := leb a b = true.

(** Non-decreasing [(page, text)] order of neighbours. *)
Definition heading_key_le : Entry -> Entry -> Prop := key_le heading_key_leb.

(** *** The concatenated text, page by page *)

(** What one page adds to [all_text]: its marker and its text. *)
Definition page_segment (page_num : nat) (p : Page) : pystr :=
  page_marker (page_num + 1) ++ page_text p.

Fixpoint segments (pages : list Page) (page_num : nat) : list pystr :=
  match pages with
  | [] => []
  | p :: rest => page_segment page_num p :: segments rest (S page_num)
  end.

(** No page text contains an opening bracket, so that markers occur only
    where the program put them. *)
Definition plain_pages (doc : Document) : Prop :=
  forall p, In p (doc_pages doc) -> ~ In "["%char (page_text p).

(** A clock that starts at 100 and advances 6 units between readings. *)
Definition slow_clock (n : nat) : Q := (100 + 6 * inject_Z (Z.of_nat n))%Q.

(** A strategy that finds nothing, one that would be accepted, one that
    raises. *)
Definition finds_nothing : Extractor -> Clock (option Outline) := fun _ => ret None.
Definition finds_one : Extractor -> Clock (option Outline) :=
  fun _ => ret (Some (mkOutline (str "Found") [mkEntry H1 (str "Found") 1])).
Definition fails_to_open : Extractor -> Clock (option Outline) :=
  fun _ => raise (Exception (str "cannot open")).

(** A document whose only page holds an image block, and one with two
    bookmarks. *)
Definition image_only : Document := mkDocument [] [mkPage [None] []].
Definition two_bookmarks : Document :=
  mkDocument [(1%Z, str "Intro", 1%Z); (2%Z, str "  Background.. ", 2%Z)] [].
Definition two_chapters : Document :=
  mkDocument [] [text_page (str "1. Introduction" ++ [newline]);
                 text_page (str "2. Background here" ++ [newline])].

(** Two continuations that answer alike. *)
Definition same_cont (k k' : pystr -> captures -> mres) : Prop :=
  forall s c, k s c = k' s c.

(** *** Further notions: the driver *)

(** The strategies a run called, in the order of the calls. *)
Fixpoint called_strategies (evs : list Event) : list Strategy :=
  match evs with
  | [] => []
  | Called s _ :: evs' => s :: called_strategies evs'
  | Budget _ :: evs' => called_strategies evs'
  end.

(** *** Further notions: LayoutStrategy *)

(** The blocks the pages give, the first page having the index [page_num]. *)
Fixpoint collected (pages : list Page) (page_num : nat) : list TextBlock :=
  match pages with
  | [] => []
  | p :: rest => page_spans page_num p ++ collected rest (S page_num)
  end.

(** The time left never falls under [limit]. *)
Definition never_under (clock : nat -> Q) (self : Extractor) (limit : Q) : Prop :=
  forall m, Qltb (remaining_at clock self m) limit = false.

(** A candidate of [_extract_title]: on the first three pages, larger than
    the sum, as a double, of the body size and 2, of a length strictly
    between 5 and 200. *)
Definition title_candidate (body_font_size : Q) (b : TextBlock) : bool :=
  (b_page b <=? 3)%Z
  && (float_lt (float_add (to_float body_font_size) (to_float 2))
               (to_float (b_font_size b))
      && (5 <? length (b_text b)) && (length (b_text b) <? 200)).

(** The rational a finite float is. *)
Definition float_value (a : float) : Q :=
  match a with
  | Finite q => q
  | _ => 0
  end.

(** *** Further notions: PatternStrategy *)

(** A match whose page number has too many digits for [int]. *)
Definition too_long (m : Match) : Prop :=
  int_max_str_digits < length (group 1 (m_caps m)).

(** The matches of the two passes. *)
Definition pass_matches (all_text : pystr) : list Match :=
  re_finditer re_numbered_heading all_text ++ re_finditer re_chapter_heading all_text.

(** A page whose own text holds, on its second line, a page marker of the
    given number of digits and a numbered heading after it. *)
Definition long_marker_page (digits : nat) : Page :=
  text_page (newline :: str "[PAGE_" ++ repeat "7"%char digits ++ str "] 1. Introduction").

(** No whitespace character occurs in [s]. *)
Definition no_space (s : pystr) : bool := forallb (fun a => negb (isspace a)) s.

(** Some whitespace character occurs in [s]. *)
Definition has_space (s : pystr) : Prop := exists a, In a s /\ isspace a = true.

(** A document of one page: a heading of size 20 over two lines of size 12. *)
Definition one_heading : Document :=
  mkDocument []
    [mkPage [Some [[mkSpan (str "Introduction") 20 0 (0, 10, 0, 0)%Q];
                   [mkSpan (str "some body text") 12 0 (0, 40, 0, 0)%Q];
                   [mkSpan (str "more body text") 12 0 (0, 60, 0, 0)%Q]]]
            []].

(** *** Further notions: cleaned texts, outlines as bookmarks *)

(** Every whitespace character of [s] is a space. *)
Definition spaces_only (s : pystr) : bool :=
  forallb (fun a => negb (isspace a) || Ascii.eqb a space) s.

(** The nesting level [_extract_with_toc] maps to a level. *)
Definition level_number (l : Level) : Z :=
  match l with H1 => 1 | H2 => 2 | H3 => 3 end.

(** The entries of an outline, as the bookmarks [doc.get_toc()] would list. *)
Definition as_bookmarks (o : Outline) : list (Z * pystr * Z) :=
  map (fun e => (level_number (level e), text e, page e)) (outline o).

(** *** Further notions: artifacts without patterns *)

(** One or more digits and nothing else, a line break at the very end
    apart (which [$] lets pass). *)
Definition digits_only (t : pystr) : bool :=
  match t with
  | a :: t' =>
      isdigit a &&
      match lstrip isdigit t' with
      | [] => true
      | [b] => Ascii.eqb b newline
      | _ => false
      end
  | [] => false
  end.

Definition link_marks : list pystr := [str "http"; str "www."; str "@"].

Definition is_artifact_plain (t : pystr) : bool :=
  digits_only t
  || existsb (fun artifact => contains artifact (str_lower t)) artifact_words
  || existsb (fun mark => contains mark t) link_marks.

(** *** Further notions: time *)

(** A later reading of the clock is not smaller. *)
Definition monotone (clock : nat -> Q) : Prop :=
  forall i j, i <= j -> (clock i <= clock j)%Q.

(** A strategy cannot take back a reading of the clock. *)
Definition advances (strategy : Extractor -> Clock (option Outline)) : Prop :=
  forall self n, n <= snd (strategy self n).

(* ================================================================== *)
(** ** Facts about strings *)

Lemma lstrip_suffix (p : ascii -> bool) (s : pystr) :
  exists pre, s = pre ++ lstrip p s /\ forallb p pre = true.
Proof.
  induction s as [|a s IH]; simpl.
  - exists []; auto.
  - destruct (p a) eqn:E.
    + destruct IH as [pre [H1 H2]]. exists (a :: pre). simpl.
      rewrite E, H2. split; [f_equal; exact H1 | reflexivity].
    + exists []; auto.
Qed.

Lemma lstrip_head (p : ascii -> bool) (s : pystr) a t :
  lstrip p s = a :: t -> p a = false.
Proof.
  induction s as [|b s IH]; simpl; [discriminate|].
  destruct (p b) eqn:E; auto.
  intros H; inversion H; subst; exact E.
Qed.


Lemma rstrip_prefix (p : ascii -> bool) (s : pystr) :
  exists post, s = rstrip p s ++ post /\ forallb p post = true.
Proof.
  unfold rstrip. destruct (lstrip_suffix p (rev s)) as [pre [H1 H2]].
  exists (rev pre). split.
  - rewrite <- rev_app_distr, <- H1, rev_involutive. reflexivity.
  - rewrite forallb_forall in *. intros x Hx. apply H2. apply in_rev. exact Hx.
Qed.


Lemma In_firstn {A : Type} (x : A) (n : nat) :
  forall l, In x (firstn n l) -> In x l.
Proof.
  induction n as [|n IH]; intros [|y l] H; simpl in *; try contradiction.
  destruct H as [H|H]; [left; exact H | right; apply IH; exact H].
Qed.


Lemma firstn_prefix {A : Type} (pre s : list A) :
  firstn (length (pre ++ s) - length s) (pre ++ s) = pre.
Proof.
  rewrite length_app. replace (length pre + length s - length s) with (length pre) by lia.
  rewrite firstn_app, firstn_all, Nat.sub_diag. simpl. apply app_nil_r.
Qed.

Lemma collapse_from_lstrip (s : pystr) :
  collapse_from true s = collapse_from false (lstrip isspace s).
Proof.
  induction s as [|a s IH]; simpl; [reflexivity|].
  destruct (isspace a) eqn:E; [exact IH|].
  simpl. rewrite E. reflexivity.
Qed.

(* ================================================================== *)
(** ** Facts about the matcher *)

(** A greedy repetition of one character class, with nothing after it,
    takes the longest run. *)
Lemma star_class_greedy (inp : pystr) (p : ascii -> bool) (n : nat) :
  forall s c, length s <= n ->
    star_loop (rmatch inp (Chr p)) true (@accept) n s c = Some (lstrip p s, c).
Proof.
  induction n as [|n IH]; intros s c Hn.
  - destruct s; [reflexivity | simpl in Hn; lia].
  - destruct s as [|a s]; [reflexivity|].
    simpl. destruct (p a) eqn:E; [|reflexivity].
    replace (length s <? S (length s)) with true
      by (symmetry; apply Nat.ltb_lt; lia).
    rewrite IH by (simpl in Hn; lia). reflexivity.
Qed.

Lemma match_at_spaces (inp s : pystr) :
  match_at inp re_spaces s =
  match s with
  | a :: s' => if isspace a then Some (lstrip isspace s', []) else None
  | [] => None
  end.
Proof.
  destruct s as [|a s]; [reflexivity|].
  unfold match_at, re_spaces, Plus, ws. simpl.
  destruct (isspace a); [|reflexivity].
  exact (@star_class_greedy inp isspace (length s) s [] (le_n _)).
Qed.

Lemma finditer_skip (inp : pystr) (r : regex) (k : nat) :
  forall s, k <= length s ->
    finditer_from inp r s k = finditer_from inp r (skipn k s) 0.
Proof.
  induction k as [|k IH]; intros s Hk; [reflexivity|].
  destruct s as [|a s]; simpl in *; [lia|].
  apply IH. lia.
Qed.

Lemma finditer_start_ge (inp : pystr) (r : regex) :
  forall s k m, In m (finditer_from inp r s k) ->
    length inp - length s <= m_start m.
Proof.
  induction s as [|a s IH]; intros k m Hin.
  - destruct k; simpl in Hin; [|contradiction].
    destruct (match_at inp r []) as [[rest c]|]; simpl in Hin; [|contradiction].
    destruct Hin as [<-|[]]. simpl. lia.
  - destruct k; simpl in Hin.
    + destruct (match_at inp r (a :: s)) as [[rest c]|].
      * destruct Hin as [<-|Hin]; [simpl; lia|].
        apply IH in Hin. simpl. lia.
      * apply IH in Hin. simpl. lia.
    + apply IH in Hin. simpl. lia.
Qed.

(** The text before the first match is kept as it is. *)
Lemma sub_build_cons (repl : pystr) (a : ascii) (s : pystr) (pos : nat) (ms : list Match) :
  (forall m, In m ms -> S pos <= m_start m) ->
  sub_build repl (a :: s) pos ms = a :: sub_build repl s (S pos) ms.
Proof.
  destruct ms as [|m ms]; intros H; [reflexivity|].
  simpl. assert (Hm : S pos <= m_start m) by (apply H; left; reflexivity).
  replace (m_start m - pos) with (S (m_start m - S pos)) by lia.
  reflexivity.
Qed.

(** [re.sub(r'\s+', ' ', s)] collapses every whitespace run to one space. *)
Lemma sub_spaces_from (inp : pystr) (n : nat) :
  forall s pos, length s <= n -> length inp = pos + length s ->
    sub_build [space] s pos (finditer_from inp re_spaces s 0) = collapse_ws s.
Proof.
  induction n as [|n IH]; intros s pos Hn Hlen.
  - destruct s; [|simpl in Hn; lia]. reflexivity.
  - destruct s as [|a s]; [reflexivity|].
    cbn [finditer_from]. rewrite match_at_spaces.
    unfold collapse_ws. cbn [collapse_from].
    destruct (isspace a) eqn:E.
    + destruct (lstrip_suffix isspace s) as [pre [Hs _]].
      remember (lstrip isspace s) as rest eqn:Hrest.
      assert (Hl : length s = length pre + length rest)
        by (rewrite Hs at 1; apply length_app).
      assert (Hskip : skipn (length pre) s = rest).
      { rewrite Hs at 1. rewrite skipn_app, skipn_all, Nat.sub_diag. reflexivity. }
      rewrite finditer_skip by (cbn [length]; lia).
      replace (length (a :: s) - length rest - 1) with (length pre)
        by (cbn [length]; lia).
      rewrite Hskip.
      cbn [sub_build m_start m_len].
      replace (length inp - length (a :: s) - pos) with 0 by (cbn [length] in *; lia).
      replace (0 + (length (a :: s) - length rest)) with (S (length pre))
        by (cbn [length]; lia).
      cbn [firstn skipn app]. rewrite Hskip.
      rewrite collapse_from_lstrip, <- Hrest. f_equal.
      apply IH; cbn [length] in *; lia.
    + rewrite sub_build_cons.
      * f_equal. apply IH; cbn [length] in *; lia.
      * intros m Hm. apply finditer_start_ge in Hm. cbn [length] in *. lia.
Qed.

Lemma re_sub_spaces (s : pystr) :
  re_sub re_spaces (str " ") s = collapse_ws s.
Proof.
  unfold re_sub, re_finditer.
  exact (@sub_spaces_from s (length s) s 0 (le_n _) eq_refl).
Qed.

(** *** The bound of the loop

    The matcher depends on its continuation only through the answers of the
    continuation, and a repetition never needs more iterations than there
    are characters left: the [length s] given to a repetition without bound
    stands for no bound at all. *)
Section Fuel.
Variable inp : pystr.

Lemma star_loop_ext step (g : bool) k k' :
  (forall k1 k2, same_cont k1 k2 -> same_cont (step k1) (step k2)) ->
  same_cont k k' ->
  forall n, same_cont (star_loop step g k n) (star_loop step g k' n).
Proof.
  intros Hstep Hk. induction n as [|n IH]; intros s c; cbn [star_loop]; [apply Hk|].
  rewrite (Hk s c).
  rewrite (Hstep _ (fun s' c' => if length s' <? length s
                                 then star_loop step g k' n s' c' else None)).
  - reflexivity.
  - intros s' c'. destruct (length s' <? length s); [apply IH | reflexivity].
Qed.

Lemma rmatch_ext (r : regex) :
  forall k k', same_cont k k' -> same_cont (rmatch inp r k) (rmatch inp r k').
Proof.
  induction r as [|p|r1 IH1 r2 IH2|r1 IH1 r2 IH2|g mx r1 IH1|g r1 IH1| |];
    intros k k' Hk s c; cbn [rmatch].
  - apply Hk.
  - destruct s as [|a s]; [reflexivity|]. destruct (p a); [apply Hk | reflexivity].
  - apply IH1. apply IH2. exact Hk.
  - rewrite (IH1 k k' Hk s c), (IH2 k k' Hk s c). reflexivity.
  - apply star_loop_ext; assumption.
  - apply IH1. intros s' c'. apply Hk.
  - rewrite (Hk s c). reflexivity.
  - destruct s as [|a [|b s]]; [apply Hk | | reflexivity].
    destruct (Ascii.eqb a newline); [apply Hk | reflexivity].
Qed.

Lemma rmatch_fail (r : regex) :
  forall k, (forall s c, k s c = None) -> forall s c, rmatch inp r k s c = None.
Proof.
  induction r as [|p|r1 IH1 r2 IH2|r1 IH1 r2 IH2|g mx r1 IH1|g r1 IH1| |];
    intros k Hk s c; cbn [rmatch].
  - apply Hk.
  - destruct s as [|a s]; [reflexivity|]. destruct (p a); [apply Hk | reflexivity].
  - apply IH1. intros s' c'. apply IH2. exact Hk.
  - rewrite (IH1 k Hk), (IH2 k Hk). reflexivity.
  - generalize (match mx with Some m => m | None => length s end). intros n.
    revert s c. induction n as [|n IHn]; intros s c; cbn [star_loop]; [apply Hk|].
    rewrite Hk, IH1; [destruct g; reflexivity|].
    intros s' c'. destruct (length s' <? length s); [apply IHn | reflexivity].
  - apply IH1. intros s' c'. apply Hk.
  - rewrite Hk. destruct (length s =? length inp); reflexivity.
  - destruct s as [|a [|b s]]; [apply Hk | | reflexivity].
    destruct (Ascii.eqb a newline); [apply Hk | reflexivity].
Qed.

(** Any two bounds that are at least the number of characters left give the
    same result. *)
Lemma star_fuel_enough (r : regex) (g : bool) k :
  forall n m s c, length s <= n -> length s <= m ->
    star_loop (rmatch inp r) g k n s c = star_loop (rmatch inp r) g k m s c.
Proof.
  assert (Hempty : forall m c, star_loop (rmatch inp r) g k m [] c = k [] c).
  { intros [|m] c; cbn [star_loop]; [reflexivity|].
    rewrite rmatch_fail by reflexivity.
    destruct g; [reflexivity | destruct (k [] c); reflexivity]. }
  induction n as [|n IH]; intros m s c Hn Hm.
  - destruct s; [|cbn in Hn; lia]. rewrite !Hempty. reflexivity.
  - destruct m as [|m].
    + destruct s; [|cbn in Hm; lia]. rewrite !Hempty. reflexivity.
    + cbn [star_loop].
      rewrite (@rmatch_ext r
                 (fun s' c' => if length s' <? length s
                               then star_loop (rmatch inp r) g k n s' c' else None)
                 (fun s' c' => if length s' <? length s
                               then star_loop (rmatch inp r) g k m s' c' else None));
        [reflexivity|].
      intros s' c'. destruct (length s' <? length s) eqn:E; [|reflexivity].
      apply Nat.ltb_lt in E. apply IH; lia.
Qed.
End Fuel.

(* ================================================================== *)
(** ** MetadataStrategy *)

Lemma toc_clean_spec (t : pystr) : toc_clean t = spec_normalize t.
Proof. unfold toc_clean, spec_normalize. rewrite re_sub_spaces. reflexivity. Qed.

Lemma toc_level_spec (l : Z) : toc_level l = spec_level l.
Proof.
  unfold toc_level, spec_level.
  destruct (l =? 1)%Z eqn:E1; [apply Z.eqb_eq in E1; subst; reflexivity|].
  destruct (l =? 2)%Z eqn:E2; [apply Z.eqb_eq in E2; subst; reflexivity|].
  apply Z.eqb_neq in E1, E2.
  destruct l as [|q|q]; try reflexivity.
  destruct q as [q|q|]; try reflexivity; try congruence.
  destruct q; try reflexivity; congruence.
Qed.

Lemma toc_loop_spec (toc : list (Z * pystr * Z)) :
  toc_loop toc = map spec_entry (filter spec_retained toc).
Proof.
  induction toc as [|[[lvl raw] pg] toc IH]; [reflexivity|].
  cbn [toc_loop filter spec_retained]. rewrite toc_clean_spec.
  set (n := length (spec_normalize raw)).
  assert (E : (n =? 0) || (n <? 3) || (150 <? n) = negb ((3 <=? n) && (n <=? 150))).
  { destruct (n =? 0) eqn:A; destruct (n <? 3) eqn:B; destruct (150 <? n) eqn:C;
      destruct (3 <=? n) eqn:D; destruct (n <=? 150) eqn:F; try reflexivity;
      repeat match goal with
             | H : (_ =? _) = true |- _ => apply Nat.eqb_eq in H
             | H : (_ =? _) = false |- _ => apply Nat.eqb_neq in H
             | H : (_ <? _) = true |- _ => apply Nat.ltb_lt in H
             | H : (_ <? _) = false |- _ => apply Nat.ltb_ge in H
             | H : (_ <=? _) = true |- _ => apply Nat.leb_le in H
             | H : (_ <=? _) = false |- _ => apply Nat.leb_gt in H
             end; lia. }
  rewrite E. destruct ((3 <=? n) && (n <=? 150)); cbn [negb map].
  - rewrite IH. unfold spec_entry at 1. rewrite toc_level_spec. reflexivity.
  - exact IH.
Qed.

(** C2. MetadataStrategy returns what the specification describes: no result
    when the bookmark list is empty or every item is discarded; otherwise
    one entry per retained item, in input order, with the normalized title
    (retained when its length is between 3 and 150), the level H1, H2 or H3
    from the nesting level and the page unchanged, and as title the first
    retained text or the sentinel when that text is longer than 100. *)
Theorem metadata_strategy_postcondition :
  (forall doc : Document, _extract_with_toc doc = spec_metadata (doc_toc doc))
  /\ (forall doc : Document,
        _extract_with_toc doc = None <->
        (doc_toc doc = [] \/ forall item, In item (doc_toc doc) -> spec_retained item = false))
  /\ _extract_with_toc
       (mkDocument [(1%Z, str "Intro", 1%Z); (2%Z, str "  Background.. ", 2%Z)] [])
     = Some (mkOutline (str "Intro")
               [mkEntry H1 (str "Intro") 1%Z; mkEntry H2 (str "Background") 2%Z]).
Proof.
  assert (Heq : forall doc : Document, _extract_with_toc doc = spec_metadata (doc_toc doc)).
  { intros doc. unfold _extract_with_toc, spec_metadata.
    rewrite toc_loop_spec.
    destruct (doc_toc doc) as [|item toc]; [reflexivity|].
    destruct (map spec_entry (filter spec_retained (item :: toc))); reflexivity. }
  split; [exact Heq|]. split; [|vm_compute; reflexivity].
  intros doc. rewrite Heq. unfold spec_metadata.
  destruct (map spec_entry (filter spec_retained (doc_toc doc))) as [|e es] eqn:E.
  - split; [intros _|reflexivity].
    right. intros item Hin.
    destruct (spec_retained item) eqn:R; [|reflexivity].
    assert (Hf : In item (filter spec_retained (doc_toc doc)))
      by (apply filter_In; split; assumption).
    apply (in_map spec_entry) in Hf. rewrite E in Hf. contradiction.
  - split; [discriminate|].
    intros [H|H].
    + rewrite H in E. discriminate.
    + assert (Hnil : filter spec_retained (doc_toc doc) = []).
      { destruct (filter spec_retained (doc_toc doc)) as [|x xs] eqn:F; [reflexivity|].
        assert (Hx : In x (filter spec_retained (doc_toc doc))) by (rewrite F; left; reflexivity).
        apply filter_In in Hx. destruct Hx as [Hx1 Hx2].
        rewrite (H x Hx1) in Hx2. discriminate. }
      rewrite Hnil in E. discriminate.
Qed.

(* ================================================================== *)
(** ** Heading classification *)


(* ================================================================== *)
(** ** The pipeline driver *)

Lemma _time_left_value (clock : nat -> Q) (self : Extractor) (n : nat) :
  exists n', _time_left clock self n = (Ret (remaining_at clock self n), n').
Proof.
  unfold remaining_at, _time_left.
  destruct (start_time self) as [t0|]; cbn; [|eauto].
  destruct (Qeq_bool t0 0); cbn; eauto.
Qed.

Lemma served_refl (c : list (option exn)) : served c c.
Proof. exists []. reflexivity. Qed.

Lemma served_trans (c1 c2 c3 : list (option exn)) :
  served c1 c2 -> served c2 c3 -> served c1 c3.
Proof.
  intros [u1 ->] [u2 ->]. exists (u1 ++ u2). rewrite app_assoc. reflexivity.
Qed.

Lemma served_refuses (c c' : list (option exn)) (e : exn) :
  served c c' -> refuses c' e -> refuses c e.
Proof. intros [u ->] H. apply in_or_app. right. exact H. Qed.

(** A write: the events stay, the console serves it, and what it raises is
    what the console refused it with. *)
Lemma print_cases (w : World) :
  exists r w',
    print w = (r, w') /\ events w' = events w /\ reads w' = reads w
    /\ served (console w) (console w')
    /\ match r with
       | Ret _ => True
       | Raise e => refuses (console w) e
       end.
Proof.
  unfold print. destruct (console w) as [|[e|] rest] eqn:C.
  - exists (Ret tt), w. rewrite C. repeat split; auto. apply served_refl.
  - eexists. eexists. split; [reflexivity|]. cbn [events reads console].
    repeat split; auto; [exists [Some e]; reflexivity | left; reflexivity].
  - eexists. eexists. split; [reflexivity|]. cbn [events reads console].
    repeat split; auto. exists [None]. reflexivity.
Qed.

Lemma print_cases_events (w : World) :
  exists r w',
    print w = (r, w') /\ events w' = events w
    /\ served (console w) (console w')
    /\ match r with
       | Ret _ => True
       | Raise e => refuses (console w) e
       end.
Proof.
  destruct (print_cases w) as [r [w' [E [Hev [_ [Hc Hr]]]]]]. exists r, w'. auto.
Qed.

Lemma print_quiet (w : World) : console w = [] -> print w = (Ret tt, w).
Proof. unfold print. intros ->. reflexivity. Qed.

Section DriverFacts.
Variable clock : nat -> Q.
Variables toc_strategy layout_strategy regex_strategy :
  Extractor -> Clock (option Outline).

Lemma time_left_returns (self : Extractor) (w : World) :
  exists t n,
    time_left clock self w = (Ret t, mkWorld n (events w ++ [Budget t]) (console w))
    /\ is_reading clock self t.
Proof.
  unfold time_left, on_clock.
  destruct (_time_left_value clock self (reads w)) as [n E]. rewrite E. cbn.
  exists (remaining_at clock self (reads w)), n.
  split; [reflexivity | exists (reads w); reflexivity].
Qed.

Lemma log_time_cases (self : Extractor) (w : World) :
  start_time self <> None ->
  exists r w',
    _log_time clock self w = (r, w') /\ events w' = events w
    /\ served (console w) (console w')
    /\ match r with
       | Ret _ => True
       | Raise e => refuses (console w) e
       end.
Proof.
  intros Hs. unfold _log_time, bind, on_clock, time_time.
  destruct (start_time self) as [t0|]; [|congruence].
  destruct (print_cases (mkWorld (S (reads w)) (events w) (console w)))
    as [r [w' [E [Hev [_ [Hc Hr]]]]]].
  exists r, w'. cbn [events console] in *. auto.
Qed.

Lemma log_time_returns (self : Extractor) (w : World) :
  start_time self <> None -> console w = [] ->
  exists n, _log_time clock self w = (Ret tt, mkWorld n (events w) []).
Proof.
  intros Hs Hc. unfold _log_time, bind, on_clock, time_time.
  destruct (start_time self) as [t0|]; [|congruence].
  rewrite Hc. cbn. eauto.
Qed.

Lemma accepted_valid (r : option Outline) (o : Outline) :
  accepted r = Some o -> r = Some o /\ _validate_result r = true.
Proof.
  unfold accepted. destruct (_validate_result r) eqn:E; [|discriminate].
  intros ->. split; [reflexivity | first [exact E | reflexivity]].
Qed.

(** The end of a branch of [attempt]: a write, then the return of [o]. *)
Ltac finish_branch writes o :=
  let r := fresh "r" in
  let w1 := fresh "w" in
  let E := fresh "E" in
  let Hev := fresh "Hev" in
  let Hc := fresh "Hc" in
  let Hr := fresh "Hr" in
  destruct writes as [r [w1 [E [Hev [Hc Hr]]]]];
  rewrite E; clear E; cbn [events console] in Hev, Hc, Hr;
  unfold run_like; exists (Ret o);
  destruct r as [[]|?]; cbn [ret fst snd];
  rewrite Hev;
  (split; [|split; [exact Hc|]]);
  [ | left; reflexivity | | right; eauto ].

Lemma attempt_runs (self : Extractor) (w : World) :
  start_time self <> None ->
  run_like (is_reading clock self) (events w) (console w)
           (attempt clock toc_strategy layout_strategy regex_strategy self w).
Proof.
  intros Hs. unfold attempt, bind, call at 1.
  destruct (toc_strategy self (reads w)) as [[r|e] n1].
  2:{ unfold run_like. exists (Raise e). cbn [fst snd events console].
      split; [apply shape_meta_raise|]. split; [apply served_refl | left; reflexivity]. }
  destruct (accepted r) as [o|] eqn:A1.
  { finish_branch
      (log_time_cases self (mkWorld n1 (events w ++ [Called MetadataStrategy (Ret r)])
                                    (console w)) Hs) o;
      eapply shape_meta_ok; eassumption. }
  match goal with
  | |- context [time_left clock self ?w'] =>
      destruct (time_left_returns self w') as [t [n [E R]]]; rewrite E; clear E;
      cbn [events reads console]
  end.
  rewrite <- app_assoc. cbn [app].
  destruct (Qgtb t 5) eqn:G1.
  - unfold call at 1. cbn [reads events console].
    destruct (layout_strategy self n) as [[r2|e] n2]; cbn [ret].
    2:{ unfold run_like. exists (Raise e). cbn [fst snd events console].
        rewrite <- app_assoc. cbn [app].
        split; [apply shape_layout_raise; assumption|].
        split; [apply served_refl | left; reflexivity]. }
    rewrite <- app_assoc. cbn [app].
    destruct (accepted r2) as [o|] eqn:A2.
    { match goal with
      | |- context [_log_time clock self ?w'] =>
          finish_branch (log_time_cases self w' Hs) o
      end; eapply shape_layout_ok; eassumption. }
    match goal with
    | |- context [time_left clock self ?w'] =>
        destruct (time_left_returns self w') as [t0 [n0 [E R0]]]; rewrite E; clear E;
        cbn [events reads console]
    end.
    rewrite <- app_assoc. cbn [app].
    destruct (Qgtb t0 1) eqn:G2.
    + unfold call at 1. cbn [reads events console].
      destruct (regex_strategy self n0) as [[r3|e] n3]; cbn [ret];
        rewrite <- app_assoc; cbn [app].
      * destruct (accepted r3) as [o|] eqn:A3.
        -- match goal with
           | |- context [_log_time clock self ?w'] =>
               finish_branch (log_time_cases self w' Hs) o
           end;
             (eapply shape_layout_then_regex with (res3 := Ret r3); try eassumption;
              rewrite A3; reflexivity).
        -- match goal with
           | |- context [print ?w'] => finish_branch (print_cases_events w') sentinel_outline
           end;
             (eapply shape_layout_then_regex with (res3 := Ret r3); try eassumption;
              rewrite A3; reflexivity).
      * unfold run_like. exists (Raise e). cbn [fst snd events console].
        split; [eapply shape_layout_then_regex with (res3 := Raise e); try eassumption;
                reflexivity|].
        split; [apply served_refl | left; reflexivity].
    + cbn [ret].
      match goal with
      | |- context [print ?w'] => finish_branch (print_cases_events w') sentinel_outline
      end; apply shape_layout_then_stop; assumption.
  - cbn [ret].
    match goal with
    | |- context [time_left clock self ?w'] =>
        destruct (time_left_returns self w') as [t0 [n0 [E R0]]]; rewrite E; clear E;
        cbn [events reads console]
    end.
    rewrite <- app_assoc. cbn [app].
    destruct (Qgtb t0 1) eqn:G2.
    + unfold call at 1. cbn [reads events console].
      destruct (regex_strategy self n0) as [[r3|e] n3]; cbn [ret];
        rewrite <- app_assoc; cbn [app].
      * destruct (accepted r3) as [o|] eqn:A3.
        -- match goal with
           | |- context [_log_time clock self ?w'] =>
               finish_branch (log_time_cases self w' Hs) o
           end;
             (eapply shape_regex with (res3 := Ret r3); try eassumption;
              rewrite A3; reflexivity).
        -- match goal with
           | |- context [print ?w'] => finish_branch (print_cases_events w') sentinel_outline
           end;
             (eapply shape_regex with (res3 := Ret r3); try eassumption;
              rewrite A3; reflexivity).
      * unfold run_like. exists (Raise e). cbn [fst snd events console].
        split; [eapply shape_regex with (res3 := Raise e); try eassumption; reflexivity|].
        split; [apply served_refl | left; reflexivity].
    + cbn [ret].
      match goal with
      | |- context [print ?w'] => finish_branch (print_cases_events w') sentinel_outline
      end; apply shape_stop; assumption.
Qed.

Lemma attempt_has_shape (self : Extractor) (w : World) :
  start_time self <> None -> console w = [] ->
  has_shape (is_reading clock self) (events w)
    (attempt clock toc_strategy layout_strategy regex_strategy self w).
Proof.
  intros Hs Hc. destruct (attempt_runs self w Hs) as [out0 [Hshape [_ Hout]]].
  unfold has_shape. destruct Hout as [->|[o [e [_ [_ Hin]]]]]; [exact Hshape|].
  unfold refuses in Hin. rewrite Hc in Hin. destruct Hin.
Qed.
End DriverFacts.

(** What [extract_outline] gives on any console: what the attempt was about
    to give, the error result for a fault; or the error result because a
    write in the body raised; or the exception of the handler's own write. *)
Lemma extract_outline_runs (clock : nat -> Q)
      (toc_strategy layout_strategy regex_strategy : Extractor -> Clock (option Outline))
      (self0 : Extractor) (w : World) :
  exists out0,
    attempt_shape
      (is_reading clock (mkExtractor (max_runtime self0) (Some (clock (reads w)))))
      (events w) out0
      (events (snd (extract_outline clock toc_strategy layout_strategy regex_strategy
                                    self0 w)))
    /\ (fst (extract_outline clock toc_strategy layout_strategy regex_strategy self0 w)
        = Ret match out0 with Ret o => o | Raise _ => error_outline end
        \/ (exists o e,
              out0 = Ret o
              /\ fst (extract_outline clock toc_strategy layout_strategy regex_strategy
                                      self0 w) = Ret error_outline
              /\ refuses (console w) e)
        \/ (exists e,
              fst (extract_outline clock toc_strategy layout_strategy regex_strategy
                                   self0 w) = Raise e
              /\ refuses (console w) e)).
Proof.
  unfold extract_outline, bind, on_clock, time_time, try_except. cbn [reads events].
  match goal with
  | |- context [attempt clock toc_strategy layout_strategy regex_strategy ?self ?w1] =>
      destruct (@attempt_runs clock toc_strategy layout_strategy regex_strategy self w1)
        as [out0 [Hshape [Hserved Hout]]]; [discriminate|];
      destruct (attempt clock toc_strategy layout_strategy regex_strategy self w1)
        as [[o|e] w'] eqn:E
  end; cbn [fst snd events console] in *.
  - exists out0. split; [exact Hshape|].
    destruct Hout as [<-|[o' [e [_ [H _]]]]]; [left; reflexivity | discriminate H].
  - destruct (print_cases w') as [r [w2 [Ep [Hev [_ [Hc Hr]]]]]].
    rewrite Ep. exists out0. rewrite <- Hev in Hshape.
    destruct r as [[]|e']; unfold ret; cbn [fst snd].
    + split; [exact Hshape|].
      destruct Hout as [<-|[o' [e0 [-> [_ Hin]]]]]; [left; reflexivity|].
      right. left. exists o', e0. auto.
    + split; [exact Hshape|]. right. right. exists e'. split; [reflexivity|].
      exact (served_refuses _ Hserved Hr).
Qed.

Lemma extract_outline_shape (clock : nat -> Q)
      (toc_strategy layout_strategy regex_strategy : Extractor -> Clock (option Outline))
      (self0 : Extractor) (w : World) :
  console w = [] ->
  exists out w',
    attempt_shape
      (is_reading clock (mkExtractor (max_runtime self0) (Some (clock (reads w)))))
      (events w) out (events w') /\
    extract_outline clock toc_strategy layout_strategy regex_strategy self0 w =
    (Ret match out with Ret o => o | Raise _ => error_outline end, w').
Proof.
  intros Hc.
  destruct (extract_outline_runs clock toc_strategy layout_strategy regex_strategy self0 w)
    as [out0 [Hshape Hout]].
  exists out0.
  exists (snd (extract_outline clock toc_strategy layout_strategy regex_strategy self0 w)).
  split; [exact Hshape|].
  destruct Hout as [H|[[o [e [_ [_ Hin]]]]|[e [_ Hin]]]];
    [| unfold refuses in Hin; rewrite Hc in Hin; destruct Hin
     | unfold refuses in Hin; rewrite Hc in Hin; destruct Hin].
  rewrite <- H. apply surjective_pairing.
Qed.

(** The events of a run are those of its attempt. *)
Lemma extract_outline_events (clock : nat -> Q)
      (toc_strategy layout_strategy regex_strategy : Extractor -> Clock (option Outline))
      (self0 : Extractor) (w : World) :
  events (snd (extract_outline clock toc_strategy layout_strategy regex_strategy self0 w))
  = events (snd (attempt clock toc_strategy layout_strategy regex_strategy
                         (mkExtractor (max_runtime self0) (Some (clock (reads w))))
                         (mkWorld (S (reads w)) (events w) (console w)))).
Proof.
  unfold extract_outline, bind, on_clock, time_time, try_except.
  destruct (attempt clock toc_strategy layout_strategy regex_strategy
                    (mkExtractor (max_runtime self0) (Some (clock (reads w))))
                    (mkWorld (S (reads w)) (events w) (console w))) as [[o|e] w'];
    [reflexivity|].
  destruct (print_cases_events w') as [r [w2 [E [Hev _]]]]. rewrite E.
  destruct r as [[]|e0]; exact Hev.
Qed.

Lemma accepted_is_not_error (r : option Outline) (o : Outline) :
  accepted r = Some o -> o <> error_outline /\ o <> sentinel_outline.
Proof.
  intros H. apply accepted_valid in H. destruct H as [-> H].
  split; intros ->; discriminate H.
Qed.

Lemma sentinel_is_not_error : sentinel_outline <> error_outline.
Proof. discriminate. Qed.

Lemma Qgtb_false_iff (t b : Q) : Qgtb t b = false <-> (t <= b)%Q.
Proof.
  unfold Qgtb, Qltb. rewrite negb_false_iff. apply Qle_bool_iff.
Qed.

Lemma Qgtb_le_false (t b : Q) : Qgtb t b = true -> (t <= b)%Q -> False.
Proof.
  intros H1 H2. apply Qgtb_false_iff in H2. congruence.
Qed.

Ltac in_events :=
  repeat match goal with
         | H : In _ (_ ++ _) |- _ => apply in_app_or in H; destruct H as [H|H]
         | H : In _ (_ :: _) |- _ => destruct H as [H|H]
         | H : In _ [] |- _ => destruct H
         | H : Called _ _ = Called _ _ |- _ => inversion H; clear H; subst
         | H : Budget _ = Called _ _ |- _ => discriminate H
         | H : Called _ _ = Budget _ |- _ => discriminate H
         end.

(** What the events of a run tell of faults. *)
Lemma shape_raise_last (reading : Q -> Prop) (out : outcome Outline) (evs : list Event) :
  attempt_shape reading [] out evs ->
  forall s e, In (Called s (Raise e)) evs ->
    out = Raise e
    /\ exists before, evs = before ++ [Called s (Raise e)]
                      /\ forall s' e', ~ In (Called s' (Raise e')) before.
Proof.
  intros Hshape.
  inversion Hshape as
      [e Ho He | r o A Ho He | r t e A R G Ho He | r t r2 o A R G A2 Ho He
       | r t r2 t' res3 out' A R G A2 R' G' Hres Ho He | r t r2 t' A R G A2 R' G' Ho He
       | r t t' res3 out' A R G R' G' Hres Ho He | r t t' A R G R' G' Ho He];
    subst; cbn [app] in *; intros s e' Hin; in_events;
    try (cbv beta iota in Hres; subst out).
  - split; [reflexivity|]. exists []. split; [reflexivity|]. intros s' e'' Hin. destruct Hin.
  - split; [reflexivity|].
    exists [Called MetadataStrategy (Ret r); Budget t]. split; [reflexivity|].
    intros s' e'' Hin. in_events.
  - split; [reflexivity|].
    exists [Called MetadataStrategy (Ret r); Budget t; Called LayoutStrategy (Ret r2);
            Budget t'].
    split; [reflexivity|]. intros s' e'' Hin. in_events.
  - split; [reflexivity|].
    exists [Called MetadataStrategy (Ret r); Budget t; Budget t'].
    split; [reflexivity|]. intros s' e'' Hin. in_events.
Qed.

Lemma shape_raise_has (reading : Q -> Prop) (e : exn) (evs : list Event) :
  attempt_shape reading [] (Raise e) evs -> exists s, In (Called s (Raise e)) evs.
Proof.
  intros Hshape.
  inversion Hshape as
      [e0 Ho He | r o A Ho He | r t e0 A R G Ho He | r t r2 o A R G A2 Ho He
       | r t r2 t' res3 out' A R G A2 R' G' Hres Ho He | r t r2 t' A R G A2 R' G' Ho He
       | r t t' res3 out' A R G R' G' Hres Ho He | r t t' A R G R' G' Ho He];
    subst; cbn [app] in *.
  - exists MetadataStrategy. left. reflexivity.
  - exists LayoutStrategy. simpl. auto.
  - destruct res3 as [r3|e1]; [discriminate Hres|]. inversion Hres; subst.
    exists PatternStrategy. simpl. auto 10.
  - destruct res3 as [r3|e1]; [discriminate Hres|]. inversion Hres; subst.
    exists PatternStrategy. simpl. auto 10.
Qed.

Lemma shape_ret_not_error (reading : Q -> Prop) (o : Outline) (evs : list Event) :
  attempt_shape reading [] (Ret o) evs -> o <> error_outline.
Proof.
  intros Hshape.
  inversion Hshape as
      [e0 Ho He | r o0 A Ho He | r t e0 A R G Ho He | r t r2 o0 A R G A2 Ho He
       | r t r2 t' res3 out' A R G A2 R' G' Hres Ho He | r t r2 t' A R G A2 R' G' Ho He
       | r t t' res3 out' A R G R' G' Hres Ho He | r t t' A R G R' G' Ho He];
    subst; cbn [app] in *;
    try (apply accepted_is_not_error in A; tauto);
    try (apply accepted_is_not_error in A2; tauto);
    try (intros H; exact (sentinel_is_not_error H)).
  - destruct res3 as [r3|e1]; [|discriminate Hres]. inversion Hres; subst.
    destruct (accepted r3) as [o3|] eqn:A3;
      [apply accepted_is_not_error in A3; tauto | intros H; exact (sentinel_is_not_error H)].
  - destruct res3 as [r3|e1]; [|discriminate Hres]. inversion Hres; subst.
    destruct (accepted r3) as [o3|] eqn:A3;
      [apply accepted_is_not_error in A3; tauto | intros H; exact (sentinel_is_not_error H)].
Qed.



Ltac gate_contra :=
  match goal with
  | G : Qgtb ?t ?b = true, H : (?t <= ?b)%Q |- _ => exact (Qgtb_le_false G H)
  end.




(* ================================================================== *)
(** ** Strings: equality, order, stripping *)

Lemma str_eqb_eq (a b : pystr) : str_eqb a b = true <-> a = b.
Proof.
  revert b. induction a as [|x a IH]; intros [|y b]; simpl; split; intros H;
    try reflexivity; try discriminate.
  - apply andb_true_iff in H. destruct H as [H1 H2].
    apply Ascii.eqb_eq in H1. apply IH in H2. subst. reflexivity.
  - inversion H; subst. rewrite Ascii.eqb_refl. simpl. apply IH. reflexivity.
Qed.

Lemma str_mem_In (x : pystr) (seen : list pystr) : str_mem x seen = true <-> In x seen.
Proof.
  unfold str_mem. rewrite existsb_exists. split.
  - intros [y [Hy E]]. apply str_eqb_eq in E. subst. exact Hy.
  - intros H. exists x. split; [exact H | apply str_eqb_eq; reflexivity].
Qed.

Lemma str_mem_not_In (x : pystr) (seen : list pystr) : str_mem x seen = false <-> ~ In x seen.
Proof.
  rewrite <- str_mem_In. destruct (str_mem x seen); split; intros; congruence.
Qed.

Lemma str_ltb_asym (a b : pystr) : str_ltb a b = true -> str_ltb b a = false.
Proof.
  revert b. induction a as [|x a IH]; intros [|y b]; simpl; intros H;
    try reflexivity; try discriminate.
  destruct (code x <? code y)%N eqn:E1.
  - apply N.ltb_lt in E1.
    destruct (code y <? code x)%N eqn:E2; [apply N.ltb_lt in E2; lia | reflexivity].
  - destruct (code y <? code x)%N eqn:E2; [discriminate | apply IH; exact H].
Qed.

Lemma str_leb_total (a b : pystr) : str_leb a b = false -> str_leb b a = true.
Proof.
  unfold str_leb. rewrite negb_false_iff, negb_true_iff. apply str_ltb_asym.
Qed.

Lemma heading_key_leb_total (a b : Entry) :
  heading_key_leb a b = false -> heading_key_leb b a = true.
Proof.
  unfold heading_key_leb. intros H.
  apply orb_false_iff in H. destruct H as [H1 H2].
  apply Z.ltb_ge in H1.
  destruct (page b <? page a)%Z eqn:E; [reflexivity|]. apply Z.ltb_ge in E.
  assert (Heq : page a = page b) by lia.
  rewrite Heq, Z.eqb_refl in *. simpl in *.
  apply str_leb_total. exact H2.
Qed.

Lemma str_leb_trans (a : pystr) :
  forall b c, str_leb a b = true -> str_leb b c = true -> str_leb a c = true.
Proof.
  unfold str_leb. induction a as [|x a IH]; intros b c H1 H2.
  - destruct c; reflexivity.
  - rewrite negb_true_iff in *.
    destruct c as [|z c]; destruct b as [|y b]; cbn [str_ltb] in *; try discriminate;
      try reflexivity.
    destruct (code y <? code x)%N eqn:Eyx; [discriminate|].
    destruct (code z <? code y)%N eqn:Ezy; [discriminate|].
    apply N.ltb_ge in Eyx, Ezy.
    destruct (code x <? code y)%N eqn:Exy.
    + apply N.ltb_lt in Exy.
      destruct (code z <? code x)%N eqn:Ezx; [apply N.ltb_lt in Ezx; lia|].
      destruct (code x <? code z)%N eqn:Exz; [reflexivity|].
      apply N.ltb_ge in Ezx, Exz. lia.
    + destruct (code y <? code z)%N eqn:Eyz.
      * apply N.ltb_lt in Eyz. apply N.ltb_ge in Exy.
        destruct (code z <? code x)%N eqn:Ezx; [apply N.ltb_lt in Ezx; lia|].
        destruct (code x <? code z)%N eqn:Exz; [reflexivity|].
        apply N.ltb_ge in Ezx, Exz. lia.
      * apply N.ltb_ge in Exy, Eyz.
        destruct (code z <? code x)%N eqn:Ezx; [apply N.ltb_lt in Ezx; lia|].
        destruct (code x <? code z)%N eqn:Exz; [reflexivity|].
        rewrite <- negb_true_iff. apply (IH b c); rewrite negb_true_iff; assumption.
Qed.

Lemma heading_key_leb_trans (a b c : Entry) :
  heading_key_leb a b = true -> heading_key_leb b c = true -> heading_key_leb a c = true.
Proof.
  unfold heading_key_leb. intros H1 H2.
  apply orb_true_iff in H1, H2. apply orb_true_iff.
  destruct H1 as [H1|H1]; destruct H2 as [H2|H2];
    repeat match goal with
           | H : (_ <? _)%Z = true |- _ => apply Z.ltb_lt in H
           | H : _ && _ = true |- _ => apply andb_true_iff in H; destruct H
           | H : (_ =? _)%Z = true |- _ => apply Z.eqb_eq in H
           end.
  - left. apply Z.ltb_lt. lia.
  - left. apply Z.ltb_lt. lia.
  - left. apply Z.ltb_lt. lia.
  - right. apply andb_true_iff. split; [apply Z.eqb_eq; lia|].
    eapply str_leb_trans; eassumption.
Qed.

(** Whitespace runs. *)
Lemma has_ws_run_cons (a : ascii) (s : pystr) :
  has_ws_run (a :: s) = (isspace a && first_sat isspace s) || has_ws_run s.
Proof. destruct s; simpl; [rewrite andb_false_r|]; reflexivity. Qed.

Lemma has_ws_run_app (s1 s2 : pystr) :
  has_ws_run (s1 ++ s2) = false -> has_ws_run s1 = false /\ has_ws_run s2 = false.
Proof.
  induction s1 as [|a s1 IH]; [simpl; auto|].
  rewrite <- app_comm_cons, !has_ws_run_cons. intros H.
  apply orb_false_iff in H. destruct H as [H1 H2].
  destruct (IH H2) as [H3 H4]. split; [|exact H4].
  rewrite H3, orb_false_r.
  destruct s1; simpl in *; [apply andb_false_r | exact H1].
Qed.

Lemma collapse_from_true_first (s : pystr) :
  first_sat isspace (collapse_from true s) = false.
Proof.
  induction s as [|a s IH]; simpl; [reflexivity|].
  destruct (isspace a) eqn:E; [exact IH | simpl; exact E].
Qed.

Lemma collapse_no_run (b : bool) (s : pystr) : has_ws_run (collapse_from b s) = false.
Proof.
  revert b. induction s as [|a s IH]; intros b; [reflexivity|].
  cbn [collapse_from]. destruct (isspace a) eqn:E.
  - destruct b; [apply IH|].
    rewrite has_ws_run_cons, collapse_from_true_first, andb_false_r. apply IH.
  - rewrite has_ws_run_cons, E. apply IH.
Qed.

Section Stripped.
Variable p : ascii -> bool.

Lemma lstrip_first (s : pystr) : first_sat p (lstrip p s) = false.
Proof.
  destruct (lstrip p s) as [|a t] eqn:E; [reflexivity|].
  simpl. exact (lstrip_head _ _ E).
Qed.

Lemma rstrip_last_sat (s : pystr) : last_sat p (rstrip p s) = false.
Proof.
  unfold last_sat, rstrip. rewrite rev_involutive. apply lstrip_first.
Qed.

Lemma rstrip_first (s : pystr) : first_sat p s = false -> first_sat p (rstrip p s) = false.
Proof.
  destruct (rstrip_prefix p s) as [post [H _]]. intros Hs.
  destruct (rstrip p s) as [|a t]; [reflexivity|].
  rewrite H in Hs. exact Hs.
Qed.

(** After stripping at both ends neither end satisfies [p]. *)
Lemma strip_both_ends (s : pystr) :
  first_sat p (rstrip p (lstrip p s)) = false /\
  last_sat p (rstrip p (lstrip p s)) = false.
Proof.
  split; [apply rstrip_first, lstrip_first | apply rstrip_last_sat].
Qed.

Lemma strip_no_run (s : pystr) :
  has_ws_run s = false -> has_ws_run (rstrip p (lstrip p s)) = false.
Proof.
  intros H.
  destruct (lstrip_suffix p s) as [pre [H1 _]].
  destruct (rstrip_prefix p (lstrip p s)) as [post [H2 _]].
  rewrite H1 in H. apply has_ws_run_app in H. destruct H as [_ H].
  rewrite H2 in H. apply has_ws_run_app in H. tauto.
Qed.
End Stripped.

Lemma cleaned_normalized (chars : pystr) (raw : pystr) :
  (forall c, mem_char c punctuation = true -> mem_char c chars = true) ->
  normalized (strip_chars chars (collapse_ws raw)) = true.
Proof.
  intros Hsub. unfold normalized, strip_chars.
  set (p := fun c => mem_char c chars).
  destruct (strip_both_ends p (collapse_ws raw)) as [H1 H2].
  rewrite (@strip_no_run p (collapse_ws raw) (collapse_no_run false raw)). cbn [negb andb].
  set (t := rstrip p (lstrip p (collapse_ws raw))) in *.
  assert (F : first_in punctuation t = false).
  { unfold first_in. destruct t as [|a t']; [reflexivity|]. cbn [first_sat] in *.
    destruct (mem_char a punctuation) eqn:E; [|reflexivity].
    apply Hsub in E. unfold p in H1. congruence. }
  assert (L : last_in punctuation t = false).
  { unfold last_in, last_sat in *. destruct (rev t) as [|a t']; [reflexivity|]. cbn [first_sat] in *.
    destruct (mem_char a punctuation) eqn:E; [|reflexivity].
    apply Hsub in E. unfold p in H2. congruence. }
  rewrite F, L. reflexivity.
Qed.

Lemma toc_clean_normalized (raw : pystr) : normalized (toc_clean raw) = true.
Proof.
  unfold toc_clean. rewrite re_sub_spaces. apply cleaned_normalized.
  intros c H. unfold mem_char in *. simpl in *.
  destruct (Ascii.eqb c " "); [reflexivity | exact H].
Qed.

Lemma heading_clean_normalized (raw : pystr) : normalized (heading_clean raw) = true.
Proof.
  unfold heading_clean. rewrite re_sub_spaces. apply cleaned_normalized. auto.
Qed.

(* ================================================================== *)
(** ** The cleanup pass *)

(** Every entry [_clean_headings] keeps is the first entry of its input with
    that cleaned text; its text is not in [seen] and has three characters
    or more. *)
Lemma clean_loop_kept (hs : list Entry) :
  forall seen e, In e (clean_loop hs seen) ->
    ~ In (text e) seen /\ 3 <= length (text e) /\
    exists l1 h l2,
      hs = l1 ++ h :: l2 /\ e = set_text h (heading_clean (text h)) /\
      forall h', In h' l1 -> heading_clean (text h') <> text e.
Proof.
  induction hs as [|h hs IH]; intros seen e Hin; [destruct Hin|].
  cbn [clean_loop] in Hin.
  set (t := heading_clean (text h)) in *.
  destruct (negb (length t =? 0) && negb (str_mem t seen) && (3 <=? length t)) eqn:C.
  - apply andb_true_iff in C. destruct C as [C C3].
    apply andb_true_iff in C. destruct C as [_ C2].
    apply negb_true_iff, str_mem_not_In in C2. apply Nat.leb_le in C3.
    destruct Hin as [<-|Hin].
    + cbn [set_text text]. split; [exact C2|]. split; [exact C3|].
      exists [], h, hs. split; [reflexivity|]. split; [reflexivity|].
      intros h' [].
    + destruct (IH _ _ Hin) as [N [L [l1 [h0 [l2 [E1 [E2 E3]]]]]]].
      split; [intros H; apply N; right; exact H|]. split; [exact L|].
      exists (h :: l1), h0, l2. split; [rewrite E1; reflexivity|].
      split; [exact E2|].
      intros h' [<-|Hh']; [|apply E3; exact Hh'].
      fold t. intros Heq. apply N. left. exact Heq.
  - destruct (IH _ _ Hin) as [N [L [l1 [h0 [l2 [E1 [E2 E3]]]]]]].
    split; [exact N|]. split; [exact L|].
    exists (h :: l1), h0, l2. split; [rewrite E1; reflexivity|].
    split; [exact E2|].
    intros h' [<-|Hh']; [|apply E3; exact Hh'].
    fold t. intros Heq.
    apply andb_false_iff in C. destruct C as [C|C].
    + apply andb_false_iff in C. destruct C as [C|C].
      * apply negb_false_iff, Nat.eqb_eq in C. rewrite Heq in C. lia.
      * apply negb_false_iff, str_mem_In in C. rewrite Heq in C. contradiction.
    + apply Nat.leb_gt in C. rewrite Heq in C. lia.
Qed.

Lemma clean_loop_NoDup (hs : list Entry) :
  forall seen, NoDup (map text (clean_loop hs seen)).
Proof.
  induction hs as [|h hs IH]; intros seen; [constructor|].
  cbn [clean_loop].
  destruct (negb (length (heading_clean (text h)) =? 0)
            && negb (str_mem (heading_clean (text h)) seen)
            && (3 <=? length (heading_clean (text h)))); [|apply IH].
  cbn [map set_text text]. constructor; [|apply IH].
  intros Hin. apply in_map_iff in Hin. destruct Hin as [e [He Hin]].
  apply clean_loop_kept in Hin. destruct Hin as [N _].
  apply N. left. symmetry. exact He.
Qed.

Lemma clean_loop_normalized (hs : list Entry) (seen : list pystr) (e : Entry) :
  In e (clean_loop hs seen) -> normalized (text e) = true.
Proof.
  intros Hin. apply clean_loop_kept in Hin.
  destruct Hin as [_ [_ [l1 [h [l2 [_ [-> _]]]]]]].
  cbn [set_text text]. apply heading_clean_normalized.
Qed.

(* ================================================================== *)
(** ** Sorting *)

Section SortFacts.
Variable A : Type.
Variable leb : A -> A -> bool.
Hypothesis leb_total : forall a b, leb a b = false -> leb b a = true.

Lemma insert_perm (x : A) (l : list A) : Permutation (x :: l) (insert leb x l).
Proof.
  induction l as [|y l IH]; simpl; [apply Permutation_refl|].
  destruct (leb x y); [apply Permutation_refl|].
  apply perm_trans with (y :: x :: l); [apply perm_swap|].
  apply perm_skip. exact IH.
Qed.

Lemma sort_perm (l : list A) : Permutation l (sort leb l).
Proof.
  induction l as [|x l IH]; simpl; [apply perm_nil|].
  apply perm_trans with (x :: sort leb l); [apply perm_skip; exact IH|].
  apply insert_perm.
Qed.

Lemma insert_sorted (x : A) (l : list A) : Sorted (key_le leb) l -> Sorted (key_le leb) (insert leb x l).
Proof.
  induction l as [|y l IH]; intros Hs; simpl.
  - constructor; constructor.
  - destruct (leb x y) eqn:E.
    + constructor; [exact Hs|]. constructor. exact E.
    + inversion Hs as [|? ? Hs' Hd]; subst.
      constructor; [apply IH; exact Hs'|].
      destruct l as [|z l]; simpl.
      * constructor. apply leb_total. exact E.
      * destruct (leb x z); constructor.
        -- apply leb_total. exact E.
        -- inversion Hd; assumption.
Qed.

Lemma sort_sorted (l : list A) : Sorted (key_le leb) (sort leb l).
Proof.
  induction l as [|x l IH]; simpl; [constructor|].
  apply insert_sorted. exact IH.
Qed.
End SortFacts.

(* ================================================================== *)
(** ** The loops of LayoutStrategy *)

Section LayoutFacts.
Variable clock : nat -> Q.
Variable mode : list Q -> option Q.
Variable self : Extractor.

Lemma scan_pages_returns (pages : list Page) :
  forall page_num all_blocks n,
  exists blocks n', scan_pages clock self pages page_num all_blocks n = (Ret blocks, n').
Proof.
  induction pages as [|p pages IH]; intros page_num acc n; cbn [scan_pages].
  - unfold ret. eauto.
  - unfold bind. destruct (_time_left_value clock self n) as [n1 E]. rewrite E.
    destruct (Qltb (remaining_at clock self n) 0.5); [unfold ret; eauto | apply IH].
Qed.

Lemma candidate_cases (body : Q) (b : TextBlock) :
  let t := strip (b_text b) in
  candidate body b =
  if (length t <? 3) || (150 <? length t) || _is_artifact t then []
  else match _heading_level b body with
       | Some lvl => [mkEntry lvl t (b_page b)]
       | None => []
       end.
Proof. reflexivity. Qed.

(** The loop accepts the candidates of the blocks it gets to, first
    occurrence of a text first; it gets to all of them unless the time left
    falls under 0.2. *)
Lemma headings_loop_spec (body : Q) (blocks : list TextBlock) :
  forall headings seen n,
  exists k n',
    k <= length blocks /\
    headings_loop clock self blocks body headings seen n =
    (Ret (headings ++ dedup_first seen (flat_map (candidate body) (firstn k blocks))), n') /\
    ((forall m, Qltb (remaining_at clock self m) 0.2 = false) -> k = length blocks).
Proof.
  induction blocks as [|b blocks IH]; intros headings seen n.
  - exists 0, n. split; [simpl; lia|]. split; [|reflexivity].
    cbn. unfold ret. rewrite app_nil_r. reflexivity.
  - cbn [headings_loop]. pose proof (candidate_cases body b) as Hc. cbv zeta in Hc.
    set (t := strip (b_text b)) in *.
    rewrite <- !orb_assoc.
    destruct (str_mem t seen) eqn:S1; cbn [orb].
    { destruct (IH headings seen n) as [k [n' [Hk [E Hall]]]].
      exists (S k), n'. split; [simpl; lia|]. split; [|intros H; rewrite (Hall H); reflexivity].
      rewrite E. cbn [firstn flat_map]. rewrite Hc.
      destruct ((length t <? 3) || (150 <? length t) || _is_artifact t); [reflexivity|].
      destruct (_heading_level b body); [|reflexivity].
      cbn [app dedup_first text]. rewrite S1. reflexivity. }
    rewrite orb_assoc.
    destruct ((length t <? 3) || (150 <? length t) || _is_artifact t) eqn:F.
    { destruct (IH headings seen n) as [k [n' [Hk [E Hall]]]].
      exists (S k), n'. split; [simpl; lia|]. split; [|intros H; rewrite (Hall H); reflexivity].
      rewrite E. cbn [firstn flat_map]. rewrite Hc. reflexivity. }
    unfold bind. destruct (_time_left_value clock self n) as [n1 E1].
    destruct (_heading_level b body) as [lvl|] eqn:L; cbv beta iota zeta; rewrite E1.
    + destruct (Qltb (remaining_at clock self n) 0.2) eqn:T.
      * exists 1, n1. split; [simpl; lia|]. split.
        -- cbn [firstn flat_map]. rewrite Hc.
           cbn [app dedup_first text]. rewrite S1. reflexivity.
        -- intros H. rewrite H in T. discriminate.
      * destruct (IH (headings ++ [mkEntry lvl t (b_page b)]) (t :: seen) n1)
          as [k [n' [Hk [E Hall]]]].
        exists (S k), n'. split; [simpl; lia|].
        split; [|intros H; rewrite (Hall H); reflexivity].
        rewrite E. cbn [firstn flat_map]. rewrite Hc.
        cbn [app dedup_first text]. rewrite S1, <- app_assoc. reflexivity.
    + destruct (Qltb (remaining_at clock self n) 0.2) eqn:T.
      * exists 1, n1. split; [simpl; lia|]. split.
        -- cbn [firstn flat_map]. rewrite Hc. cbn [app dedup_first].
           rewrite app_nil_r. reflexivity.
        -- intros H. rewrite H in T. discriminate.
      * destruct (IH headings seen n1) as [k [n' [Hk [E Hall]]]].
        exists (S k), n'. split; [simpl; lia|].
        split; [|intros H; rewrite (Hall H); reflexivity].
        rewrite E. cbn [firstn flat_map]. rewrite Hc. reflexivity.
Qed.
End LayoutFacts.

Lemma dedup_first_kept (es : list Entry) :
  forall seen e, In e (dedup_first seen es) ->
    ~ In (text e) seen /\
    exists l1 l2, es = l1 ++ e :: l2 /\ forall e', In e' l1 -> text e' <> text e.
Proof.
  induction es as [|x es IH]; intros seen e Hin; [destruct Hin|].
  cbn [dedup_first] in Hin. destruct (str_mem (text x) seen) eqn:S1.
  - destruct (IH _ _ Hin) as [N [l1 [l2 [E1 E2]]]]. split; [exact N|].
    exists (x :: l1), l2. split; [rewrite E1; reflexivity|].
    intros e' [<-|He']; [|apply E2; exact He'].
    intros Heq. apply str_mem_In in S1. rewrite Heq in S1. contradiction.
  - apply str_mem_not_In in S1. destruct Hin as [<-|Hin].
    + split; [exact S1|]. exists [], es. split; [reflexivity|]. intros e' [].
    + destruct (IH _ _ Hin) as [N [l1 [l2 [E1 E2]]]].
      split; [intros H; apply N; right; exact H|].
      exists (x :: l1), l2. split; [rewrite E1; reflexivity|].
      intros e' [<-|He']; [|apply E2; exact He'].
      intros Heq. apply N. left. exact Heq.
Qed.

Lemma dedup_first_NoDup (es : list Entry) :
  forall seen, NoDup (map text (dedup_first seen es)).
Proof.
  induction es as [|x es IH]; intros seen; [constructor|].
  cbn [dedup_first]. destruct (str_mem (text x) seen); [apply IH|].
  cbn [map]. constructor; [|apply IH].
  intros Hin. apply in_map_iff in Hin. destruct Hin as [e [He Hin]].
  apply dedup_first_kept in Hin. destruct Hin as [N _].
  apply N. left. symmetry. exact He.
Qed.

(** No text of a candidate is lost by the deduplication. *)
Lemma dedup_first_complete (es : list Entry) :
  forall seen e, In e es -> ~ In (text e) seen ->
                 In (text e) (map text (dedup_first seen es)).
Proof.
  induction es as [|x es IH]; intros seen e Hin N; [destruct Hin|].
  cbn [dedup_first]. destruct (str_mem (text x) seen) eqn:S1.
  - destruct Hin as [<-|Hin]; [apply str_mem_In in S1; contradiction|].
    apply IH; assumption.
  - cbn [map]. destruct Hin as [<-|Hin]; [left; reflexivity|].
    destruct (str_eqb (text e) (text x)) eqn:Q.
    + apply str_eqb_eq in Q. left. symmetry. exact Q.
    + right. apply IH; [exact Hin|].
      intros [H|H]; [|contradiction].
      rewrite H in Q. assert (T : str_eqb (text e) (text e) = true)
        by (apply str_eqb_eq; reflexivity). congruence.
Qed.

Section LayoutResult.
Variable clock : nat -> Q.
Variable mode : list Q -> option Q.
Variable self : Extractor.

Lemma multilayer_result (blocks : list TextBlock) (body : Q) (n : nat) :
  exists k n',
    k <= length blocks /\
    _extract_headings_multilayer clock self blocks body n =
    (Ret (_clean_headings (sort heading_key_leb (accepted_headings body (firstn k blocks)))), n')
    /\ ((forall m, Qltb (remaining_at clock self m) 0.2 = false) -> k = length blocks).
Proof.
  unfold _extract_headings_multilayer, bind.
  destruct (headings_loop_spec clock self body blocks [] [] n) as [k [n' [Hk [E Hall]]]].
  exists k, n'. split; [exact Hk|]. split; [|exact Hall].
  rewrite E. reflexivity.
Qed.

(** LayoutStrategy always returns an outline, built from the blocks it
    collected. *)
Lemma pymupdf_result (doc : Document) (n : nat) :
  exists blocks n1 k n',
    scan_pages clock self (firstn 50 (doc_pages doc)) 0 [] n = (Ret blocks, n1) /\
    k <= length blocks /\
    _extract_with_pymupdf clock mode self doc n =
    (Ret (Some (mkOutline
                  (_extract_title blocks (body_font_of mode blocks))
                  (_clean_headings
                     (sort heading_key_leb
                           (accepted_headings (body_font_of mode blocks) (firstn k blocks)))))),
     n').
Proof.
  unfold _extract_with_pymupdf, bind.
  destruct (scan_pages_returns clock self (firstn 50 (doc_pages doc)) 0 [] n)
    as [blocks [n1 E]].
  rewrite E.
  destruct (multilayer_result blocks (body_font_of mode blocks) n1) as [k [n' [Hk [E2 _]]]].
  rewrite E2. exists blocks, n1, k, n'. repeat split; auto.
Qed.

Lemma scan_pages_no_fragments (pages : list Page) :
  (forall i p, In p pages -> page_spans i p = []) ->
  forall page_num all_blocks n,
  exists n', scan_pages clock self pages page_num all_blocks n = (Ret all_blocks, n').
Proof.
  induction pages as [|p pages IH]; intros Hnone page_num acc n; cbn [scan_pages].
  - unfold ret. eauto.
  - unfold bind. destruct (_time_left_value clock self n) as [n1 E]. rewrite E.
    rewrite (Hnone page_num p (in_eq _ _)), app_nil_r.
    destruct (Qltb (remaining_at clock self n) 0.5); [unfold ret; eauto|].
    apply IH. intros i q Hq. apply Hnone. right. exact Hq.
Qed.
End LayoutResult.

(* ================================================================== *)
(** ** Properties of the outlines *)

(** A pass returns the entries of its matches, unless the page number of
    one of them is too long for [int]. *)
Lemma int_cases (s : pystr) :
  (length s <= int_max_str_digits /\ int s = Ret (int_of_digits s))
  \/ (int_max_str_digits < length s /\ exists e, int s = Raise e).
Proof.
  unfold int. destruct (int_max_str_digits <? length s) eqn:E.
  - apply Nat.ltb_lt in E. right. split; [exact E|]. eexists. reflexivity.
  - apply Nat.ltb_ge in E. left. split; [exact E | reflexivity].
Qed.

Lemma pattern_pass_cases (entry_of : Match -> Entry) (ms : list Match) :
  (pattern_pass entry_of ms = Ret (map entry_of ms)
   /\ forall m, In m ms -> ~ too_long m)
  \/ (exists e m, pattern_pass entry_of ms = Raise e /\ In m ms /\ too_long m).
Proof.
  induction ms as [|m ms IH]; [left; split; [reflexivity | intros m []]|].
  cbn [pattern_pass map].
  destruct (int_cases (group 1 (m_caps m))) as [[Hle E]|[Hgt [e E]]]; rewrite E.
  - destruct IH as [[IH Hall]|[e [m' [IH [Hin Hm']]]]]; rewrite IH.
    + left. split; [reflexivity|].
      intros m' [<-|Hin]; [unfold too_long; lia | apply Hall; exact Hin].
    + right. exists e, m'. split; [reflexivity|]. split; [right; exact Hin | exact Hm'].
  - right. exists e, m. split; [reflexivity|]. split; [left; reflexivity | exact Hgt].
Qed.

(** PatternStrategy returns [regex_outline] of the text, unless a page
    number is too long for [int]; it never returns [None]. *)
Lemma regex_fallback_cases (doc : Document) :
  (_extract_with_regex_fallback doc = Ret (Some (regex_outline (all_text_of doc)))
   /\ forall m, In m (pass_matches (all_text_of doc)) -> ~ too_long m)
  \/ (exists e m,
        _extract_with_regex_fallback doc = Raise e
        /\ In m (pass_matches (all_text_of doc)) /\ too_long m).
Proof.
  unfold _extract_with_regex_fallback, pass_matches. cbv zeta.
  destruct (pattern_pass_cases numbered_entry
              (re_finditer re_numbered_heading (all_text_of doc)))
    as [[E1 H1]|[e [m [E1 [Hin Hm]]]]]; rewrite E1.
  - destruct (pattern_pass_cases chapter_entry
                (re_finditer re_chapter_heading (all_text_of doc)))
      as [[E2 H2]|[e [m [E2 [Hin Hm]]]]]; rewrite E2.
    + left. split; [reflexivity|].
      intros m Hin. apply in_app_or in Hin. destruct Hin as [Hin|Hin]; auto.
    + right. exists e, m. split; [reflexivity|]. split; [|exact Hm].
      apply in_or_app. right. exact Hin.
  - right. exists e, m. split; [reflexivity|]. split; [|exact Hm].
    apply in_or_app. left. exact Hin.
Qed.

Lemma regex_fallback_returns (doc : Document) (o : Outline) :
  _extract_with_regex_fallback doc = Ret (Some o) -> o = regex_outline (all_text_of doc).
Proof.
  intros H. destruct (regex_fallback_cases doc) as [[E _]|[e [m [E _]]]];
    rewrite E in H; [inversion H; reflexivity | discriminate H].
Qed.







Lemma sorted_by_key (l : list Entry) :
  StronglySorted heading_key_le (sort heading_key_leb l).
Proof.
  apply Sorted_StronglySorted.
  - intros x y z. apply heading_key_leb_trans.
  - apply sort_sorted. exact heading_key_leb_total.
Qed.

(** The cleanup pass as one expression: every text is cleaned, the entries
    whose cleaned text has fewer than three characters are dropped, and of
    the entries with the same cleaned text the first one stays. *)
Lemma clean_loop_spec (hs : list Entry) :
  forall seen,
    clean_loop hs seen
    = dedup_first seen (filter (fun e => 3 <=? length (text e)) (map cleaned_entry hs)).
Proof.
  induction hs as [|h hs IH]; intros seen; [reflexivity|].
  cbn [clean_loop map filter]. unfold cleaned_entry at 1. cbn [set_text text].
  set (t := heading_clean (text h)).
  destruct (3 <=? length t) eqn:L3.
  - cbn [dedup_first]. unfold cleaned_entry at 1. cbn [set_text text]. fold t.
    assert (L0 : (length t =? 0) = false).
    { apply Nat.leb_le in L3. apply Nat.eqb_neq. lia. }
    rewrite L0. cbn [negb andb]. rewrite andb_true_r.
    destruct (str_mem t seen); cbn [negb]; [apply IH|].
    unfold cleaned_entry at 1. fold t. rewrite IH. reflexivity.
  - rewrite andb_false_r. apply IH.
Qed.


(* ================================================================== *)
(** ** Body font size *)

Lemma argmax_exists {A : Type} (f : A -> nat) (l : list A) :
  l <> [] -> exists x, In x l /\ forall y, In y l -> f y <= f x.
Proof.
  induction l as [|a l IH]; [congruence|]. intros _.
  destruct l as [|b l].
  - exists a. split; [left; reflexivity|]. intros y [<-|[]]. lia.
  - destruct IH as [x [Hx Hmax]]; [discriminate|].
    destruct (le_lt_dec (f a) (f x)) as [Hle|Hlt].
    + exists x. split; [right; exact Hx|].
      intros y [<-|Hy]; [exact Hle | apply Hmax; exact Hy].
    + exists a. split; [left; reflexivity|].
      intros y [<-|Hy]; [lia|]. specialize (Hmax y Hy). lia.
Qed.

Lemma find_first {A : Type} (p : A -> bool) (l : list A) (x : A) :
  find p l = Some x ->
  exists l1 l2, l = l1 ++ x :: l2 /\ p x = true /\ forall y, In y l1 -> p y = false.
Proof.
  induction l as [|a l IH]; [discriminate|]. simpl.
  destruct (p a) eqn:E.
  - intros H. inversion H; subst. exists [], l. repeat split; [exact E|]. intros y [].
  - intros H. destruct (IH H) as [l1 [l2 [H1 [H2 H3]]]].
    exists (a :: l1), l2. split; [rewrite H1; reflexivity|]. split; [exact H2|].
    intros y [<-|Hy]; [exact E | apply H3; exact Hy].
Qed.

Lemma most_frequent_spec (data : list Q) (x : Q) :
  most_frequent data x = true <-> forall y, In y data -> count_q y data <= count_q x data.
Proof.
  unfold most_frequent. rewrite forallb_forall. split; intros H y Hy.
  - apply Nat.leb_le. apply H. exact Hy.
  - apply Nat.leb_le. apply H. exact Hy.
Qed.

Lemma mode_py38_found (data : list Q) :
  data <> [] -> exists m, mode_py38 data = Some m.
Proof.
  intros Hne. unfold mode_py38.
  destruct (find (most_frequent data) data) as [m|] eqn:E; [eauto|].
  destruct (argmax_exists (fun x => count_q x data) Hne) as [x [Hx Hmax]].
  pose proof (find_none _ _ E x Hx) as Hf.
  apply most_frequent_spec in Hmax. congruence.
Qed.

(** C7 (as amended).  Without a fragment of positive size the body font size
    is 12.  Otherwise, with [statistics.mode] as it is since Python 3.8, it
    is a most frequent positive size, and the first such value in the order
    of the fragments when several are equally frequent.  With
    [statistics.mode] as it was before Python 3.8 it is the most frequent
    positive size when that is unique, and 12 when it is not. *)
Theorem body_font_estimation :
  (forall mode blocks, positive_sizes blocks = [] -> body_font_of mode blocks = 12%Q)
  /\ (forall blocks, positive_sizes blocks <> [] ->
        exists l1 l2,
          positive_sizes blocks = l1 ++ body_font_of mode_py38 blocks :: l2
          /\ most_frequent (positive_sizes blocks) (body_font_of mode_py38 blocks) = true
          /\ forall y, In y l1 -> most_frequent (positive_sizes blocks) y = false)
  /\ (forall blocks x,
        In x (positive_sizes blocks) ->
        most_frequent (positive_sizes blocks) x = true ->
        (forall y, In y (positive_sizes blocks) ->
                   most_frequent (positive_sizes blocks) y = true -> (y == x)%Q) ->
        (body_font_of mode_py37 blocks == x)%Q)
  /\ (forall blocks x y,
        In x (positive_sizes blocks) -> In y (positive_sizes blocks) ->
        most_frequent (positive_sizes blocks) x = true ->
        most_frequent (positive_sizes blocks) y = true ->
        ~ (x == y)%Q ->
        body_font_of mode_py37 blocks = 12%Q).
Proof.
  split; [|split; [|split]].
  - intros mode blocks H. unfold body_font_of. fold (positive_sizes blocks).
    rewrite H. reflexivity.
  - intros blocks Hne. unfold body_font_of. fold (positive_sizes blocks).
    destruct (mode_py38_found Hne) as [m Hm].
    destruct (positive_sizes blocks) as [|a l] eqn:E; [congruence|].
    rewrite Hm. unfold mode_py38 in Hm. apply find_first in Hm. exact Hm.
  - intros blocks x Hx Hmf Huniq. unfold body_font_of. fold (positive_sizes blocks).
    destruct (positive_sizes blocks) as [|a l] eqn:E; [destruct Hx|].
    unfold mode_py37.
    destruct (find (most_frequent (a :: l)) (a :: l)) as [m|] eqn:F.
    + pose proof (find_some _ _ F) as [Hm1 Hm2].
      assert (Hall : forallb (fun y => negb (most_frequent (a :: l) y) || Qeq_bool y m)
                             (a :: l) = true).
      { apply forallb_forall. intros y Hy.
        destruct (most_frequent (a :: l) y) eqn:My; [|reflexivity]. cbn [negb orb].
        apply Qeq_bool_iff. rewrite (Huniq y Hy My). symmetry. apply Huniq; assumption. }
      rewrite Hall. apply Huniq; assumption.
    + pose proof (find_none _ _ F x Hx). congruence.
  - intros blocks x y Hx Hy Mx My Hneq. unfold body_font_of. fold (positive_sizes blocks).
    destruct (positive_sizes blocks) as [|a l] eqn:E; [reflexivity|].
    unfold mode_py37.
    destruct (find (most_frequent (a :: l)) (a :: l)) as [m|] eqn:F; [|reflexivity].
    destruct (forallb (fun y0 => negb (most_frequent (a :: l) y0) || Qeq_bool y0 m) (a :: l))
      eqn:Hall; [|reflexivity].
    exfalso. rewrite forallb_forall in Hall.
    pose proof (Hall x Hx) as Ax. pose proof (Hall y Hy) as Ay.
    rewrite Mx in Ax. rewrite My in Ay. cbn [negb orb] in Ax, Ay.
    apply Qeq_bool_iff in Ax, Ay. apply Hneq. rewrite Ax, Ay. reflexivity.
Qed.

(** C7 as stated fails with [statistics.mode] of Python 3.8 and later: the
    sizes 10, 10, 14, 14 have two equally frequent values, and the body font
    size is 10, not 12. *)
Lemma body_font_tie_counterexample :
  let blocks := [fragment "aaa" 0 10; fragment "bbb" 0 10;
                 fragment "ccc" 0 14; fragment "ddd" 0 14] in
  most_frequent (positive_sizes blocks) 10 = true
  /\ most_frequent (positive_sizes blocks) 14 = true
  /\ body_font_of mode_py38 blocks = 10%Q
  /\ ~ (body_font_of mode_py38 blocks == 12)%Q.
Proof.
  cbv zeta. repeat split; try (vm_compute; reflexivity).
  vm_compute. discriminate.
Qed.

(* ================================================================== *)
(** ** The matcher is sound for [Matches] *)

Section Soundness.
Variable inp : pystr.

Lemma star_loop_sound (r : regex) step (g : bool) (mx : option nat) k :
  sound_step inp r step ->
  forall n s c res, star_loop step g k n s c = Some res ->
    exists s1 c1, Matches inp (Star g mx r) s c s1 c1 /\ k s1 c1 = Some res.
Proof.
  intros Hstep. induction n as [|n IH]; intros s c res H.
  - simpl in H. exists s, c. split; [constructor | exact H].
  - cbn [star_loop] in H.
    assert (Hagain : forall res',
               step (fun s' c' => if length s' <? length s
                                  then star_loop step g k n s' c' else None) s c = Some res' ->
               exists s1 c1, Matches inp (Star g mx r) s c s1 c1 /\ k s1 c1 = Some res').
    { intros res' H'. apply Hstep in H'. destruct H' as [s1 [c1 [M1 K1]]].
      destruct (length s1 <? length s) eqn:L; [|discriminate].
      apply Nat.ltb_lt in L. apply IH in K1. destruct K1 as [s2 [c2 [M2 K2]]].
      exists s2, c2. split; [|exact K2].
      eapply M_StarStep; eassumption. }
    destruct g.
    + destruct (step _ s c) as [x|] eqn:E.
      * inversion H; subst. apply Hagain. reflexivity.
      * exists s, c. split; [constructor | exact H].
    + destruct (k s c) as [x|] eqn:E.
      * inversion H; subst. exists s, c. split; [constructor | exact E].
      * apply Hagain. exact H.
Qed.

Lemma rmatch_sound (r : regex) : sound_step inp r (rmatch inp r).
Proof.
  induction r as [|p|r1 IH1 r2 IH2|r1 IH1 r2 IH2|g mx r1 IH1|g r1 IH1| |];
    intros k s c res H; cbn [rmatch] in H.
  - exists s, c. split; [constructor | exact H].
  - destruct s as [|a s]; [discriminate|]. destruct (p a) eqn:E; [|discriminate].
    exists s, c. split; [constructor; exact E | exact H].
  - apply IH1 in H. destruct H as [s1 [c1 [M1 H]]].
    apply IH2 in H. destruct H as [s2 [c2 [M2 H]]].
    exists s2, c2. split; [econstructor; eassumption | exact H].
  - destruct (rmatch inp r1 k s c) as [x|] eqn:E.
    + inversion H; subst. apply IH1 in E. destruct E as [s1 [c1 [M1 K1]]].
      exists s1, c1. split; [apply M_AltL; exact M1 | exact K1].
    + apply IH2 in H. destruct H as [s1 [c1 [M1 K1]]].
      exists s1, c1. split; [apply M_AltR; exact M1 | exact K1].
  - eapply star_loop_sound; eassumption.
  - apply IH1 in H. destruct H as [s1 [c1 [M1 K1]]].
    eexists. eexists. split; [apply M_Group; exact M1 | exact K1].
  - destruct (length s =? length inp) eqn:E; [|discriminate].
    apply Nat.eqb_eq in E. exists s, c. split; [constructor; exact E | exact H].
  - destruct s as [|a [|b s]].
    + exists [], c. split; [constructor; left; reflexivity | exact H].
    + destruct (Ascii.eqb a newline) eqn:E; [|discriminate].
      apply Ascii.eqb_eq in E. subst a.
      exists [newline], c. split; [constructor; right; reflexivity | exact H].
    + discriminate.
Qed.

Lemma match_at_sound (r : regex) (s rest : pystr) (c : captures) :
  match_at inp r s = Some (rest, c) -> Matches inp r s [] rest c.
Proof.
  unfold match_at. intros H. apply rmatch_sound in H.
  destruct H as [s1 [c1 [M1 K1]]]. unfold accept in K1. inversion K1; subst. exact M1.
Qed.
End Soundness.

(* ================================================================== *)
(** ** Reading a match back *)

Section Reading.
Variable inp : pystr.

Lemma matches_suffix r s c s1 c1 :
  Matches inp r s c s1 c1 -> exists pre, s = pre ++ s1.
Proof.
  induction 1 as [s c|p a s c Hp|r1 r2 s c s1 c1 s2 c2 _ IH1 _ IH2
                 |r1 r2 s c s1 c1 _ IH|r1 r2 s c s1 c1 _ IH
                 |g mx r s c|g mx r s c s1 c1 s2 c2 _ IH1 _ _ IH2
                 |g r s c s1 c1 _ IH|s c _|s c _];
    try (exists []; reflexivity).
  - exists [a]. reflexivity.
  - destruct IH1 as [p1 ->]. destruct IH2 as [p2 ->].
    exists (p1 ++ p2). rewrite app_assoc. reflexivity.
  - exact IH.
  - exact IH.
  - destruct IH1 as [p1 ->]. destruct IH2 as [p2 ->].
    exists (p1 ++ p2). rewrite app_assoc. reflexivity.
  - exact IH.
Qed.

Lemma matches_caps r s c s1 c1 :
  Matches inp r s c s1 c1 ->
  exists added, c1 = added ++ c /\ forall g v, In (g, v) added -> In g (groups_of r).
Proof.
  induction 1 as [s c|p a s c Hp|r1 r2 s c s1 c1 s2 c2 _ IH1 _ IH2
                 |r1 r2 s c s1 c1 _ IH|r1 r2 s c s1 c1 _ IH
                 |g mx r s c|g mx r s c s1 c1 s2 c2 _ IH1 _ _ IH2
                 |g r s c s1 c1 _ IH|s c _|s c _];
    try (exists []; split; [reflexivity | intros ? ? []]).
  - destruct IH1 as [a1 [-> H1]]. destruct IH2 as [a2 [-> H2]].
    exists (a2 ++ a1). split; [apply app_assoc|].
    intros g v Hin. cbn [groups_of]. apply in_or_app.
    apply in_app_or in Hin. destruct Hin as [Hin|Hin]; [right; eauto | left; eauto].
  - destruct IH as [a1 [-> H1]]. exists a1. split; [reflexivity|].
    intros g v Hin. cbn [groups_of]. apply in_or_app. left. eauto.
  - destruct IH as [a1 [-> H1]]. exists a1. split; [reflexivity|].
    intros g v Hin. cbn [groups_of]. apply in_or_app. right. eauto.
  - destruct IH1 as [a1 [-> H1]]. destruct IH2 as [a2 [-> H2]].
    exists (a2 ++ a1). split; [apply app_assoc|].
    intros g0 v Hin. cbn [groups_of] in *.
    apply in_app_or in Hin. destruct Hin as [Hin|Hin]; eauto.
  - destruct IH as [a1 [-> H1]].
    exists ((g, firstn (length s - length s1) s) :: a1). split; [reflexivity|].
    intros g0 v [Hin|Hin]; cbn [groups_of].
    + inversion Hin; subst. left. reflexivity.
    + right. eauto.
Qed.

Lemma group_skip (g : nat) (added c : captures) :
  (forall v, ~ In (g, v) added) -> group g (added ++ c) = group g c.
Proof.
  induction added as [|[g' v'] added IH]; intros H; [reflexivity|].
  cbn [app group]. destruct (g =? g') eqn:E.
  - apply Nat.eqb_eq in E. subst. exfalso. apply (H v'). left. reflexivity.
  - apply IH. intros v Hin. apply (H v). right. exact Hin.
Qed.

Lemma matches_cat_list (r : regex) (rs : list regex) s c s2 c2 :
  Matches inp (cat_list (r :: rs)) s c s2 c2 ->
  exists s1 c1, Matches inp r s c s1 c1 /\ Matches inp (cat_list rs) s1 c1 s2 c2.
Proof.
  destruct rs as [|r' rs]; cbn [cat_list]; intros H.
  - exists s2, c2. split; [exact H | constructor].
  - inversion H; subst. eauto.
Qed.

Lemma matches_chr p s c s1 c1 :
  Matches inp (Chr p) s c s1 c1 -> exists a, s = a :: s1 /\ p a = true /\ c1 = c.
Proof. intros H. inversion H; subst. eauto. Qed.

Lemma matches_class_star g mx p s c s1 c1 :
  Matches inp (Star g mx (Chr p)) s c s1 c1 ->
  exists pre, s = pre ++ s1 /\ forallb p pre = true /\ c1 = c.
Proof.
  intros H. remember (Star g mx (Chr p)) as r eqn:Hr.
  induction H as [| | | | | g' mx' r' s c|g' mx' r' s c s1 c1 s2 c2 H1 _ _ H2 IH2| | |];
    try discriminate.
  - exists []. auto.
  - inversion Hr; subst. destruct (IH2 eq_refl) as [pre [-> [Hp ->]]].
    apply matches_chr in H1. destruct H1 as [a [-> [Ha ->]]].
    exists (a :: pre). cbn. rewrite Ha, Hp. auto.
Qed.

Lemma matches_class_plus p s c s1 c1 :
  Matches inp (Plus (Chr p)) s c s1 c1 ->
  exists a pre, s = a :: pre ++ s1 /\ p a = true /\ forallb p pre = true /\ c1 = c.
Proof.
  unfold Plus. intros H. inversion H; subst.
  match goal with
  | H1 : Matches _ (Chr p) _ _ _ _, H2 : Matches _ (Star _ _ _) _ _ _ _ |- _ =>
      apply matches_chr in H1; destruct H1 as [a [-> [Ha ->]]];
      apply matches_class_star in H2; destruct H2 as [pre [-> [Hp ->]]]
  end.
  exists a, pre. auto.
Qed.

(** A literal, each character compared by [q]. *)
Lemma matches_literal (q : ascii -> ascii -> bool) (l : pystr) :
  forall s c s1 c1,
    Matches inp (cat_list (map (fun x => Chr (q x)) l)) s c s1 c1 ->
    exists l', s = l' ++ s1 /\ Forall2 (fun x a => q x a = true) l l' /\ c1 = c.
Proof.
  induction l as [|x l IH]; intros s c s1 c1 H.
  - cbn in H. inversion H; subst. exists []. auto.
  - cbn [map] in H. apply matches_cat_list in H. destruct H as [s' [c' [H1 H2]]].
    apply matches_chr in H1. destruct H1 as [a [-> [Ha ->]]].
    apply IH in H2. destruct H2 as [l' [-> [F ->]]].
    exists (a :: l'). split; [reflexivity|]. split; [constructor; assumption | reflexivity].
Qed.

Lemma matches_Lit (t : string) s c s1 c1 :
  Matches inp (Lit t) s c s1 c1 -> s = str t ++ s1 /\ c1 = c.
Proof.
  unfold Lit, Lit1. intros H.
  apply (matches_literal Ascii.eqb) in H. destruct H as [l' [-> [F ->]]].
  split; [|reflexivity]. f_equal.
  revert F. generalize (str t). intros l F.
  induction F as [|x a l l0 Hxa _ IH]; [reflexivity|].
  apply Ascii.eqb_eq in Hxa. rewrite Hxa, IH. reflexivity.
Qed.

Lemma matches_LitI (t : string) s c s1 c1 :
  Matches inp (LitI t) s c s1 c1 ->
  exists l', s = l' ++ s1 /\ str_lower l' = str_lower (str t) /\ c1 = c.
Proof.
  unfold LitI, LitI1. intros H.
  apply (matches_literal (fun x a => Ascii.eqb (lower a) (lower x))) in H.
  destruct H as [l' [-> [F ->]]].
  exists l'. split; [reflexivity|]. split; [|reflexivity].
  revert F. generalize (str t). intros l F.
  induction F as [|x a l l0 Hxa _ IH]; [reflexivity|].
  apply Ascii.eqb_eq in Hxa. unfold str_lower in *. cbn [map].
  rewrite Hxa, IH. reflexivity.
Qed.

Lemma matches_group g r s c s1 c1 :
  Matches inp (Group g r) s c s1 c1 ->
  exists pre c', s = pre ++ s1 /\ c1 = (g, pre) :: c' /\ Matches inp r s c s1 c'.
Proof.
  intros H. inversion H; subst.
  match goal with
  | H1 : Matches _ r _ _ _ _ |- _ =>
      destruct (matches_suffix H1) as [pre ->]; exists pre; eexists;
        split; [reflexivity|]; split; [|exact H1]
  end.
  rewrite firstn_prefix. reflexivity.
Qed.
End Reading.

Section ReadingPatterns.
Variable inp : pystr.

Lemma matches_class_power p (n : nat) :
  forall s c s1 c1,
    Matches inp (power n (Chr p)) s c s1 c1 ->
    exists pre, s = pre ++ s1 /\ forallb p pre = true /\ length pre = n /\ c1 = c.
Proof.
  induction n as [|n IH]; intros s c s1 c1 H; cbn [power] in H.
  - inversion H; subst. exists []. auto.
  - inversion H; subst.
    match goal with
    | H1 : Matches _ (Chr p) _ _ _ _, H2 : Matches _ (power n _) _ _ _ _ |- _ =>
        apply matches_chr in H1; destruct H1 as [a [-> [Ha ->]]];
        apply IH in H2; destruct H2 as [pre [-> [Hp [Hl ->]]]]
    end.
    exists (a :: pre). cbn. rewrite Ha, Hp, Hl. auto.
Qed.

Lemma matches_class_rep p (lo hi : nat) s c s1 c1 :
  Matches inp (Rep lo hi (Chr p)) s c s1 c1 ->
  exists pre, s = pre ++ s1 /\ forallb p pre = true /\ lo <= length pre /\ c1 = c.
Proof.
  unfold Rep. intros H. inversion H; subst.
  match goal with
  | H1 : Matches _ (power _ _) _ _ _ _, H2 : Matches _ (Star _ _ _) _ _ _ _ |- _ =>
      apply matches_class_power in H1; destruct H1 as [p1 [-> [Hp1 [Hl ->]]]];
      apply matches_class_star in H2; destruct H2 as [p2 [-> [Hp2 ->]]]
  end.
  exists (p1 ++ p2). rewrite app_assoc, forallb_app, Hp1, Hp2, length_app.
  repeat split; auto. lia.
Qed.

(** The shape shared by the two heading patterns. *)
Lemma marker_pattern_read (Mk Cl body : regex) (mark_ok close_ok head_ok : pystr -> Prop) :
  (forall s c s1 c1, Matches inp Mk s c s1 c1 -> exists l, s = l ++ s1 /\ mark_ok l /\ c1 = c) ->
  (forall s c s1 c1, Matches inp Cl s c s1 c1 -> exists l, s = l ++ s1 /\ close_ok l /\ c1 = c) ->
  (forall s c s1 c1 h, Matches inp body s c s1 c1 -> s = h ++ s1 -> head_ok h) ->
  ~ In 1 (groups_of body) -> ~ In 2 (groups_of body) ->
  forall s rest c,
    Matches inp (cat_list [Mk; Group 1 (Plus digit); Cl; ManyLazy dot; Group 2 body])
            s [] rest c ->
    exists mark digits close bridge heading,
      s = mark ++ digits ++ close ++ bridge ++ heading ++ rest
      /\ mark_ok mark /\ close_ok close
      /\ digits <> [] /\ forallb isdigit digits = true
      /\ forallb notnl bridge = true
      /\ head_ok heading
      /\ group 1 c = digits /\ group 2 c = heading.
Proof.
  intros HMk HCl Hbody N1 N2 s rest c H.
  apply matches_cat_list in H. destruct H as [s1 [c1 [H1 H]]].
  apply HMk in H1. destruct H1 as [mark [-> [Hmark ->]]].
  apply matches_cat_list in H. destruct H as [s2 [c2 [H2 H]]].
  apply matches_group in H2. destruct H2 as [digits [c2' [-> [-> H2]]]].
  apply matches_class_plus in H2. destruct H2 as [d [ds [Hd [Hd1 [Hd2 ->]]]]].
  apply matches_cat_list in H. destruct H as [s3 [c3 [H3 H]]].
  apply HCl in H3. destruct H3 as [close [-> [Hclose ->]]].
  apply matches_cat_list in H. destruct H as [s4 [c4 [H4 H]]].
  apply matches_class_star in H4. destruct H4 as [bridge [-> [Hbridge ->]]].
  cbn [cat_list] in H.
  apply matches_group in H. destruct H as [heading [c5 [-> [-> H5]]]].
  pose proof (Hbody _ _ _ _ heading H5 eq_refl) as Hhead.
  apply matches_caps in H5. destruct H5 as [added [-> Hadded]].
  assert (Hdigits : digits = d :: ds).
  { rewrite app_comm_cons in Hd. apply app_inv_tail in Hd. exact Hd. }
  exists mark, digits, close, bridge, heading.
  split; [reflexivity|]. split; [exact Hmark|]. split; [exact Hclose|].
  split; [rewrite Hdigits; discriminate|].
  split; [rewrite Hdigits; cbn; unfold digit in *; rewrite Hd1, Hd2; reflexivity|].
  split; [exact Hbridge|]. split; [exact Hhead|].
  split; [|reflexivity].
  cbn [group Nat.eqb]. rewrite group_skip; [reflexivity|].
  intros v Hin. apply N1. eapply Hadded. exact Hin.
Qed.

Lemma numbered_heading_read s rest c :
  Matches inp re_numbered_heading s [] rest c ->
  exists mark digits close bridge heading,
    s = mark ++ digits ++ close ++ bridge ++ heading ++ rest
    /\ mark = str "[PAGE_" /\ close = str "]"
    /\ digits <> [] /\ forallb isdigit digits = true
    /\ forallb notnl bridge = true
    /\ numbered_head heading
    /\ group 1 c = digits /\ group 2 c = heading.
Proof.
  unfold re_numbered_heading.
  apply marker_pattern_read.
  - intros s0 c0 s1 c1 H. apply matches_Lit in H. destruct H as [-> ->]. eauto.
  - intros s0 c0 s1 c1 H. apply matches_Lit in H. destruct H as [-> ->]. eauto.
  - intros s0 c0 s1 c1 h H Hs.
    apply matches_cat_list in H. destruct H as [s2 [c2 [H1 H2]]].
    apply matches_class_plus in H1. destruct H1 as [d [ds [-> [Hd _]]]].
    apply matches_suffix in H2. destruct H2 as [pre ->].
    unfold numbered_head. destruct h as [|a h].
    + exfalso. cbn [app] in Hs. apply (f_equal (@length ascii)) in Hs.
      cbn [length] in Hs. rewrite !length_app in Hs. lia.
    + cbn [app] in Hs. inversion Hs; subst. exact Hd.
  - cbn. tauto.
  - cbn. tauto.
Qed.

Lemma chapter_heading_read s rest c :
  Matches inp re_chapter_heading s [] rest c ->
  exists mark digits close bridge heading,
    s = mark ++ digits ++ close ++ bridge ++ heading ++ rest
    /\ str_lower mark = str "[page_" /\ str_lower close = str "]"
    /\ digits <> [] /\ forallb isdigit digits = true
    /\ forallb notnl bridge = true
    /\ chapter_head heading
    /\ group 1 c = digits /\ group 2 c = heading.
Proof.
  unfold re_chapter_heading.
  apply marker_pattern_read.
  - intros s0 c0 s1 c1 H. apply matches_LitI in H. destruct H as [l [-> [Hl ->]]]. eauto.
  - intros s0 c0 s1 c1 H. apply matches_LitI in H. destruct H as [l [-> [Hl ->]]]. eauto.
  - intros s0 c0 s1 c1 h H Hs.
    apply matches_cat_list in H. destruct H as [s2 [c2 [H1 H2]]].
    apply matches_group in H1. destruct H1 as [kw [c' [-> [_ H1]]]].
    apply matches_suffix in H2. destruct H2 as [pre ->].
    rewrite app_assoc in Hs. apply app_inv_tail in Hs. subst h.
    exists kw, pre. split; [reflexivity|].
    inversion H1; subst;
      match goal with
      | H : Matches _ (LitI _) _ _ _ _ |- _ =>
          apply matches_LitI in H; destruct H as [l [Hl [Hlow _]]];
            apply app_inv_tail in Hl; subst l
      end; [left | right]; exact Hlow.
  - cbn. intros [H|H]; [discriminate | exact H].
  - cbn. intros [H|H]; [discriminate | exact H].
Qed.

Lemma isupper_notnl (a : ascii) : isupper a = true -> notnl a = true.
Proof.
  unfold notnl. destruct (Ascii.eqb a newline) eqn:E; [|reflexivity].
  apply Ascii.eqb_eq in E. subst. discriminate.
Qed.

Lemma title_read s rest c :
  Matches inp re_title s [] rest c ->
  exists bridge title_,
    s = str "[PAGE_1]" ++ bridge ++ title_ ++ rest
    /\ forallb notnl (bridge ++ title_) = true
    /\ first_sat isupper title_ = true
    /\ group 1 c = title_.
Proof.
  unfold re_title. intros H.
  apply matches_cat_list in H. destruct H as [s1 [c1 [H1 H]]].
  apply matches_Lit in H1. destruct H1 as [-> ->].
  apply matches_cat_list in H. destruct H as [s2 [c2 [H2 H]]].
  apply matches_class_star in H2. destruct H2 as [bridge [-> [Hbridge ->]]].
  cbn [cat_list] in H.
  apply matches_group in H. destruct H as [t [c' [-> [-> H]]]].
  inversion H; subst.
  match goal with
  | H1 : Matches _ (Chr isupper) _ _ _ _, H2 : Matches _ (Rep _ _ _) _ _ _ _ |- _ =>
      apply matches_chr in H1; destruct H1 as [a [Ha [Hup ->]]];
      apply matches_class_rep in H2; destruct H2 as [tl [-> [Htl [_ ->]]]]
  end.
  assert (Ht : t = a :: tl).
  { rewrite app_comm_cons in Ha. apply app_inv_tail in Ha. exact Ha. }
  exists bridge, t. split; [reflexivity|].
  split; [|split; [rewrite Ht; exact Hup | reflexivity]].
  rewrite forallb_app, Hbridge, Ht. cbn. rewrite (isupper_notnl _ Hup), Htl. reflexivity.
Qed.
End ReadingPatterns.

(* ================================================================== *)
(** ** Scans *)

Section ScanFacts.
Variable inp : pystr.
Variable r : regex.

Lemma finditer_matches :
  forall s k m, In m (finditer_from inp r s k) ->
    exists skipped s0 rest c,
      s = skipped ++ s0 /\ match_at inp r s0 = Some (rest, c) /\
      m = mkMatch (length inp - length s0) (length s0 - length rest) c.
Proof.
  induction s as [|a s IH]; intros k m Hin.
  - destruct k; simpl in Hin; [|contradiction].
    destruct (match_at inp r []) as [[rest c]|] eqn:E; simpl in Hin; [|contradiction].
    destruct Hin as [<-|[]]. exists [], [], rest, c. auto.
  - assert (Htail : forall k', In m (finditer_from inp r s k') ->
                exists skipped s0 rest c,
                  a :: s = skipped ++ s0 /\ match_at inp r s0 = Some (rest, c) /\
                  m = mkMatch (length inp - length s0) (length s0 - length rest) c).
    { intros k' H. destruct (IH _ _ H) as [sk [s0 [rest [c [-> [E ->]]]]]].
      exists (a :: sk), s0, rest, c. auto. }
    destruct k; cbn [finditer_from] in Hin; [|eauto].
    destruct (match_at inp r (a :: s)) as [[rest c]|] eqn:E; [|eauto].
    destruct Hin as [<-|Hin]; [|eauto].
    exists [], (a :: s), rest, c. auto.
Qed.

Lemma finditer_start_skip :
  forall s k m, length s <= length inp -> In m (finditer_from inp r s k) ->
    length inp - length s + k <= m_start m.
Proof.
  induction s as [|a s IH]; intros k m Hlen Hin.
  - destruct k; simpl in Hin; [|contradiction].
    destruct (match_at inp r []) as [[rest c]|]; simpl in Hin; [|contradiction].
    destruct Hin as [<-|[]]. simpl. lia.
  - cbn [length] in Hlen. destruct k; cbn [finditer_from] in Hin.
    + destruct (match_at inp r (a :: s)) as [[rest c]|].
      * destruct Hin as [<-|Hin]; [simpl; lia|].
        apply IH in Hin; [|lia]. cbn [length]. lia.
      * apply IH in Hin; [|lia]. cbn [length]. lia.
    + apply IH in Hin; [|lia]. cbn [length]. lia.
Qed.

Lemma finditer_sorted :
  forall s k, length s <= length inp -> StronglySorted before (finditer_from inp r s k).
Proof.
  induction s as [|a s IH]; intros k Hlen.
  - destruct k; simpl; [|constructor].
    destruct (match_at inp r []) as [[rest c]|]; repeat constructor.
  - cbn [length] in Hlen. destruct k; cbn [finditer_from]; [|apply IH; lia].
    destruct (match_at inp r (a :: s)) as [[rest c]|]; [|apply IH; lia].
    constructor; [apply IH; lia|].
    apply Forall_forall. intros m Hin. apply finditer_start_skip in Hin; [|lia].
    unfold before. cbn [m_start m_len length] in *. lia.
Qed.

Lemma search_matches :
  forall s m, search_from inp r s = Some m ->
    exists skipped s0 rest c,
      s = skipped ++ s0 /\ match_at inp r s0 = Some (rest, c) /\
      m = mkMatch (length inp - length s0) (length s0 - length rest) c.
Proof.
  induction s as [|a s IH]; intros m H; cbn [search_from] in H.
  - destruct (match_at inp r []) as [[rest c]|] eqn:E; [|discriminate].
    inversion H; subst. exists [], [], rest, c. auto.
  - destruct (match_at inp r (a :: s)) as [[rest c]|] eqn:E.
    + inversion H; subst. exists [], (a :: s), rest, c. auto.
    + destruct (IH _ H) as [sk [s0 [rest [c [-> [E' ->]]]]]].
      exists (a :: sk), s0, rest, c. auto.
Qed.
End ScanFacts.

Lemma sorted_starts_NoDup (ms : list Match) :
  StronglySorted before ms -> NoDup (map m_start ms).
Proof.
  induction 1 as [|m ms _ IH Hall]; [constructor|].
  cbn [map]. constructor; [|exact IH].
  intros Hin. apply in_map_iff in Hin. destruct Hin as [m' [E Hm']].
  rewrite Forall_forall in Hall. destruct (Hall m' Hm') as [Hlt _]. lia.
Qed.

Lemma length_prefix_sub {A : Type} (pre s : list A) :
  length (pre ++ s) - length s = length pre.
Proof. rewrite length_app. lia. Qed.

(* ================================================================== *)
(** ** Markers and pages *)

Lemma concat_pages_segments (pages : list Page) :
  forall page_num all_text,
    concat_pages pages page_num all_text = all_text ++ concat (segments pages page_num).
Proof.
  induction pages as [|p pages IH]; intros i acc; cbn [concat_pages segments concat].
  - rewrite app_nil_r. reflexivity.
  - rewrite IH. unfold page_segment. rewrite <- !app_assoc. reflexivity.
Qed.

Lemma digits_of_uint (d : Decimal.uint) :
  forallb isdigit (str (NilEmpty.string_of_uint d)) = true.
Proof. induction d; cbn; auto. Qed.

Lemma decimal_digits (n : nat) : forallb isdigit (decimal n) = true.
Proof.
  unfold decimal, NilZero.string_of_uint.
  destruct (Nat.to_uint n); try reflexivity; apply digits_of_uint.
Qed.

Lemma int_of_uint_acc (d : Decimal.uint) :
  forall acc : nat,
    fold_left (fun a c => (10 * a + (Z.of_N (code c) - 48))%Z)
              (str (NilEmpty.string_of_uint d)) (Z.of_nat acc)
    = Z.of_nat (Nat.of_uint_acc d acc).
Proof.
  induction d; intros acc; cbn [NilEmpty.string_of_uint str list_ascii_of_string fold_left
                                Nat.of_uint_acc]; [reflexivity|..];
    rewrite <- IHd; f_equal; rewrite ?Nat2Z.inj_succ, Nat.tail_mul_spec, Nat2Z.inj_mul;
    cbn; lia.
Qed.

Lemma int_of_decimal (n : nat) : int_of_digits (decimal n) = Z.of_nat n.
Proof.
  unfold int_of_digits, decimal, NilZero.string_of_uint.
  rewrite <- (Unsigned.of_to n) at 2. unfold Nat.of_uint.
  destruct (Nat.to_uint n) eqn:E;
    first [reflexivity | exact (int_of_uint_acc _ 0)].
Qed.

Lemma no_bracket_split (x : ascii) (b : pystr) :
  ~ In x b ->
  forall R pre post, b ++ R = pre ++ x :: post ->
    exists pre', pre = b ++ pre' /\ R = pre' ++ x :: post.
Proof.
  induction b as [|y b IH]; intros Hx R pre post H.
  - exists pre. auto.
  - destruct pre as [|y' pre]; cbn [app] in H; inversion H; subst.
    + exfalso. apply Hx. left. reflexivity.
    + destruct (IH (fun Hin => Hx (or_intror Hin)) R pre post) as [pre' [-> ->]];
        [assumption|].
      exists pre'. auto.
Qed.

Lemma digits_no_bracket (d : pystr) : forallb isdigit d = true -> ~ In "["%char d.
Proof.
  intros H Hin. rewrite forallb_forall in H. apply H in Hin. discriminate Hin.
Qed.

Lemma segment_body (page_num : nat) (p : Page) :
  page_segment page_num p =
  "["%char :: (str "PAGE_" ++ decimal (page_num + 1) ++ str "]" ++ page_text p).
Proof. unfold page_segment, page_marker. rewrite <- !app_assoc. reflexivity. Qed.

Lemma segment_body_no_bracket (page_num : nat) (p : Page) :
  ~ In "["%char (page_text p) ->
  ~ In "["%char (str "PAGE_" ++ decimal (page_num + 1) ++ str "]" ++ page_text p).
Proof.
  intros Hp Hin. apply in_app_or in Hin. destruct Hin as [Hin|Hin].
  - cbn in Hin. repeat (destruct Hin as [Hin|Hin]; [discriminate Hin|]). exact Hin.
  - apply in_app_or in Hin. destruct Hin as [Hin|Hin].
    + exact (digits_no_bracket _ (decimal_digits _) Hin).
    + cbn in Hin. destruct Hin as [Hin|Hin]; [discriminate Hin | exact (Hp Hin)].
Qed.

(** Without brackets in the page texts, a bracket of the concatenated text
    opens the marker of a page. *)
Lemma bracket_at_page_start (pages : list Page) :
  (forall p, In p pages -> ~ In "["%char (page_text p)) ->
  forall page_num pre post,
    concat (segments pages page_num) = pre ++ "["%char :: post ->
    exists j p,
      nth_error pages j = Some p
      /\ pre = concat (firstn j (segments pages page_num))
      /\ post = str "PAGE_" ++ decimal (page_num + j + 1) ++ str "]" ++ page_text p
                ++ concat (skipn (S j) (segments pages page_num)).
Proof.
  induction pages as [|p pages IH]; intros Hplain i pre post H.
  - cbn in H. destruct pre; discriminate H.
  - cbn [segments concat] in H. rewrite segment_body in H.
    destruct pre as [|a pre]; cbn [app] in H.
    + injection H as Hpost. exists 0, p. split; [reflexivity|]. split; [reflexivity|].
      rewrite <- Hpost, Nat.add_0_r, <- !app_assoc. reflexivity.
    + assert (Hrest : (str "PAGE_" ++ decimal (i + 1) ++ str "]" ++ page_text p)
                        ++ concat (segments pages (S i)) = pre ++ "["%char :: post)
        by (injection H; intros E _; exact E).
      assert (Ha : a = "["%char) by (injection H; intros _ E; symmetry; exact E).
      subst a. clear H.
      assert (Hbody := segment_body_no_bracket i p (Hplain p (in_eq _ _))).
      apply no_bracket_split in Hrest; [|exact Hbody].
      destruct Hrest as [pre' [-> Hrest]].
      destruct (IH (fun q Hq => Hplain q (in_cons _ _ _ Hq)) (S i) pre' post Hrest)
        as [j [q [Hnth [-> ->]]]].
      exists (S j), q. split; [exact Hnth|]. split.
      * cbn [segments firstn concat]. rewrite segment_body. reflexivity.
      * cbn [segments skipn]. replace (i + S j + 1) with (S i + j + 1) by lia.
        reflexivity.
Qed.

Lemma digits_prefix_unique (d1 : pystr) :
  forall d2 c1 c2 r1 r2,
    forallb isdigit d1 = true -> forallb isdigit d2 = true ->
    isdigit c1 = false -> isdigit c2 = false ->
    d1 ++ c1 :: r1 = d2 ++ c2 :: r2 -> d1 = d2.
Proof.
  induction d1 as [|a d1 IH]; intros [|b d2] c1 c2 r1 r2 H1 H2 N1 N2 H;
    cbn [app forallb] in *.
  - reflexivity.
  - inversion H; subst. apply andb_true_iff in H2. destruct H2. congruence.
  - inversion H; subst. apply andb_true_iff in H1. destruct H1. congruence.
  - inversion H; subst. apply andb_true_iff in H1, H2. f_equal.
    eapply IH; [tauto | tauto | exact N1 | exact N2 | eassumption].
Qed.

Lemma app_eq_length {A : Type} (l1 : list A) :
  forall l2 r1 r2, length l1 = length l2 -> l1 ++ r1 = l2 ++ r2 -> l1 = l2 /\ r1 = r2.
Proof.
  induction l1 as [|a l1 IH]; intros [|b l2] r1 r2 Hl H; cbn in *; try discriminate.
  - auto.
  - inversion H; subst. destruct (IH l2 r1 r2) as [-> ->]; [lia | assumption | auto].
Qed.

Lemma prefix_length_mono (L : list pystr) :
  forall j1 j2, j1 <= j2 -> length (concat (firstn j1 L)) <= length (concat (firstn j2 L)).
Proof.
  induction L as [|x L IH]; intros j1 j2 Hj.
  - rewrite !firstn_nil. lia.
  - destruct j1; [cbn; lia|]. destruct j2; [lia|].
    cbn [firstn concat]. rewrite !length_app. specialize (IH j1 j2). lia.
Qed.

Lemma lower_is_bracket (a : ascii) : lower a = "["%char -> a = "["%char.
Proof.
  destruct a as [[] [] [] [] [] [] [] []]; vm_compute; intros H;
    first [reflexivity | discriminate H].
Qed.

Lemma lower_closing_not_digit (a : ascii) : lower a = "]"%char -> isdigit a = false.
Proof.
  destruct a as [[] [] [] [] [] [] [] []]; vm_compute; intros H;
    first [reflexivity | discriminate H].
Qed.

(** A match that starts at a marker starts at the marker of a page, whose
    number group 1 holds. *)
Lemma marker_page (doc : Document) (mark_ok close_ok head_ok : pystr -> Prop) (m : Match) :
  plain_pages doc ->
  (forall mk, mark_ok mk -> exists t, mk = "["%char :: t /\ length t = 5) ->
  (forall cl, close_ok cl -> exists c, cl = [c] /\ isdigit c = false) ->
  marker_match mark_ok close_ok head_ok (all_text_of doc) m ->
  exists j,
    j < length (firstn 50 (doc_pages doc))
    /\ m_start m = length (concat (firstn j (segments (firstn 50 (doc_pages doc)) 0)))
    /\ group 1 (m_caps m) = decimal (j + 1).
Proof.
  intros Hplain Hmark Hclose
         [pre [mark [digits [close [bridge [heading [rest
           [Htext [Hstart [_ [Mk [Cl [_ [Hd [_ [_ [G1 _]]]]]]]]]]]]]]]]].
  destruct (Hmark _ Mk) as [t [-> Ht]]. destruct (Hclose _ Cl) as [c [-> Hc]].
  unfold all_text_of in Htext. rewrite concat_pages_segments in Htext. cbn [app] in Htext.
  apply bracket_at_page_start in Htext;
    [|intros p Hp; apply Hplain; exact (In_firstn _ _ _ Hp)].
  destruct Htext as [j [p [Hnth [Hpre Hpost]]]].
  exists j. split; [apply nth_error_Some; congruence|].
  split; [rewrite Hstart, Hpre; reflexivity|].
  rewrite G1. cbn [Nat.add] in Hpost.
  apply app_eq_length in Hpost; [|exact Ht]. destruct Hpost as [_ Hpost].
  cbn [app] in Hpost.
  eapply digits_prefix_unique;
    [exact Hd | apply decimal_digits | exact Hc | | exact Hpost].
  reflexivity.
Qed.

Lemma StronglySorted_map_in {A B : Type} (R : A -> A -> Prop) (R' : B -> B -> Prop)
      (f : A -> B) (l : list A) :
  StronglySorted R l ->
  (forall a b, In a l -> In b l -> R a b -> R' (f a) (f b)) ->
  StronglySorted R' (map f l).
Proof.
  induction 1 as [|a l Hs IH Hall]; intros Hf; cbn [map]; constructor.
  - apply IH. intros x y Hx Hy. apply Hf; right; assumption.
  - rewrite Forall_forall in *. intros y Hy. apply in_map_iff in Hy.
    destruct Hy as [b [<- Hb]]. apply Hf; [left; reflexivity | right; exact Hb|].
    apply Hall. exact Hb.
Qed.

(** The pages one pass reports, when its matches start at page markers. *)
Lemma pass_pages (doc : Document) (ms : list Match) :
  plain_pages doc ->
  StronglySorted before ms ->
  (forall m, In m ms ->
     exists j,
       j < length (firstn 50 (doc_pages doc))
       /\ m_start m = length (concat (firstn j (segments (firstn 50 (doc_pages doc)) 0)))
       /\ group 1 (m_caps m) = decimal (j + 1)) ->
  StronglySorted Z.lt (map (fun m => int_of_digits (group 1 (m_caps m))) ms)
  /\ forall m, In m ms ->
       (1 <= int_of_digits (group 1 (m_caps m))
        <= Z.of_nat (length (firstn 50 (doc_pages doc))))%Z.
Proof.
  intros _ Hsorted Hpage. split.
  - apply (StronglySorted_map_in (R := before)); [exact Hsorted|].
    intros a b Ha Hb [Hlt _].
    destruct (Hpage a Ha) as [ja [_ [Sa Ga]]]. destruct (Hpage b Hb) as [jb [_ [Sb Gb]]].
    rewrite Ga, Gb, !int_of_decimal.
    destruct (le_lt_dec jb ja) as [Hle|Hj]; [|lia].
    pose proof (prefix_length_mono (segments (firstn 50 (doc_pages doc)) 0) Hle). lia.
  - intros m Hm. destruct (Hpage m Hm) as [j [Hj [_ G]]].
    rewrite G, int_of_decimal. lia.
Qed.

Lemma numbered_mark_shape (mk : pystr) :
  str "[PAGE_" = mk -> exists t, mk = "["%char :: t /\ length t = 5.
Proof. intros <-. eexists. split; reflexivity. Qed.

Lemma closing_shape (cl : pystr) :
  str "]" = cl -> exists c, cl = [c] /\ isdigit c = false.
Proof. intros <-. eexists. split; reflexivity. Qed.

Lemma chapter_mark_shape (mk : pystr) :
  str_lower mk = str "[page_" -> exists t, mk = "["%char :: t /\ length t = 5.
Proof.
  intros H. destruct mk as [|a t]; [discriminate H|].
  unfold str_lower in H. cbn [map] in H. injection H as Ha Ht.
  apply lower_is_bracket in Ha. subst a. exists t. split; [reflexivity|].
  apply (f_equal (@length ascii)) in Ht. rewrite length_map in Ht. exact Ht.
Qed.

Lemma chapter_closing_shape (cl : pystr) :
  str_lower cl = str "]" -> exists c, cl = [c] /\ isdigit c = false.
Proof.
  intros H. destruct cl as [|c [|c' t]]; try discriminate H.
  unfold str_lower in H. cbn [map] in H. injection H as Hc.
  exists c. split; [reflexivity | apply lower_closing_not_digit; exact Hc].
Qed.

(** C10 (as amended).  Every match of the two heading patterns starts at a
    marker [[PAGE_digits]] of the concatenated text and reaches the text of
    group 2 without crossing a line break, so the numeral, or the
    Chapter/Section keyword, of an emitted heading begins on the line of the
    marker whose number it is reported with; the matches of one pass follow
    each other without overlap, so one marker gives at most one heading per
    pass; every entry of the outline comes from such a match.  The title
    lies wholly on the line of a [[PAGE_1]] marker.  When no page text
    contains an opening bracket, the markers are those of the pages: the
    page numbers reported by one pass increase strictly, so a page gets at
    most one heading per pass, and they are numbers of scanned pages. *)
Theorem pattern_strategy_marker_lines :
  (
  forall all_text : pystr,
    (forall m, In m (re_finditer re_numbered_heading all_text) ->
               marker_match (eq (str "[PAGE_")) (eq (str "]")) numbered_head all_text m)
    /\ (forall m, In m (re_finditer re_chapter_heading all_text) ->
                  marker_match (fun mark => str_lower mark = str "[page_")
                               (fun close => str_lower close = str "]")
                               chapter_head all_text m)
    /\ StronglySorted before (re_finditer re_numbered_heading all_text)
    /\ StronglySorted before (re_finditer re_chapter_heading all_text)
    /\ NoDup (map m_start (re_finditer re_numbered_heading all_text))
    /\ NoDup (map m_start (re_finditer re_chapter_heading all_text))
    /\ (forall e, In e (outline (regex_outline all_text)) ->
          (exists m, In m (re_finditer re_numbered_heading all_text) /\ e = numbered_entry m)
          \/ (exists m, In m (re_finditer re_chapter_heading all_text) /\ e = chapter_entry m))
    /\ (forall m, re_search re_title all_text = Some m -> title_match all_text m)
    /\ (regex_title all_text = untitled
        \/ exists m, re_search re_title all_text = Some m /\
                     regex_title all_text = strip (group 1 (m_caps m))))
  /\ (forall doc : Document,
        plain_pages doc ->
        StronglySorted Z.lt
          (map page (map numbered_entry
                         (re_finditer re_numbered_heading (all_text_of doc))))
        /\ StronglySorted Z.lt
             (map page (map chapter_entry
                            (re_finditer re_chapter_heading (all_text_of doc))))
        /\ (forall e, In e (regex_headings (all_text_of doc)) ->
                      (1 <= page e <= Z.of_nat (length (firstn 50 (doc_pages doc))))%Z)
        /\ (forall m,
              In m (re_finditer re_numbered_heading (all_text_of doc))
              \/ In m (re_finditer re_chapter_heading (all_text_of doc)) ->
              exists j,
                j < length (firstn 50 (doc_pages doc))
                /\ m_start m
                   = length (concat (firstn j (segments (firstn 50 (doc_pages doc)) 0)))
                /\ int_of_digits (group 1 (m_caps m)) = Z.of_nat (j + 1))).
Proof.
  assert (Htext : forall all_text : pystr,
      (forall m, In m (re_finditer re_numbered_heading all_text) ->
                 marker_match (eq (str "[PAGE_")) (eq (str "]")) numbered_head all_text m)
      /\ (forall m, In m (re_finditer re_chapter_heading all_text) ->
                    marker_match (fun mark => str_lower mark = str "[page_")
                                 (fun close => str_lower close = str "]")
                                 chapter_head all_text m)
      /\ StronglySorted before (re_finditer re_numbered_heading all_text)
      /\ StronglySorted before (re_finditer re_chapter_heading all_text)
      /\ NoDup (map m_start (re_finditer re_numbered_heading all_text))
      /\ NoDup (map m_start (re_finditer re_chapter_heading all_text))
      /\ (forall e, In e (outline (regex_outline all_text)) ->
            (exists m, In m (re_finditer re_numbered_heading all_text) /\ e = numbered_entry m)
            \/ (exists m, In m (re_finditer re_chapter_heading all_text) /\ e = chapter_entry m))
      /\ (forall m, re_search re_title all_text = Some m -> title_match all_text m)
      /\ (regex_title all_text = untitled
          \/ exists m, re_search re_title all_text = Some m /\
                       regex_title all_text = strip (group 1 (m_caps m)))).
  { intros all_text. repeat split.
    - intros m Hin. apply finditer_matches in Hin.
      destruct Hin as [pre [s0 [rest [c [Htext [E ->]]]]]].
      apply match_at_sound, numbered_heading_read in E.
      destruct E as [mark [digits [close [bridge [heading [Hs [Hm [Hc [D1 [D2 [B [Hh [G1 G2]]]]]]]]]]]]].
      exists pre, mark, digits, close, bridge, heading, rest. cbn [m_start m_len m_caps].
      rewrite Htext, Hs, length_prefix_sub.
      replace (mark ++ digits ++ close ++ bridge ++ heading ++ rest)
        with ((mark ++ digits ++ close ++ bridge ++ heading) ++ rest)
        by (rewrite <- !app_assoc; reflexivity).
      rewrite length_prefix_sub. rewrite <- !app_assoc. repeat split; auto.
    - intros m Hin. apply finditer_matches in Hin.
      destruct Hin as [pre [s0 [rest [c [Htext [E ->]]]]]].
      apply match_at_sound, chapter_heading_read in E.
      destruct E as [mark [digits [close [bridge [heading [Hs [Hm [Hc [D1 [D2 [B [Hh [G1 G2]]]]]]]]]]]]].
      exists pre, mark, digits, close, bridge, heading, rest. cbn [m_start m_len m_caps].
      rewrite Htext, Hs, length_prefix_sub.
      replace (mark ++ digits ++ close ++ bridge ++ heading ++ rest)
        with ((mark ++ digits ++ close ++ bridge ++ heading) ++ rest)
        by (rewrite <- !app_assoc; reflexivity).
      rewrite length_prefix_sub. rewrite <- !app_assoc. repeat split; auto.
    - apply finditer_sorted. lia.
    - apply finditer_sorted. lia.
    - apply sorted_starts_NoDup, finditer_sorted. lia.
    - apply sorted_starts_NoDup, finditer_sorted. lia.
    - intros e Hin. unfold regex_outline in Hin. cbn [outline] in Hin.
      apply In_firstn in Hin. unfold regex_headings in Hin. apply in_app_or in Hin.
      destruct Hin as [Hin|Hin]; apply in_map_iff in Hin; destruct Hin as [m [<- Hm]];
        [left | right]; eauto.
    - intros m H. unfold re_search in H. apply search_matches in H.
      destruct H as [pre [s0 [rest [c [Htext [E ->]]]]]].
      apply match_at_sound, title_read in E.
      destruct E as [bridge [t [Hs [Hline [Hup G]]]]].
      exists pre, bridge, t, rest. cbn [m_start m_caps].
      rewrite Htext, Hs, length_prefix_sub. repeat split; auto.
    - unfold regex_title. destruct (re_search re_title all_text) as [m|]; [right | left; reflexivity].
      exists m. split; reflexivity. }
  split; [exact Htext|].
  intros doc Hplain.
  destruct (Htext (all_text_of doc)) as [M1 [M2 [S1 [S2 _]]]].
  assert (J1 := fun m Hm => @marker_page doc _ _ _ m Hplain numbered_mark_shape
                                        closing_shape (M1 m Hm)).
  assert (J2 := fun m Hm => @marker_page doc _ _ _ m Hplain chapter_mark_shape
                                        chapter_closing_shape (M2 m Hm)).
  destruct (@pass_pages doc _ Hplain S1 J1) as [P1 Q1].
  destruct (@pass_pages doc _ Hplain S2 J2) as [P2 Q2].
  split; [rewrite map_map; exact P1|]. split; [rewrite map_map; exact P2|]. split.
  - intros e Hin. unfold regex_headings in Hin. apply in_app_or in Hin.
    destruct Hin as [Hin|Hin]; apply in_map_iff in Hin; destruct Hin as [m [<- Hm]].
    + exact (Q1 m Hm).
    + exact (Q2 m Hm).
  - intros m [Hm|Hm]; [destruct (J1 m Hm) as [j [Hj [Hs G]]]
                      | destruct (J2 m Hm) as [j [Hj [Hs G]]]];
      exists j; rewrite G, int_of_decimal; auto.
Qed.

(** C10 as stated fails.  A heading whose numeral ends the marker's line is
    emitted with its text running over the line break; the heading that
    starts the second page is reported for an empty first page, whose marker
    shares its line; and a page whose text holds a marker of its own gives
    two numbered headings for page 1. *)
Lemma pattern_heading_off_marker_line :
  (exists o e,
     _extract_with_regex_fallback
       (mkDocument [] [text_page (str "1." ++ newline :: str "Introduction")])
     = Ret (Some o)
     /\ In e (outline o)
     /\ text e = str "1." ++ newline :: str "Introduction"
     /\ In newline (text e))
  /\ _extract_with_regex_fallback
       (mkDocument [] [text_page []; text_page (str "1. Introduction" ++ [newline])])
     = Ret (Some (mkOutline (str "PAGE_2]1. Introduction")
                            [mkEntry H2 (str "1. Introduction") 1]))
  /\ _extract_with_regex_fallback
       (mkDocument [] [text_page (str "1. Introduction" ++ newline ::
                                  str "[PAGE_1]2. Background" ++ [newline])])
     = Ret (Some (mkOutline (str "Introduction")
                            [mkEntry H2 (str "1. Introduction") 1;
                             mkEntry H2 (str "2. Background") 1])).
Proof.
  split; [|split; vm_compute; reflexivity].
  eexists. eexists. split; [vm_compute; reflexivity|].
  split; [left; reflexivity|]. split; [reflexivity|].
  cbn. auto.
Qed.

(* ================================================================== *)
(** ** The properties at work on concrete runs *)




(** Sizes 10, 10, 14: the mode is 10 with either library. *)
Lemma body_font_estimation_witness :
  let blocks := [fragment "aaa" 0 10; fragment "bbb" 0 10; fragment "ccc" 0 14] in
  (body_font_of mode_py37 blocks == 10)%Q
  /\ most_frequent (positive_sizes blocks) (body_font_of mode_py38 blocks) = true.
Proof.
  cbv zeta. destruct body_font_estimation as [_ [B2 [B3 _]]]. split.
  - apply B3.
    + left. reflexivity.
    + vm_compute. reflexivity.
    + intros y Hin My.
      destruct Hin as [<-|[<-|[<-|[]]]]; try reflexivity.
      vm_compute in My. discriminate My.
  - destruct (B2 [fragment "aaa" 0 10; fragment "bbb" 0 10; fragment "ccc" 0 14])
      as [l1 [l2 [_ [M _]]]]; [vm_compute; discriminate | exact M].
Defined.


(** Two plain pages that each start with a numbered heading: one heading
    per page, pages 1 and 2. *)
Lemma pattern_strategy_marker_lines_witness :
  plain_pages two_chapters
  /\ map page (map numbered_entry
                   (re_finditer re_numbered_heading (all_text_of two_chapters)))
     = [1%Z; 2%Z]
  /\ StronglySorted Z.lt
       (map page (map numbered_entry
                      (re_finditer re_numbered_heading (all_text_of two_chapters)))).
Proof.
  assert (Hplain : plain_pages two_chapters).
  { intros p Hin Hb. destruct Hin as [<-|[<-|[]]]; cbn in Hb;
      repeat (destruct Hb as [Hb|Hb]; [discriminate Hb|]); exact Hb. }
  split; [exact Hplain|]. split; [vm_compute; reflexivity|].
  exact (proj1 (proj2 pattern_strategy_marker_lines two_chapters Hplain)).
Defined.

(* ================================================================== *)
(** ** Further properties of the driver *)

Lemma accepted_bounds (r : option Outline) (o : Outline) :
  accepted r = Some o -> r = Some o /\ 1 <= length (outline o) <= 100.
Proof.
  intros H. apply accepted_valid in H. destruct H as [-> H]. split; [reflexivity|].
  unfold _validate_result in H. apply andb_true_iff in H. destruct H as [H1 H2].
  apply Nat.leb_le in H1, H2. lia.
Qed.

(** What a returned outline is, by the events of the run. *)
Lemma shape_ret_origin (reading : Q -> Prop) (o : Outline) (evs : list Event) :
  attempt_shape reading [] (Ret o) evs ->
  length (outline o) <= 100
  /\ (o = sentinel_outline
      \/ exists s before,
           evs = before ++ [Called s (Ret (Some o))] /\ 1 <= length (outline o)).
Proof.
  intros Hshape.
  assert (Hacc : forall s before r o',
             accepted r = Some o' ->
             length (outline o') <= 100
             /\ (o' = sentinel_outline
                 \/ exists s0 before0,
                      before ++ [Called s (Ret r)] = before0 ++ [Called s0 (Ret (Some o'))]
                      /\ 1 <= length (outline o'))).
  { intros s before r o' A. apply accepted_bounds in A. destruct A as [-> B].
    split; [lia|]. right. exists s, before. split; [reflexivity | lia]. }
  inversion Hshape as
      [e Ho He | r o0 A Ho He | r t e A R G Ho He | r t r2 o0 A R G A2 Ho He
       | r t r2 t' res3 out' A R G A2 R' G' Hres Ho He | r t r2 t' A R G A2 R' G' Ho He
       | r t t' res3 out' A R G R' G' Hres Ho He | r t t' A R G R' G' Ho He];
    subst; cbn [app] in *;
    try (split; [cbn; lia | left; reflexivity]; fail).
  - exact (Hacc MetadataStrategy [] r o A).
  - exact (Hacc LayoutStrategy [Called MetadataStrategy (Ret r); Budget t] r2 o A2).
  - destruct res3 as [r3|e]; [|discriminate Hres]. inversion Hres; subst.
    destruct (accepted r3) as [o3|] eqn:A3; [|split; [cbn; lia | left; reflexivity]].
    exact (Hacc PatternStrategy
                [Called MetadataStrategy (Ret r); Budget t;
                 Called LayoutStrategy (Ret r2); Budget t'] r3 o3 A3).
  - destruct res3 as [r3|e]; [|discriminate Hres]. inversion Hres; subst.
    destruct (accepted r3) as [o3|] eqn:A3; [|split; [cbn; lia | left; reflexivity]].
    exact (Hacc PatternStrategy
                [Called MetadataStrategy (Ret r); Budget t; Budget t'] r3 o3 A3).
Qed.

Lemma run_outline_bound :
  forall (clock : nat -> Q)
         (toc_strategy layout_strategy regex_strategy : Extractor -> Clock (option Outline))
         (self0 : Extractor) (n : nat),
  exists (o : Outline) (w' : World),
    extract_outline clock toc_strategy layout_strategy regex_strategy self0 (new_world n)
    = (Ret o, w')
    /\ length (outline o) <= 100.
Proof.
  intros clock toc layout regex self0 n.
  destruct (extract_outline_shape clock toc layout regex self0 (new_world n) eq_refl)
    as [out [w' [Hshape Hrun]]].
  eexists. exists w'. split; [exact Hrun|]. clear Hrun.
  cbn [new_world events] in Hshape.
  destruct out as [o|e]; [|cbn; lia].
  exact (proj1 (shape_ret_origin Hshape)).
Qed.

Lemma toc_outline_nonempty (doc : Document) (o : Outline) :
  _extract_with_toc doc = Some o -> 1 <= length (outline o).
Proof.
  unfold _extract_with_toc. destruct (doc_toc doc) as [|item toc]; [discriminate|].
  destruct (toc_loop (item :: toc)) as [|e es]; [discriminate|].
  intros H. inversion H; subst. cbn. lia.
Qed.

(** X1.  A document whose bookmarks give MetadataStrategy an outline of at
    most 100 entries: MetadataStrategy is the only call, the time left is
    never asked for, and the result is that outline when the write of
    [_log_time] succeeds, whatever the clock and the pages.  When that write
    raises, the result is the error sentinel, or the exception of the
    handler's write when that one raises too.  With more than 100 retained
    bookmarks the outline of MetadataStrategy is never the result. *)
Theorem bookmarks_decide :
  forall (clock : nat -> Q) (mode : list Q -> option Q) (doc : Document)
         (self0 : Extractor) (n : nat) (o : Outline) (c : list (option exn)),
    _extract_with_toc doc = Some o ->
    (length (outline o) <= 100 ->
     let run := extract_outline_pdf clock mode (Ret doc) self0 (mkWorld n [] c) in
     events (snd run) = [Called MetadataStrategy (Ret (Some o))]
     /\ reads (snd run) = S (S n)
     /\ fst run = match c with
                  | Some _ :: Some e' :: _ => Raise e'
                  | Some _ :: _ => Ret error_outline
                  | _ => Ret o
                  end)
    /\ (100 < length (outline o) ->
        fst (extract_outline_pdf clock mode (Ret doc) self0 (new_world n)) <> Ret o).
Proof.
  intros clock mode doc self0 n o c Htoc. split.
  - intros Hle.
    assert (Hv : _validate_result (Some o) = true).
    { unfold _validate_result. apply toc_outline_nonempty in Htoc.
      apply andb_true_iff. split; apply Nat.leb_le; lia. }
    cbv [extract_outline_pdf extract_outline attempt bind on_clock time_time try_except
         call accepted with_doc ret _log_time start_time print reads events console app].
    rewrite Htoc. cbv beta iota. rewrite Hv.
    destruct c as [|[e|] [|[e'|] rest]]; repeat split; reflexivity.
  - intros Hgt. unfold extract_outline_pdf.
    match goal with
    | |- fst (extract_outline ?c0 ?a ?b ?d ?s ?w) <> _ =>
        destruct (run_outline_bound c0 a b d s n) as [o' [w' [E B]]]
    end.
    rewrite E. cbn [fst]. intros H. inversion H; subst. lia.
Qed.

(** Two bookmarks: the result is the outline made of them; it is the error
    sentinel when the console refuses the line of [_log_time]. *)
Lemma bookmarks_decide_witness :
  fst (extract_outline_pdf slow_clock mode_py38 (Ret two_bookmarks)
                           (mkExtractor 10 None) (new_world 0))
  = Ret (mkOutline (str "Intro")
           [mkEntry H1 (str "Intro") 1%Z; mkEntry H2 (str "Background") 2%Z])
  /\ fst (extract_outline_pdf slow_clock mode_py38 (Ret two_bookmarks)
                              (mkExtractor 10 None)
                              (mkWorld 0 [] [Some (Exception (str "broken pipe"))]))
     = Ret error_outline.
Proof.
  split.
  - destruct (bookmarks_decide slow_clock mode_py38 two_bookmarks (mkExtractor 10 None) 0
                (o := mkOutline (str "Intro")
                        [mkEntry H1 (str "Intro") 1%Z; mkEntry H2 (str "Background") 2%Z])
                [])
      as [H _]; [vm_compute; reflexivity|].
    destruct H as [_ [_ H]]; [cbn; lia|]. exact H.
  - destruct (bookmarks_decide slow_clock mode_py38 two_bookmarks (mkExtractor 10 None) 0
                (o := mkOutline (str "Intro")
                        [mkEntry H1 (str "Intro") 1%Z; mkEntry H2 (str "Background") 2%Z])
                [Some (Exception (str "broken pipe"))])
      as [H _]; [vm_compute; reflexivity|].
    destruct H as [_ [_ H]]; [cbn; lia|]. exact H.
Defined.


Lemma accepted_rejected (r : option Outline) :
  accepted r = None -> _validate_result r = false.
Proof.
  unfold accepted. destruct (_validate_result r) eqn:E; [|reflexivity].
  intros ->. discriminate E.
Qed.

Ltac reject_earlier :=
  match goal with
  | A : accepted ?r = None, H : _validate_result ?r = true |- _ =>
      apply accepted_rejected in A; congruence
  end.

(** X3.  MetadataStrategy is always called, first; each strategy is called
    at most once and in the order of priority; a call that raised, or whose
    candidate the validator accepts, is the last event of the run. *)
Theorem driver_call_order :
  forall (clock : nat -> Q)
         (toc_strategy layout_strategy regex_strategy : Extractor -> Clock (option Outline))
         (self0 : Extractor) (n : nat),
    let evs :=
      events (snd (extract_outline clock toc_strategy layout_strategy regex_strategy
                                   self0 (new_world n))) in
    (called_strategies evs = [MetadataStrategy]
     \/ called_strategies evs = [MetadataStrategy; LayoutStrategy]
     \/ called_strategies evs = [MetadataStrategy; PatternStrategy]
     \/ called_strategies evs = [MetadataStrategy; LayoutStrategy; PatternStrategy])
    /\ (forall s result,
          In (Called s result) evs ->
          (exists e, result = Raise e)
          \/ (exists r, result = Ret r /\ _validate_result r = true) ->
          last evs (Budget 0) = Called s result).
Proof.
  intros clock toc layout regex self0 n evs. subst evs.
  destruct (extract_outline_shape clock toc layout regex self0 (new_world n) eq_refl)
    as [out [w' [Hshape Hrun]]].
  rewrite Hrun. clear Hrun. cbn [fst snd new_world events reads] in *.
  inversion Hshape as
      [e Ho He | r o A Ho He | r t e A R G Ho He | r t r2 o A R G A2 Ho He
       | r t r2 t' res3 out' A R G A2 R' G' Hres Ho He | r t r2 t' A R G A2 R' G' Ho He
       | r t t' res3 out' A R G R' G' Hres Ho He | r t t' A R G R' G' Ho He];
    subst; cbn [app] in *; rewrite <- He in *; clear He; cbn [called_strategies last];
    (split; [auto|]);
    intros s result Hin [[e0 Hr]|[r0 [Hr Hv]]]; subst result; in_events;
    try reflexivity; try reject_earlier.
Qed.

(* ================================================================== *)
(** ** Further properties of LayoutStrategy *)

Section ScanPrefix.
Variable clock : nat -> Q.
Variable self : Extractor.

Lemma scan_pages_prefix (pages : list Page) :
  forall page_num all_blocks n,
  exists k n',
    k <= length pages
    /\ (pages <> [] -> 1 <= k)
    /\ scan_pages clock self pages page_num all_blocks n
       = (Ret (all_blocks ++ collected (firstn k pages) page_num), n')
    /\ (never_under clock self 0.5 -> k = length pages).
Proof.
  induction pages as [|p pages IH]; intros i acc n.
  - exists 0, n. cbn. rewrite app_nil_r. repeat split; auto. congruence.
  - cbn [scan_pages]. unfold bind.
    destruct (_time_left_value clock self n) as [n1 E]. rewrite E.
    destruct (Qltb (remaining_at clock self n) 0.5) eqn:T.
    + exists 1, n1. cbn [firstn collected length]. rewrite app_nil_r.
      repeat split; auto; try lia.
      intros H. rewrite H in T. discriminate T.
    + destruct (IH (S i) (acc ++ page_spans i p) n1) as [k [n' [Hk [_ [Hs Hall]]]]].
      exists (S k), n'. cbn [firstn collected length]. rewrite Hs, <- app_assoc.
      repeat split; auto; try lia.
Qed.
End ScanPrefix.

Lemma collected_pages (pages : list Page) :
  forall page_num b, In b (collected pages page_num) ->
    (Z.of_nat page_num + 1 <= b_page b <= Z.of_nat (page_num + length pages))%Z
    /\ 2 < length (b_text b).
Proof.
  induction pages as [|p pages IH]; intros i b Hin; [destruct Hin|].
  cbn [collected] in Hin. apply in_app_or in Hin. destruct Hin as [Hin|Hin].
  - unfold page_spans in Hin. apply in_flat_map in Hin. destruct Hin as [blk [_ Hin]].
    destruct blk as [lines|]; [|destruct Hin].
    apply in_flat_map in Hin. destruct Hin as [line [_ Hin]].
    apply in_flat_map in Hin. destruct Hin as [sp [_ Hin]].
    unfold span_block in Hin.
    destruct (negb (length (strip (span_text sp)) =? 0)
              && (2 <? length (strip (span_text sp)))) eqn:C; [|destruct Hin].
    destruct Hin as [<-|[]]. cbn [b_page b_text length].
    apply andb_true_iff in C. destruct C as [_ C]. apply Nat.ltb_lt in C.
    split; [lia | exact C].
  - apply IH in Hin. cbn [length]. destruct Hin as [H1 H2]. split; [lia | exact H2].
Qed.

(* ================================================================== *)
(** ** Further properties of PatternStrategy *)

Lemma has_space_app_l (a b : pystr) : has_space a -> has_space (a ++ b).
Proof. intros [x [H1 H2]]. exists x. split; [apply in_or_app; left; exact H1 | exact H2]. Qed.

Lemma has_space_app_r (a b : pystr) : has_space b -> has_space (a ++ b).
Proof. intros [x [H1 H2]]. exists x. split; [apply in_or_app; right; exact H1 | exact H2]. Qed.

Lemma no_space_has_space (s : pystr) : no_space s = true -> has_space s -> False.
Proof.
  unfold no_space. intros H [a [Hin Ha]]. rewrite forallb_forall in H.
  apply H in Hin. rewrite Ha in Hin. discriminate Hin.
Qed.

Section NeedsSpace.
Variable inp : pystr.

Lemma numbered_heading_has_space s rest c :
  Matches inp re_numbered_heading s [] rest c -> has_space s.
Proof.
  intros H. unfold re_numbered_heading in H.
  apply (@marker_pattern_read inp _ _ _ (fun _ => True) (fun _ => True) has_space) in H.
  - destruct H as [mark [digits [close [bridge [heading [-> [_ [_ [_ [_ [_ [Hh _]]]]]]]]]]]].
    do 4 apply has_space_app_r. apply has_space_app_l. exact Hh.
  - intros s0 c0 s1 c1 M. apply matches_Lit in M. destruct M as [-> ->]. eauto.
  - intros s0 c0 s1 c1 M. apply matches_Lit in M. destruct M as [-> ->]. eauto.
  - intros s0 c0 s1 c1 h M Hs.
    apply matches_cat_list in M. destruct M as [s2 [c2 [M1 M]]].
    apply matches_suffix in M1. destruct M1 as [p1 ->].
    apply matches_cat_list in M. destruct M as [s3 [c3 [M2 M]]].
    apply matches_suffix in M2. destruct M2 as [p2 ->].
    apply matches_cat_list in M. destruct M as [s4 [c4 [M3 M]]].
    apply matches_suffix in M3. destruct M3 as [p3 ->].
    apply matches_cat_list in M. destruct M as [s5 [c5 [M4 M]]].
    apply matches_class_plus in M4. destruct M4 as [a [pre [-> [Ha _]]]].
    apply matches_suffix in M. destruct M as [p5 ->].
    assert (E : h = p1 ++ p2 ++ p3 ++ (a :: pre) ++ p5).
    { apply (app_inv_tail s1). rewrite <- Hs.
      repeat rewrite <- app_assoc. reflexivity. }
    rewrite E. do 3 apply has_space_app_r. apply has_space_app_l.
    exists a. split; [left; reflexivity | exact Ha].
  - cbn. tauto.
  - cbn. tauto.
Qed.

Lemma chapter_heading_has_space s rest c :
  Matches inp re_chapter_heading s [] rest c -> has_space s.
Proof.
  intros H. unfold re_chapter_heading in H.
  apply (@marker_pattern_read inp _ _ _ (fun _ => True) (fun _ => True) has_space) in H.
  - destruct H as [mark [digits [close [bridge [heading [-> [_ [_ [_ [_ [_ [Hh _]]]]]]]]]]]].
    do 4 apply has_space_app_r. apply has_space_app_l. exact Hh.
  - intros s0 c0 s1 c1 M. apply matches_LitI in M. destruct M as [l [-> [_ ->]]]. eauto.
  - intros s0 c0 s1 c1 M. apply matches_LitI in M. destruct M as [l [-> [_ ->]]]. eauto.
  - intros s0 c0 s1 c1 h M Hs.
    apply matches_cat_list in M. destruct M as [s2 [c2 [M1 M]]].
    apply matches_suffix in M1. destruct M1 as [p1 ->].
    apply matches_cat_list in M. destruct M as [s3 [c3 [M2 M]]].
    apply matches_class_plus in M2. destruct M2 as [a [pre [-> [Ha _]]]].
    apply matches_suffix in M. destruct M as [p3 ->].
    assert (E : h = p1 ++ (a :: pre) ++ p3).
    { apply (app_inv_tail s1). rewrite <- Hs.
      repeat rewrite <- app_assoc. reflexivity. }
    rewrite E. apply has_space_app_r. apply has_space_app_l.
    exists a. split; [left; reflexivity | exact Ha].
  - cbn. intros [H0|H0]; [discriminate | exact H0].
  - cbn. intros [H0|H0]; [discriminate | exact H0].
Qed.
End NeedsSpace.

Lemma finditer_none (inp : pystr) (r : regex) :
  (forall s rest c, match_at inp r s = Some (rest, c) -> has_space s) ->
  no_space inp = true ->
  re_finditer r inp = [].
Proof.
  intros Hr Hn. unfold re_finditer.
  destruct (finditer_from inp r inp 0) as [|m ms] eqn:E; [reflexivity|].
  exfalso.
  assert (Hin : In m (finditer_from inp r inp 0)) by (rewrite E; left; reflexivity).
  apply finditer_matches in Hin.
  destruct Hin as [skipped [s0 [rest [c [Hs [Hm _]]]]]].
  apply Hr in Hm. apply (no_space_has_space Hn).
  rewrite Hs. apply has_space_app_r. exact Hm.
Qed.

Lemma regex_headings_need_space (all_text : pystr) :
  no_space all_text = true -> regex_headings all_text = [].
Proof.
  intros Hn. unfold regex_headings.
  rewrite (@finditer_none all_text re_numbered_heading), (@finditer_none all_text re_chapter_heading);
    try exact Hn; try reflexivity.
  - intros s rest c H. apply match_at_sound in H.
    exact (chapter_heading_has_space H).
  - intros s rest c H. apply match_at_sound in H.
    exact (numbered_heading_has_space H).
Qed.

Lemma no_space_app (a b : pystr) :
  no_space (a ++ b) = no_space a && no_space b.
Proof. unfold no_space. apply forallb_app. Qed.

Lemma digits_no_space (d : pystr) : forallb isdigit d = true -> no_space d = true.
Proof.
  unfold no_space. intros H. rewrite forallb_forall in *. intros a Ha.
  specialize (H a Ha). revert H. unfold isdigit, isspace, in_range, code.
  destruct a as [[] [] [] [] [] [] [] []]; vm_compute; congruence.
Qed.

Lemma page_marker_no_space (n : nat) : no_space (page_marker n) = true.
Proof.
  unfold page_marker. rewrite !no_space_app, (digits_no_space _ (decimal_digits n)).
  reflexivity.
Qed.

Lemma concat_pages_no_space (pages : list Page) :
  (forall p, In p pages -> no_space (page_text p) = true) ->
  forall page_num all_text,
    no_space all_text = true ->
    no_space (concat_pages pages page_num all_text) = true.
Proof.
  induction pages as [|p pages IH]; intros Hp i acc Hacc; [exact Hacc|].
  cbn [concat_pages]. apply IH.
  - intros q Hq. apply Hp. right. exact Hq.
  - rewrite !no_space_app, Hacc, page_marker_no_space, (Hp p (in_eq _ _)). reflexivity.
Qed.

Lemma Forall_firstn {A : Type} (P : A -> Prop) (n : nat) (l : list A) :
  Forall P l -> Forall P (firstn n l).
Proof.
  intros H. apply Forall_forall. intros x Hx.
  rewrite Forall_forall in H. apply H. exact (In_firstn _ _ _ Hx).
Qed.

(** X4.  PatternStrategy raises exactly when the page number of a match of
    one of its two passes has more digits than [int] accepts, which a
    [PAGE_...] marker inside the text of a page can have; otherwise it
    returns an outline, never [None], of at most 20 entries: the H2 and H3
    entries of the numbered pass first, the H1 entries of the Chapter/Section
    pass after them, so that 20 numbered headings leave no room for an H1
    entry.  Both passes need a whitespace character: when the text of the
    pages read has none, the strategy returns, the outline is empty and the
    validator rejects it.  A page whose text holds a marker of 4301 digits
    before a numbered heading makes the strategy raise [ValueError]; with
    4300 digits it returns that heading. *)
Theorem pattern_outline_shape :
  (forall doc : Document,
    match _extract_with_regex_fallback doc with
    | Raise _ => exists m, In m (pass_matches (all_text_of doc)) /\ too_long m
    | Ret None => False
    | Ret (Some o) =>
        (forall m, In m (pass_matches (all_text_of doc)) -> ~ too_long m)
        /\ o = regex_outline (all_text_of doc)
        /\ length (outline o) <= 20
        /\ (exists numbered chapters,
              outline o = numbered ++ chapters
              /\ Forall (fun e => level e = H2 \/ level e = H3) numbered
              /\ Forall (fun e => level e = H1) chapters)
        /\ (20 <= length (re_finditer re_numbered_heading (all_text_of doc)) ->
            Forall (fun e => level e <> H1) (outline o))
        /\ ((forall p, In p (firstn 50 (doc_pages doc)) ->
                       no_space (page_text p) = true) ->
            outline o = [] /\ _validate_result (Some o) = false)
    end
    /\ ((forall p, In p (firstn 50 (doc_pages doc)) -> no_space (page_text p) = true) ->
        exists o, _extract_with_regex_fallback doc = Ret (Some o)))
  /\ _extract_with_regex_fallback (mkDocument [] [long_marker_page 4301])
     = Raise (Exception (str "ValueError"))
  /\ (exists o,
        _extract_with_regex_fallback (mkDocument [] [long_marker_page 4300]) = Ret (Some o)
        /\ map text (outline o) = [str "1. Introduction"]).
Proof.
  split; [|split; [vm_compute; reflexivity
                  | eexists; split; [vm_compute; reflexivity | vm_compute; reflexivity]]].
  intros doc.
  assert (Hnone : (forall p, In p (firstn 50 (doc_pages doc)) ->
                             no_space (page_text p) = true) ->
                  regex_headings (all_text_of doc) = []).
  { intros Hp. apply regex_headings_need_space. unfold all_text_of.
    apply concat_pages_no_space; [exact Hp | reflexivity]. }
  split.
  2:{ intros Hp. specialize (Hnone Hp).
      destruct (regex_fallback_cases doc) as [[E _]|[e [m [_ [Hin _]]]]]; [eauto|].
      exfalso. unfold regex_headings in Hnone. apply app_eq_nil in Hnone.
      destruct Hnone as [N1 N2]. apply map_eq_nil in N1. apply map_eq_nil in N2.
      unfold pass_matches in Hin. rewrite N1, N2 in Hin. exact Hin. }
  destruct (regex_fallback_cases doc) as [[E Hshort]|[e [m [E H]]]]; rewrite E; [|eauto].
  split; [exact Hshort|]. split; [reflexivity|].
  cbn [outline regex_outline]. unfold regex_headings.
  set (ns := map numbered_entry (re_finditer re_numbered_heading (all_text_of doc))).
  set (cs := map chapter_entry (re_finditer re_chapter_heading (all_text_of doc))).
  assert (Hns : Forall (fun e => level e = H2 \/ level e = H3) ns).
  { apply Forall_forall. intros e He. apply in_map_iff in He.
    destruct He as [m [<- _]]. unfold numbered_entry. cbn [level].
    destruct (1 <? count_char "." (strip (group 2 (m_caps m)))); auto. }
  assert (Hcs : Forall (fun e => level e = H1) cs).
  { apply Forall_forall. intros e He. apply in_map_iff in He.
    destruct He as [m [<- _]]. reflexivity. }
  split; [apply firstn_le_length|].
  split; [|split].
  - exists (firstn 20 ns), (firstn (20 - length ns) cs).
    split; [apply firstn_app|]. split; apply Forall_firstn; assumption.
  - intros Hlen. rewrite firstn_app.
    replace (20 - length ns) with 0 by (unfold ns; rewrite length_map; lia).
    change (firstn 0 cs) with (@nil Entry). rewrite app_nil_r. apply Forall_firstn.
    eapply Forall_impl; [|exact Hns]. cbv beta.
    intros e [H|H]; rewrite H; discriminate.
  - intros Hp. specialize (Hnone Hp).
    unfold regex_headings in Hnone. fold ns cs in Hnone. rewrite Hnone.
    split; [reflexivity|].
    unfold _validate_result, regex_outline, regex_headings. cbn [outline].
    fold ns cs. rewrite Hnone. reflexivity.
Qed.

(* ================================================================== *)
(** ** Further properties of the pipeline *)

Section Rejected.
Variable clock : nat -> Q.
Variables toc_strategy layout_strategy regex_strategy :
  Extractor -> Clock (option Outline).
Variable self : Extractor.

(** A strategy that, whenever called, returns a candidate the validator
    rejects. *)
Let rejecting (strategy : Extractor -> Clock (option Outline)) : Prop :=
  forall n, exists r n', strategy self n = (Ret r, n') /\ _validate_result r = false.

Ltac reject_pattern_stage Hr :=
  match goal with
  | |- context [time_left ?clock ?self ?w'] =>
      let t := fresh "t" in
      let n := fresh "n" in
      let Et := fresh "Et" in
      destruct (time_left_returns clock self w') as [t [n [Et _]]]; rewrite Et; clear Et;
      cbn [reads events console];
      destruct (Qgtb t 1);
      [ unfold call; cbn [reads events console];
        let r3 := fresh "r" in
        let n4 := fresh "n" in
        let E3 := fresh "E" in
        let V3 := fresh "V" in
        destruct (Hr n) as [r3 [n4 [E3 V3]]]; rewrite E3;
        unfold ret at 1; unfold accepted; rewrite V3
      | unfold ret at 1 ];
      rewrite print_quiet by (cbn [console]; assumption);
      unfold ret; eauto
  end.

Lemma attempt_all_rejected (w : World) :
  console w = [] ->
  rejecting toc_strategy -> rejecting layout_strategy -> rejecting regex_strategy ->
  exists w',
    attempt clock toc_strategy layout_strategy regex_strategy self w
    = (Ret sentinel_outline, w').
Proof.
  intros Hc Ht Hl Hr. unfold attempt, bind, call at 1.
  destruct (Ht (reads w)) as [r [n1 [E V]]]. rewrite E.
  unfold accepted at 1. rewrite V.
  match goal with
  | |- context [time_left clock self ?w'] =>
      destruct (time_left_returns clock self w') as [t [n2 [Et _]]]; rewrite Et; clear Et
  end.
  cbn [reads events console].
  destruct (Qgtb t 5).
  - unfold call at 1. cbn [reads events console].
    destruct (Hl n2) as [r2 [n3 [E2 V2]]]. rewrite E2.
    unfold ret at 1. unfold accepted at 1. rewrite V2.
    reject_pattern_stage Hr.
  - unfold ret at 1. reject_pattern_stage Hr.
Qed.
End Rejected.

Lemma pattern_rejects_no_space (doc : Document) :
  (forall p, In p (firstn 50 (doc_pages doc)) -> no_space (page_text p) = true) ->
  exists o,
    _extract_with_regex_fallback doc = Ret (Some o) /\ _validate_result (Some o) = false.
Proof.
  intros Hp.
  assert (Hnone : regex_headings (all_text_of doc) = []).
  { apply regex_headings_need_space. unfold all_text_of.
    apply concat_pages_no_space; [exact Hp | reflexivity]. }
  destruct (regex_fallback_cases doc) as [[E _]|[e [m [_ [Hin _]]]]].
  - eexists. split; [exact E|].
    unfold _validate_result, regex_outline. cbn [outline].
    rewrite Hnone. reflexivity.
  - exfalso. unfold regex_headings in Hnone. apply app_eq_nil in Hnone.
    destruct Hnone as [N1 N2]. apply map_eq_nil in N1. apply map_eq_nil in N2.
    unfold pass_matches in Hin. rewrite N1, N2 in Hin. exact Hin.
Qed.

Lemma pymupdf_no_fragments (clock : nat -> Q) (mode : list Q -> option Q)
      (self : Extractor) (doc : Document) (n : nat) :
  no_fragments doc ->
  exists n', _extract_with_pymupdf clock mode self doc n = (Ret (Some sentinel_outline), n').
Proof.
  intros Hnone.
  destruct (pymupdf_result clock mode self doc n) as [blocks [n1 [k [n' [Hscan [Hk E]]]]]].
  assert (Hb : blocks = []).
  { destruct (scan_pages_no_fragments clock self (firstn 50 (doc_pages doc))) with
        (page_num := 0) (all_blocks := @nil TextBlock) (n := n) as [n2 E2].
    - intros i p Hp. apply (Hnone i p). exact (In_firstn _ _ _ Hp).
    - rewrite E2 in Hscan. inversion Hscan. reflexivity. }
  subst blocks. destruct k; [|simpl in Hk; lia].
  exists n'. exact E.
Qed.



Lemma reading_zero_start (clock : nat -> Q) (mx t0 t : Q) :
  Qeq_bool t0 0 = true ->
  is_reading clock (mkExtractor mx (Some t0)) t -> t = (mx - 0)%Q.
Proof.
  intros Hz [k ->]. unfold remaining_at, _time_left. cbn [start_time truthy max_runtime].
  rewrite Hz. reflexivity.
Qed.

Lemma Qgtb_minus_zero (mx b : Q) : (b < mx)%Q -> Qgtb (mx - 0) b = true.
Proof.
  intros H. destruct (Qgtb (mx - 0) b) eqn:G; [reflexivity|]. exfalso.
  apply Qgtb_false_iff in G.
  assert (E : (mx - 0 == mx)%Q) by ring.
  rewrite E in G. exact (Qlt_not_le _ _ H G).
Qed.

(** X6.  When the clock reads 0 at the start of a run, [start_time] counts
    as unset: every value [_time_left()] gives the driver is [max_runtime],
    however long the strategies take; so, with a [max_runtime] above 5, a
    rejected MetadataStrategy candidate is always followed by
    LayoutStrategy, and a rejected LayoutStrategy candidate by
    PatternStrategy. *)
Theorem zero_start_time_disables_budget :
  forall (clock : nat -> Q)
         (toc_strategy layout_strategy regex_strategy : Extractor -> Clock (option Outline))
         (self0 : Extractor) (n : nat),
    Qeq_bool (clock n) 0 = true ->
    let evs :=
      events (snd (extract_outline clock toc_strategy layout_strategy regex_strategy
                                   self0 (new_world n))) in
    (forall t, In t (budgets evs) -> t = (max_runtime self0 - 0)%Q)
    /\ ((5 < max_runtime self0)%Q ->
        (forall r, In (Called MetadataStrategy (Ret r)) evs -> _validate_result r = false ->
                   was_called LayoutStrategy evs)
        /\ (forall r, In (Called LayoutStrategy (Ret r)) evs -> _validate_result r = false ->
                      was_called PatternStrategy evs)).
Proof.
  intros clock toc layout regex self0 n Hz evs. subst evs.
  destruct (extract_outline_shape clock toc layout regex self0 (new_world n) eq_refl)
    as [out [w' [Hshape Hrun]]].
  rewrite Hrun. clear Hrun. cbn [fst snd new_world events reads] in *.
  assert (Hread : forall t,
             is_reading clock (mkExtractor (max_runtime self0) (Some (clock n))) t ->
             t = (max_runtime self0 - 0)%Q).
  { intros t. apply reading_zero_start. exact Hz. }
  assert (Hgate : forall t b,
             is_reading clock (mkExtractor (max_runtime self0) (Some (clock n))) t ->
             Qgtb t b = false -> (b <= 5)%Q -> (5 < max_runtime self0)%Q -> False).
  { intros t b R G Hb H5. apply Hread in R. subst t.
    rewrite Qgtb_minus_zero in G; [discriminate G|].
    eapply Qle_lt_trans; eassumption. }
  assert (H15 : (1 <= 5)%Q) by (vm_compute; discriminate).
  assert (H55 : (5 <= 5)%Q) by apply Qle_refl.
  inversion Hshape as
      [e Ho He | r o A Ho He | r t e A R G Ho He | r t r2 o A R G A2 Ho He
       | r t r2 t' res3 out' A R G A2 R' G' Hres Ho He | r t r2 t' A R G A2 R' G' Ho He
       | r t t' res3 out' A R G R' G' Hres Ho He | r t t' A R G R' G' Ho He];
    subst; cbn [app] in *; rewrite <- He in *; clear He; cbn [budgets];
    (split;
     [ intros t0 Hin; cbn [In] in Hin;
       repeat (destruct Hin as [<-|Hin]; [apply Hread; assumption|]); destruct Hin
     | intros H5; split; intros r0 Hin V; in_events;
       try (exfalso;
            match goal with
            | R0 : is_reading _ _ ?t1, G0 : Qgtb ?t1 5 = false |- _ =>
                exact (Hgate _ _ R0 G0 H55 H5)
            | R0 : is_reading _ _ ?t1, G0 : Qgtb ?t1 1 = false |- _ =>
                exact (Hgate _ _ R0 G0 H15 H5)
            end);
       try (exfalso; apply accepted_valid in A; destruct A as [_ A]; congruence);
       try (exfalso; apply accepted_valid in A2; destruct A2 as [_ A2]; congruence);
       try (unfold was_called; eexists; cbn [In];
            first [ left; reflexivity | right; left; reflexivity
                  | right; right; left; reflexivity
                  | right; right; right; left; reflexivity
                  | right; right; right; right; left; reflexivity ]) ]).
Qed.

(** A clock that always reads 0: both fallbacks are tried. *)
Lemma zero_start_time_disables_budget_witness :
  called_strategies
    (events (snd (extract_outline (fun _ => 0%Q) finds_nothing finds_nothing finds_nothing
                                  (mkExtractor 10 None) (new_world 0))))
  = [MetadataStrategy; LayoutStrategy; PatternStrategy]
  /\ was_called LayoutStrategy
       (events (snd (extract_outline (fun _ => 0%Q) finds_nothing finds_nothing finds_nothing
                                     (mkExtractor 10 None) (new_world 0)))).
Proof.
  split; [vm_compute; reflexivity|].
  pose proof (@zero_start_time_disables_budget (fun _ => 0%Q) finds_nothing finds_nothing
                finds_nothing (mkExtractor 10 None) 0 eq_refl) as H.
  cbv zeta in H. destruct H as [_ H].
  destruct H as [H _]; [vm_compute; reflexivity|].
  apply (H None); [vm_compute; left; reflexivity | reflexivity].
Defined.

(* ================================================================== *)
(** ** Further properties of LayoutStrategy: pages, entries, title *)

Lemma collapse_from_length (b : bool) (s : pystr) :
  length (collapse_from b s) <= length s.
Proof.
  revert b. induction s as [|a s IH]; intros b; [reflexivity|].
  cbn [collapse_from]. destruct (isspace a).
  - destruct b; cbn [length]; [specialize (IH true); lia | specialize (IH true); lia].
  - cbn [length]. specialize (IH false). lia.
Qed.

Lemma lstrip_length (p : ascii -> bool) (s : pystr) : length (lstrip p s) <= length s.
Proof.
  destruct (lstrip_suffix p s) as [pre [H _]].
  rewrite H at 2. rewrite length_app. lia.
Qed.

Lemma rstrip_length (p : ascii -> bool) (s : pystr) : length (rstrip p s) <= length s.
Proof.
  destruct (rstrip_prefix p s) as [post [H _]].
  rewrite H at 2. rewrite length_app. lia.
Qed.

Lemma heading_clean_length (t : pystr) : length (heading_clean t) <= length t.
Proof.
  unfold heading_clean, strip_chars. rewrite re_sub_spaces.
  eapply Nat.le_trans; [apply rstrip_length|].
  eapply Nat.le_trans; [apply lstrip_length|].
  apply collapse_from_length.
Qed.

Section PrefixResult.
Variable clock : nat -> Q.
Variable mode : list Q -> option Q.
Variable self : Extractor.

(** What LayoutStrategy returns, from the pages it read and the blocks it
    got to. *)
Lemma pymupdf_prefix_result (doc : Document) (n : nat) :
  exists k j n',
    k <= Nat.min 50 (length (doc_pages doc))
    /\ j <= length (collected (firstn k (doc_pages doc)) 0)
    /\ _extract_with_pymupdf clock mode self doc n
       = (Ret (Some (mkOutline
                       (_extract_title (collected (firstn k (doc_pages doc)) 0)
                          (body_font_of mode (collected (firstn k (doc_pages doc)) 0)))
                       (_clean_headings
                          (sort heading_key_leb
                             (accepted_headings
                                (body_font_of mode (collected (firstn k (doc_pages doc)) 0))
                                (firstn j (collected (firstn k (doc_pages doc)) 0))))))),
          n')
    /\ (doc_pages doc <> [] -> 1 <= k)
    /\ (never_under clock self 0.5 -> k = Nat.min 50 (length (doc_pages doc)))
    /\ (never_under clock self 0.2 -> j = length (collected (firstn k (doc_pages doc)) 0)).
Proof.
  unfold _extract_with_pymupdf, bind.
  destruct (scan_pages_prefix clock self (firstn 50 (doc_pages doc)) 0 [] n)
    as [k [n1 [Hk [H1 [Hs Hall]]]]].
  rewrite Hs. cbn [app].
  rewrite length_firstn in Hk.
  assert (Ek : firstn k (firstn 50 (doc_pages doc)) = firstn k (doc_pages doc)).
  { rewrite firstn_firstn. f_equal. lia. }
  rewrite Ek in *.
  set (blocks := collected (firstn k (doc_pages doc)) 0).
  destruct (multilayer_result clock self blocks (body_font_of mode blocks) n1)
    as [j [n' [Hj [E2 Hall2]]]].
  rewrite E2. exists k, j, n'.
  split; [exact Hk|]. split; [exact Hj|]. split; [reflexivity|].
  split; [|split].
  - intros Hne. apply H1. destruct (doc_pages doc); [congruence | discriminate].
  - intros H. rewrite <- length_firstn. exact (Hall H).
  - exact Hall2.
Qed.
End PrefixResult.


Lemma candidate_source (body : Q) (b : TextBlock) (e : Entry) :
  In e (candidate body b) ->
  text e = strip (b_text b) /\ page e = b_page b
  /\ _heading_level b body = Some (level e)
  /\ _is_artifact (strip (b_text b)) = false
  /\ 3 <= length (strip (b_text b)) <= 150.
Proof.
  unfold candidate.
  destruct ((length (strip (b_text b)) <? 3) || (150 <? length (strip (b_text b)))
            || _is_artifact (strip (b_text b))) eqn:F; [intros []|].
  apply orb_false_iff in F. destruct F as [F F3].
  apply orb_false_iff in F. destruct F as [F1 F2].
  apply Nat.ltb_ge in F1, F2.
  destruct (_heading_level b body) as [lvl|]; [|intros []].
  intros [<-|[]]. cbn [text page level]. repeat split; auto.
Qed.

(** X8.  Every entry of an outline LayoutStrategy returns comes from a text
    block of a page it read: its page is the page of the block, between 1
    and the number of pages read (50 at most); its level is the one
    [_heading_level] gives the block against the body font size of the
    blocks read; the text of the block is no artifact and has between 3 and
    150 characters; the entry text is that text cleaned up, of 3 to 150
    characters. *)
Theorem layout_entry_provenance :
  forall (clock : nat -> Q) (mode : list Q -> option Q) (self : Extractor)
         (doc : Document) (n n' : nat) (o : Outline),
    _extract_with_pymupdf clock mode self doc n = (Ret (Some o), n') ->
    exists k : nat,
      k <= 50 /\ k <= length (doc_pages doc)
      /\ forall e, In e (outline o) ->
           (1 <= page e <= Z.of_nat k)%Z
           /\ 3 <= length (text e) <= 150
           /\ exists b,
                In b (collected (firstn k (doc_pages doc)) 0)
                /\ text e = heading_clean (strip (b_text b))
                /\ page e = b_page b
                /\ _heading_level b (body_font_of mode (collected (firstn k (doc_pages doc)) 0))
                   = Some (level e)
                /\ _is_artifact (strip (b_text b)) = false
                /\ 3 <= length (strip (b_text b)) <= 150.
Proof.
  intros clock mode self doc n n' o Hrun.
  destruct (pymupdf_prefix_result clock mode self doc n)
    as [k [j [n2 [Hk [Hj [E _]]]]]].
  rewrite E in Hrun. inversion Hrun; subst o n2. clear Hrun E.
  exists k. split; [lia|]. split; [lia|].
  cbn [outline]. intros e He.
  set (blocks := collected (firstn k (doc_pages doc)) 0) in *.
  unfold _clean_headings in He. apply clean_loop_kept in He.
  destruct He as [_ [L3 [l1 [h [l2 [Hsorted [-> _]]]]]]].
  assert (Hh : In h (accepted_headings (body_font_of mode blocks) (firstn j blocks))).
  { eapply Permutation_in; [apply Permutation_sym, (sort_perm heading_key_leb)|].
    rewrite Hsorted. apply in_or_app. right. left. reflexivity. }
  unfold accepted_headings in Hh. apply dedup_first_kept in Hh.
  destruct Hh as [_ [c1 [c2 [Hc _]]]].
  assert (Hc' : In h (flat_map (candidate (body_font_of mode blocks)) (firstn j blocks))).
  { rewrite Hc. apply in_or_app. right. left. reflexivity. }
  apply in_flat_map in Hc'. destruct Hc' as [b [Hb Hcand]].
  apply In_firstn in Hb.
  apply candidate_source in Hcand.
  destruct Hcand as [Ht [Hpage [Hlvl [Hart Hlen]]]].
  cbn [set_text text page level] in *.
  destruct (collected_pages _ _ _ Hb) as [Hrange _].
  rewrite length_firstn in Hrange.
  split; [rewrite Hpage; lia|].
  split.
  - split; [exact L3|].
    eapply Nat.le_trans; [apply heading_clean_length|]. rewrite Ht. lia.
  - exists b. rewrite Ht. repeat split; auto; lia.
Qed.

(** The heading of [one_heading] comes from its first span. *)
Lemma layout_entry_provenance_witness :
  exists k : nat,
    k <= 50 /\ k <= 1
    /\ forall e, In e [mkEntry H1 (str "Introduction") 1%Z] ->
         (1 <= page e <= Z.of_nat k)%Z /\ 3 <= length (text e) <= 150.
Proof.
  destruct (@layout_entry_provenance slow_clock mode_py38 (mkExtractor 10 None)
              one_heading 0 0
              (mkOutline (str "Introduction") [mkEntry H1 (str "Introduction") 1%Z]))
    as [k [H50 [H1 H]]]; [vm_compute; reflexivity|].
  exists k. split; [exact H50|]. split; [exact H1|].
  intros e He. destruct (H e He) as [Hp [Hl _]]. split; assumption.
Defined.

Lemma filter_both {A : Type} (f g : A -> bool) (l : list A) :
  filter g (filter f l) = filter (fun x => f x && g x) l.
Proof.
  induction l as [|a l IH]; [reflexivity|]. cbn [filter].
  destruct (f a); cbn [filter andb]; [destruct (g a)|]; rewrite IH; reflexivity.
Qed.

Lemma find_filter {A : Type} (f g : A -> bool) (l : list A) :
  find g (filter f l) = find (fun x => f x && g x) l.
Proof.
  induction l as [|a l IH]; [reflexivity|]. cbn [filter find].
  destruct (f a); cbn [find andb]; [destruct (g a)|]; auto.
Qed.

Lemma Qle_bool_total (x y : Q) : Qle_bool x y = false -> Qle_bool y x = true.
Proof.
  intros H. apply Qle_bool_iff.
  destruct (Qlt_le_dec x y) as [Hlt|Hle]; [|exact Hle].
  apply Qlt_le_weak, Qle_bool_iff in Hlt. congruence.
Qed.

Lemma title_key_leb_total (a b : TextBlock) :
  title_key_leb a b = false -> title_key_leb b a = true.
Proof.
  unfold title_key_leb. intros H.
  apply orb_false_iff in H. destruct H as [H1 H2].
  apply Z.ltb_ge in H1.
  destruct (b_page b <? b_page a)%Z eqn:E; [reflexivity|]. apply Z.ltb_ge in E.
  assert (Heq : b_page a = b_page b) by lia.
  rewrite Heq, Z.eqb_refl in *. cbn [andb orb] in *.
  apply Qle_bool_total. exact H2.
Qed.

Lemma title_key_leb_refl (a : TextBlock) : title_key_leb a a = true.
Proof.
  destruct (title_key_leb a a) eqn:E; [reflexivity|].
  pose proof (title_key_leb_total _ _ E) as E'. congruence.
Qed.

Lemma title_key_leb_trans (a b c : TextBlock) :
  title_key_leb a b = true -> title_key_leb b c = true -> title_key_leb a c = true.
Proof.
  unfold title_key_leb. intros H1 H2.
  apply orb_true_iff in H1, H2. apply orb_true_iff.
  destruct H1 as [H1|H1]; destruct H2 as [H2|H2];
    repeat match goal with
           | H : (_ && _) = true |- _ => apply andb_true_iff in H; destruct H
           | H : (_ <? _)%Z = true |- _ => apply Z.ltb_lt in H
           | H : (_ =? _)%Z = true |- _ => apply Z.eqb_eq in H
           end.
  - left. apply Z.ltb_lt. lia.
  - left. apply Z.ltb_lt. lia.
  - left. apply Z.ltb_lt. lia.
  - right. apply andb_true_iff. split; [apply Z.eqb_eq; lia|].
    match goal with
    | Ha : Qle_bool _ _ = true, Hb : Qle_bool _ _ = true |- _ =>
        apply Qle_bool_iff in Ha, Hb; apply Qle_bool_iff; eapply Qle_trans; eassumption
    end.
Qed.

(** The head of a sorted list is a least element of the list sorted. *)
Lemma sort_head_least (l : list TextBlock) (c : TextBlock) (rest : list TextBlock) :
  sort title_key_leb l = c :: rest ->
  In c l /\ forall c', In c' l -> title_key_leb c c' = true.
Proof.
  intros E.
  pose proof (sort_perm title_key_leb l) as P.
  assert (S : StronglySorted (key_le title_key_leb) (sort title_key_leb l)).
  { apply Sorted_StronglySorted.
    - intros x y z. apply title_key_leb_trans.
    - apply sort_sorted. exact title_key_leb_total. }
  rewrite E in *. split.
  - eapply Permutation_in; [apply Permutation_sym; exact P | left; reflexivity].
  - intros c' Hc'. apply (Permutation_in _ P) in Hc'.
    destruct Hc' as [<-|Hc']; [apply title_key_leb_refl|].
    inversion S as [|x xs _ Hall]; subst. rewrite Forall_forall in Hall.
    exact (Hall _ Hc').
Qed.

(** X9.  The title LayoutStrategy gives has six characters or more.  It is
    the text of a title candidate (a block of the first three pages, of more
    than 5 and less than 200 characters, whose size is larger than the sum of
    the body size and 2, the sum being the one of doubles) whose
    [(page, top)] position no other candidate precedes.  Without candidates
    it is the text of the first block of the first three pages that has more
    than 10 characters, and "Untitled Document" when there is none.  The
    rounding of the sum decides: with a body size of 14.1 a block of size
    16.1, larger than the exact sum, is no candidate, since 14.1 + 2 rounds
    to 16.1, and the title is the text of the first long block. *)
Theorem extract_title_cases :
  (forall (blocks : list TextBlock) (body_font_size : Q),
    let title_ := _extract_title blocks body_font_size in
    6 <= length title_
    /\ ((exists c,
           In c blocks /\ title_candidate body_font_size c = true /\ title_ = b_text c
           /\ forall c', In c' blocks -> title_candidate body_font_size c' = true ->
                         title_key_leb c c' = true)
        \/ ((forall c, In c blocks -> title_candidate body_font_size c = false)
            /\ ((exists l1 b l2,
                   blocks = l1 ++ b :: l2
                   /\ (b_page b <= 3)%Z /\ 10 < length (b_text b) /\ title_ = b_text b
                   /\ forall b', In b' l1 -> (b_page b' <= 3)%Z -> length (b_text b') <= 10)
                \/ (title_ = untitled
                    /\ forall b, In b blocks -> (b_page b <= 3)%Z ->
                                 length (b_text b) <= 10)))))
  /\ (forall (body_font_size : Q) (c : TextBlock),
        title_candidate body_font_size c = true <->
        (b_page c <= 3)%Z
        /\ float_lt (float_add (to_float body_font_size) (to_float 2))
                    (to_float (b_font_size c)) = true
        /\ 5 < length (b_text c) < 200)
  /\ (let plain := mkTextBlock (str "Body text of the page") 1 14.1 0 (0, 0, 0, 0)%Q in
      let large := mkTextBlock (str "Sixteen point one") 1 16.1 0 (0, 20, 0, 0)%Q in
      (float_value (to_float 14.1) + 2 < float_value (to_float 16.1))%Q
      /\ float_add (to_float 14.1) (to_float 2) = to_float 16.1
      /\ title_candidate 14.1 large = false
      /\ _extract_title [plain; large] 14.1 = str "Body text of the page").
Proof.
  split; [|split].
  2:{ intros body c. unfold title_candidate.
      rewrite !andb_true_iff, Z.leb_le, !Nat.ltb_lt. tauto. }
  2:{ cbv zeta. split; [vm_compute; reflexivity|].
      split; [vm_compute; reflexivity|]. split; vm_compute; reflexivity. }
  intros blocks body. cbv zeta. unfold _extract_title.
  rewrite filter_both, find_filter.
  change (fun x : TextBlock =>
            (b_page x <=? 3)%Z
            && (float_lt (float_add (to_float body) (to_float 2))
                         (to_float (b_font_size x))
                && (5 <? length (b_text x)) && (length (b_text x) <? 200)))
    with (title_candidate body).
  destruct (sort title_key_leb (filter (title_candidate body) blocks)) as [|c rest] eqn:S.
  - assert (Hnone : forall c, In c blocks -> title_candidate body c = false).
    { intros c Hc. destruct (title_candidate body c) eqn:T; [|reflexivity].
      assert (Hf : In c (filter (title_candidate body) blocks))
        by (apply filter_In; split; assumption).
      apply (Permutation_in _ (sort_perm title_key_leb _)) in Hf.
      rewrite S in Hf. destruct Hf. }
    destruct (find (fun x => (b_page x <=? 3)%Z && (10 <? length (b_text x))) blocks)
      as [b|] eqn:F.
    + apply find_first in F. destruct F as [l1 [l2 [E [Hb Hl1]]]].
      apply andb_true_iff in Hb. destruct Hb as [Hb1 Hb2].
      apply Z.leb_le in Hb1. apply Nat.ltb_lt in Hb2.
      split; [lia|]. right. split; [exact Hnone|]. left.
      exists l1, b, l2. repeat split; auto.
      intros b' Hin Hp. specialize (Hl1 b' Hin).
      apply andb_false_iff in Hl1. destruct Hl1 as [Hl1|Hl1].
      * apply Z.leb_gt in Hl1. lia.
      * apply Nat.ltb_ge in Hl1. exact Hl1.
    + split; [vm_compute; lia|]. right. split; [exact Hnone|]. right.
      split; [reflexivity|]. intros b Hin Hp.
      pose proof (find_none _ _ F b Hin) as Hb. cbv beta in Hb.
      apply andb_false_iff in Hb. destruct Hb as [Hb|Hb].
      * apply Z.leb_gt in Hb. lia.
      * apply Nat.ltb_ge in Hb. exact Hb.
  - apply sort_head_least in S. destruct S as [Hc Hleast].
    apply filter_In in Hc. destruct Hc as [Hc Tc].
    assert (L : 6 <= length (b_text c)).
    { unfold title_candidate in Tc.
      apply andb_true_iff in Tc. destruct Tc as [_ Tc].
      apply andb_true_iff in Tc. destruct Tc as [Tc _].
      apply andb_true_iff in Tc. destruct Tc as [_ Tc].
      apply Nat.ltb_lt in Tc. lia. }
    split; [exact L|]. left. exists c. repeat split; auto.
    intros c' Hc' Tc'. apply Hleast. apply filter_In. split; assumption.
Qed.

(* ================================================================== *)
(** ** Cleaning twice *)

Lemma spaces_only_app (a b : pystr) :
  spaces_only (a ++ b) = spaces_only a && spaces_only b.
Proof. unfold spaces_only. apply forallb_app. Qed.

Lemma collapse_spaces_only (b : bool) (s : pystr) :
  spaces_only (collapse_from b s) = true.
Proof.
  revert b. induction s as [|a s IH]; intros b; [reflexivity|].
  cbn [collapse_from]. destruct (isspace a) eqn:E.
  - destruct b; [apply IH|].
    change (spaces_only (space :: collapse_from true s))
      with ((negb (isspace space) || Ascii.eqb space space)
            && spaces_only (collapse_from true s)).
    rewrite Ascii.eqb_refl, orb_true_r. apply IH.
  - change (spaces_only (a :: collapse_from false s))
      with ((negb (isspace a) || Ascii.eqb a space)
            && spaces_only (collapse_from false s)).
    rewrite E. apply IH.
Qed.

Lemma lstrip_spaces_only (p : ascii -> bool) (s : pystr) :
  spaces_only s = true -> spaces_only (lstrip p s) = true.
Proof.
  destruct (lstrip_suffix p s) as [pre [H _]]. intros Hs.
  rewrite H, spaces_only_app in Hs. apply andb_true_iff in Hs. tauto.
Qed.

Lemma rstrip_spaces_only (p : ascii -> bool) (s : pystr) :
  spaces_only s = true -> spaces_only (rstrip p s) = true.
Proof.
  destruct (rstrip_prefix p s) as [post [H _]]. intros Hs.
  rewrite H, spaces_only_app in Hs. apply andb_true_iff in Hs. tauto.
Qed.

Lemma lstrip_fixed (p : ascii -> bool) (s : pystr) :
  first_sat p s = false -> lstrip p s = s.
Proof. destruct s as [|a s]; [reflexivity|]. cbn. intros ->. reflexivity. Qed.

Lemma rstrip_fixed (p : ascii -> bool) (s : pystr) :
  last_sat p s = false -> rstrip p s = s.
Proof.
  unfold last_sat, rstrip. intros H. rewrite (lstrip_fixed _ _ H). apply rev_involutive.
Qed.

Lemma collapse_fixed_both (s : pystr) :
  spaces_only s = true -> has_ws_run s = false ->
  collapse_from false s = s
  /\ (first_sat isspace s = false -> collapse_from true s = s).
Proof.
  induction s as [|a s IH]; [split; reflexivity|].
  intros Hs Hr.
  change (spaces_only (a :: s))
    with ((negb (isspace a) || Ascii.eqb a space) && spaces_only s) in Hs.
  apply andb_true_iff in Hs. destruct Hs as [Ha Hs].
  rewrite has_ws_run_cons in Hr. apply orb_false_iff in Hr. destruct Hr as [Hr1 Hr2].
  destruct (IH Hs Hr2) as [IH1 IH2].
  cbn [collapse_from first_sat]. destruct (isspace a) eqn:E.
  - cbn [negb orb andb] in Ha, Hr1. apply Ascii.eqb_eq in Ha. subst a.
    split; [|discriminate]. rewrite (IH2 Hr1). reflexivity.
  - rewrite IH1. split; reflexivity.
Qed.

Lemma collapse_fixed (s : pystr) :
  spaces_only s = true -> has_ws_run s = false -> collapse_ws s = s.
Proof. intros Hs Hr. exact (proj1 (collapse_fixed_both s Hs Hr)). Qed.

Lemma cleaned_twice (chars raw : pystr) :
  strip_chars chars (collapse_ws (strip_chars chars (collapse_ws raw)))
  = strip_chars chars (collapse_ws raw).
Proof.
  set (t := strip_chars chars (collapse_ws raw)).
  assert (Hs : spaces_only t = true).
  { unfold t, strip_chars. apply rstrip_spaces_only, lstrip_spaces_only.
    apply collapse_spaces_only. }
  assert (Hr : has_ws_run t = false).
  { unfold t, strip_chars. apply strip_no_run. apply collapse_no_run. }
  rewrite (collapse_fixed t Hs Hr).
  destruct (strip_both_ends (fun c => mem_char c chars) (collapse_ws raw)) as [Hf Hl].
  fold (strip_chars chars (collapse_ws raw)) in Hf, Hl. fold t in Hf, Hl.
  unfold strip_chars at 1. rewrite (lstrip_fixed _ _ Hf). apply rstrip_fixed. exact Hl.
Qed.

Lemma heading_clean_twice (t : pystr) :
  heading_clean (heading_clean t) = heading_clean t.
Proof. unfold heading_clean. rewrite !re_sub_spaces. apply cleaned_twice. Qed.

Lemma toc_clean_twice (t : pystr) : toc_clean (toc_clean t) = toc_clean t.
Proof. unfold toc_clean. rewrite !re_sub_spaces. apply cleaned_twice. Qed.

Lemma clean_loop_fixed (l : list Entry) :
  forall seen,
    (forall e, In e l ->
       heading_clean (text e) = text e /\ 3 <= length (text e) /\ ~ In (text e) seen) ->
    NoDup (map text l) ->
    clean_loop l seen = l.
Proof.
  induction l as [|h l IH]; intros seen Hall Hnd; [reflexivity|].
  cbn [clean_loop]. destruct (Hall h (in_eq _ _)) as [Hc [H3 Hseen]].
  rewrite Hc.
  inversion Hnd as [|x xs Hnot Hnd']; subst.
  replace (negb (length (text h) =? 0)) with true
    by (symmetry; apply negb_true_iff, Nat.eqb_neq; lia).
  replace (str_mem (text h) seen) with false
    by (symmetry; destruct (str_mem (text h) seen) eqn:S; [|reflexivity];
        apply str_mem_In in S; contradiction).
  replace (3 <=? length (text h)) with true by (symmetry; apply Nat.leb_le; exact H3).
  cbn [negb andb].
  rewrite IH.
  - destruct h; reflexivity.
  - intros e He. destruct (Hall e (in_cons _ _ _ He)) as [Hc' [H3' Hseen']].
    split; [exact Hc'|]. split; [exact H3'|].
    intros [Heq|Hin]; [|contradiction].
    apply Hnot. rewrite Heq. apply in_map. exact He.
  - exact Hnd'.
Qed.

(** X10.  The cleanup pass of LayoutStrategy is idempotent, and so is its
    cleaning of a text: cleaning an outline that was cleaned changes
    nothing, no entry is dropped or merged. *)
Theorem clean_headings_idempotent :
  (forall headings : list Entry,
     _clean_headings (_clean_headings headings) = _clean_headings headings)
  /\ (forall t : pystr, heading_clean (heading_clean t) = heading_clean t).
Proof.
  split; [|exact heading_clean_twice].
  intros hs. unfold _clean_headings. apply clean_loop_fixed.
  - intros e He. apply clean_loop_kept in He.
    destruct He as [_ [H3 [l1 [h [l2 [_ [-> _]]]]]]].
    cbn [set_text text] in *. split; [apply heading_clean_twice|].
    split; [exact H3 | intros []].
  - apply clean_loop_NoDup.
Qed.

(* ================================================================== *)
(** ** Further properties of MetadataStrategy *)

Lemma toc_level_number (l : Level) : toc_level (level_number l) = l.
Proof. destruct l; reflexivity. Qed.

Lemma toc_loop_entries (toc : list (Z * pystr * Z)) (e : Entry) :
  In e (toc_loop toc) ->
  toc_clean (text e) = text e /\ 3 <= length (text e) <= 150.
Proof.
  induction toc as [|[[lvl raw] pg] toc IH]; [intros []|].
  cbn [toc_loop].
  destruct ((length (toc_clean raw) =? 0) || (length (toc_clean raw) <? 3)
            || (150 <? length (toc_clean raw))) eqn:C; [exact IH|].
  intros [<-|Hin]; [|apply IH; exact Hin].
  cbn [text]. split; [apply toc_clean_twice|].
  apply orb_false_iff in C. destruct C as [C C3].
  apply orb_false_iff in C. destruct C as [_ C2].
  apply Nat.ltb_ge in C2, C3. lia.
Qed.

Lemma toc_loop_fixed (l : list Entry) :
  (forall e, In e l -> toc_clean (text e) = text e /\ 3 <= length (text e) <= 150) ->
  toc_loop (map (fun e => (level_number (level e), text e, page e)) l) = l.
Proof.
  induction l as [|e l IH]; intros Hall; [reflexivity|].
  cbn [map toc_loop]. destruct (Hall e (in_eq _ _)) as [Hc [H3 H150]].
  rewrite Hc.
  replace (length (text e) =? 0) with false by (symmetry; apply Nat.eqb_neq; lia).
  replace (length (text e) <? 3) with false by (symmetry; apply Nat.ltb_ge; lia).
  replace (150 <? length (text e)) with false by (symmetry; apply Nat.ltb_ge; lia).
  cbn [orb]. rewrite toc_level_number, IH.
  - destruct e; reflexivity.
  - intros e' He'. apply Hall. right. exact He'.
Qed.

(** X11.  An outline MetadataStrategy returns is a fixed point: given back
    as the bookmarks of a document (levels H1, H2, H3 as the nesting levels
    1, 2, 3), it is returned unchanged, title included. *)
Theorem metadata_round_trip :
  forall (doc : Document) (o : Outline) (pages : list Page),
    _extract_with_toc doc = Some o ->
    _extract_with_toc (mkDocument (as_bookmarks o) pages) = Some o.
Proof.
  intros doc o pages H. unfold _extract_with_toc in H.
  destruct (doc_toc doc) as [|item toc]; [discriminate|].
  pose proof (toc_loop_entries (item :: toc)) as Hent.
  destruct (toc_loop (item :: toc)) as [|first rest]; [discriminate|].
  inversion H; subst o. clear H.
  unfold _extract_with_toc, as_bookmarks. cbn [doc_toc outline].
  rewrite (toc_loop_fixed (first :: rest) Hent).
  reflexivity.
Qed.

(** The outline made of two bookmarks, given back as bookmarks. *)
Lemma metadata_round_trip_witness :
  _extract_with_toc
    (mkDocument [(1%Z, str "Intro", 1%Z); (2%Z, str "Background", 2%Z)] [])
  = Some (mkOutline (str "Intro")
            [mkEntry H1 (str "Intro") 1%Z; mkEntry H2 (str "Background") 2%Z]).
Proof.
  apply (@metadata_round_trip two_bookmarks
           (mkOutline (str "Intro")
              [mkEntry H1 (str "Intro") 1%Z; mkEntry H2 (str "Background") 2%Z]) []).
  vm_compute. reflexivity.
Defined.

(* ================================================================== *)
(** ** Artifacts *)

Section ArtifactPatterns.
Variable inp : pystr.

(** A literal matches where it is a prefix. *)
Lemma rmatch_literal (l : pystr) :
  forall k s c,
    rmatch inp (cat_list (map Lit1 l)) k s c
    = if is_prefix l s then k (skipn (length l) s) c else None.
Proof.
  induction l as [|x l IH]; intros k s c; [reflexivity|].
  destruct l as [|y l].
  - cbn [map cat_list Lit1 rmatch is_prefix length skipn].
    destruct s as [|a s]; [reflexivity|].
    rewrite andb_true_r. reflexivity.
  - change (cat_list (map Lit1 (x :: y :: l)))
      with (Cat (Lit1 x) (cat_list (map Lit1 (y :: l)))).
    cbn [rmatch Lit1]. destruct s as [|a s]; [reflexivity|].
    cbn [is_prefix length skipn]. destruct (Ascii.eqb x a); [|reflexivity].
    rewrite IH. reflexivity.
Qed.

(** A greedy repetition of one character class takes the longest run when
    what follows cannot start inside the run. *)
Lemma star_class_then (p : ascii -> bool) (k : pystr -> captures -> mres) :
  (forall a s c, p a = true -> k (a :: s) c = None) ->
  forall n s c, length s <= n ->
    star_loop (rmatch inp (Chr p)) true k n s c = k (lstrip p s) c.
Proof.
  intros Hk. induction n as [|n IH]; intros s c Hn.
  - destruct s; [reflexivity | simpl in Hn; lia].
  - destruct s as [|a s]; [reflexivity|].
    cbn [star_loop rmatch lstrip]. destruct (p a) eqn:E; [|reflexivity].
    replace (length s <? length (a :: s)) with true
      by (symmetry; apply Nat.ltb_lt; simpl; lia).
    rewrite IH by (simpl in Hn; lia).
    destruct (k (lstrip p s) c) eqn:K; [reflexivity|].
    apply Hk. exact E.
Qed.

Lemma link_at (s : pystr) :
  match match_at inp re_link s with Some _ => true | None => false end
  = existsb (fun mark => is_prefix mark s) link_marks.
Proof.
  unfold match_at, re_link, Lit, link_marks. cbn [rmatch existsb].
  rewrite !rmatch_literal.
  destruct (is_prefix (str "http") s); [reflexivity|].
  destruct (is_prefix (str "www.") s); [reflexivity|].
  destruct (is_prefix (str "@") s); reflexivity.
Qed.

Lemma search_link (s : pystr) :
  matched (search_from inp re_link s) = existsb (fun mark => contains mark s) link_marks.
Proof.
  induction s as [|a s IH].
  - reflexivity.
  - cbn [search_from]. pose proof (link_at (a :: s)) as H.
    destruct (match_at inp re_link (a :: s)) as [[rest c]|].
    + cbn [matched]. unfold link_marks in *. cbn [existsb contains] in *.
      rewrite !orb_false_r in H.
      destruct (is_prefix (str "http") (a :: s)); [reflexivity|].
      destruct (is_prefix (str "www.") (a :: s)); [rewrite !orb_true_r; reflexivity|].
      destruct (is_prefix (str "@") (a :: s)); [rewrite !orb_true_r; reflexivity|].
      discriminate H.
    + rewrite IH. unfold link_marks in *. cbn [existsb contains] in *.
      rewrite !orb_false_r in H. symmetry in H.
      apply orb_false_iff in H. destruct H as [H1 H].
      apply orb_false_iff in H. destruct H as [H2 H3].
      rewrite H1, H2, H3. reflexivity.
Qed.
End ArtifactPatterns.

Lemma digit_not_newline (a : ascii) : isdigit a = true -> Ascii.eqb a newline = false.
Proof.
  destruct (Ascii.eqb a newline) eqn:E; [|reflexivity].
  apply Ascii.eqb_eq in E. subst a. intros H. discriminate H.
Qed.

Lemma all_digits_plain (t : pystr) :
  matched (re_match re_all_digits t) = digits_only t.
Proof.
  unfold re_match, match_at, re_all_digits, Plus, digit.
  cbn [cat_list rmatch]. rewrite Nat.eqb_refl.
  destruct t as [|a t]; [reflexivity|].
  cbn [digits_only]. destruct (isdigit a); [|reflexivity].
  assert (Hk : forall d s c, isdigit d = true ->
                             rmatch (a :: t) Eos (@accept) (d :: s) c = None).
  { intros d s c Hd. cbn [rmatch]. destruct s as [|d' s]; [|reflexivity].
    rewrite (digit_not_newline d Hd). reflexivity. }
  pose proof (@star_class_then (a :: t) isdigit (rmatch (a :: t) Eos (@accept)) Hk
                (length t) t [] (le_n _)) as S.
  cbn [rmatch] in S. rewrite S. clear S Hk.
  cbn [andb]. destruct (lstrip isdigit t) as [|b [|b' rest]]; try reflexivity.
  destruct (Ascii.eqb b newline); reflexivity.
Qed.

Lemma str_lower_app (a b : pystr) : str_lower (a ++ b) = str_lower a ++ str_lower b.
Proof. unfold str_lower. apply map_app. Qed.

(** A text the pattern [^Page \d+] matches, in any case, contains "page". *)
Lemma page_number_has_word (t : pystr) :
  matched (re_match re_page_number t) = true ->
  contains (str "page") (str_lower t) = true.
Proof.
  unfold re_match. destruct (match_at t re_page_number t) as [[rest c]|] eqn:E;
    [intros _ | discriminate].
  apply match_at_sound in E. unfold re_page_number in E.
  apply matches_cat_list in E. destruct E as [s1 [c1 [H1 E]]].
  inversion H1; subst.
  apply matches_cat_list in E. destruct E as [s2 [c2 [H2 _]]].
  apply matches_LitI in H2. destruct H2 as [l [-> [Hl _]]].
  rewrite str_lower_app, Hl. reflexivity.
Qed.

(** X12.  [_is_artifact] without patterns: a text is an artifact exactly
    when it consists of digits only, or contains, in any case, "copyright",
    "all rights reserved", "page" or "table of contents", or contains
    "http", "www." or "@".  The test for a leading "Page" followed by
    digits never decides: such a text contains "page". *)
Theorem is_artifact_without_patterns :
  (forall t : pystr, _is_artifact t = is_artifact_plain t)
  /\ (forall t : pystr,
        matched (re_match re_page_number t) = true ->
        existsb (fun artifact => contains artifact (str_lower t)) artifact_words = true).
Proof.
  assert (Hpage : forall t : pystr,
             matched (re_match re_page_number t) = true ->
             existsb (fun artifact => contains artifact (str_lower t)) artifact_words = true).
  { intros t H. apply page_number_has_word in H.
    unfold artifact_words. cbn [existsb]. rewrite H, !orb_true_r. reflexivity. }
  split; [|exact Hpage].
  intros t. unfold _is_artifact, is_artifact_plain, re_search.
  rewrite search_link, all_digits_plain.
  destruct (digits_only t); [reflexivity|]. cbn [orb].
  destruct (matched (re_match re_page_number t)) eqn:P.
  - rewrite (Hpage t P). reflexivity.
  - destruct (existsb (fun artifact => contains artifact (str_lower t)) artifact_words);
      [reflexivity|].
    cbn [orb]. destruct (existsb (fun mark => contains mark t) link_marks); reflexivity.
Qed.

(* ================================================================== *)
(** ** Time only runs out *)

Lemma budgets_app (a b : list Event) : budgets (a ++ b) = budgets a ++ budgets b.
Proof.
  induction a as [|[s r|t] a IH]; cbn [app budgets]; [reflexivity | exact IH |].
  rewrite IH. reflexivity.
Qed.

Section BudgetOrder.
Variable clock : nat -> Q.
Variables toc_strategy layout_strategy regex_strategy :
  Extractor -> Clock (option Outline).
Variable self : Extractor.
Hypothesis toc_advances : advances toc_strategy.
Hypothesis layout_advances : advances layout_strategy.

Lemma _time_left_exact (n : nat) :
  exists n', _time_left clock self n = (Ret (remaining_at clock self n), n') /\ n <= n'.
Proof.
  unfold remaining_at, _time_left.
  destruct (start_time self) as [t0|]; cbn; [|eauto].
  destruct (Qeq_bool t0 0); cbn; eauto.
Qed.

Lemma time_left_exact (w : World) :
  exists n',
    time_left clock self w
    = (Ret (remaining_at clock self (reads w)),
       mkWorld n' (events w ++ [Budget (remaining_at clock self (reads w))]) (console w))
    /\ reads w <= n'.
Proof.
  unfold time_left, on_clock.
  destruct (_time_left_exact (reads w)) as [n' [E H]]. rewrite E. cbn.
  exists n'. split; [reflexivity | exact H].
Qed.

Hypothesis started : start_time self <> None.

Ltac budget_done :=
  unfold ret; cbn [snd events]; rewrite ?budgets_app; cbn [budgets];
  rewrite ?app_nil_r; rewrite <- ?app_assoc; cbn [app].

(** A write leaves the events as they are. *)
Ltac after_write cases :=
  let r := fresh "r" in
  let w1 := fresh "w" in
  let E := fresh "E" in
  let Hev := fresh "Hev" in
  destruct cases as [r [w1 [E [Hev _]]]];
  rewrite E; clear E; destruct r as [[]|?]; unfold ret; cbn [snd];
  rewrite Hev; cbn [events].

(** The values [_time_left()] gives the driver are taken at readings of
    the clock that follow each other. *)
Lemma attempt_budget_order (w : World) :
  exists l,
    budgets (events (snd (attempt clock toc_strategy layout_strategy regex_strategy self w)))
    = budgets (events w) ++ l
    /\ (l = []
        \/ (exists k1, reads w <= k1 /\ l = [remaining_at clock self k1])
        \/ exists k1 k2,
             reads w <= k1 /\ k1 <= k2
             /\ l = [remaining_at clock self k1; remaining_at clock self k2]).
Proof.
  unfold attempt, bind, call at 1.
  pose proof (toc_advances self (reads w)) as A1.
  destruct (toc_strategy self (reads w)) as [[r|e] n1]; cbn [snd] in A1.
  2:{ exists []. split; [budget_done; reflexivity | left; reflexivity]. }
  destruct (accepted r) as [o|].
  { exists []. split; [|left; reflexivity].
    match goal with
    | |- context [_log_time clock self ?w'] =>
        after_write (log_time_cases clock self w' started)
    end; budget_done; reflexivity. }
  match goal with
  | |- context [time_left clock self ?w'] =>
      destruct (time_left_exact w') as [n2 [E A2]]; rewrite E; clear E
  end.
  cbn [reads events console] in *.
  set (t := remaining_at clock self n1).
  assert (Tail : forall n3 evs3 c3,
             n2 <= n3 ->
             budgets evs3 = budgets (events w) ++ [t] ->
             exists l,
               budgets
                 (events
                    (snd
                       ((remaining' <- time_left clock self ;;
                         fallback <-
                           (if Qgtb remaining' 1
                            then r0 <- call PatternStrategy (regex_strategy self) ;;
                                 ret (accepted r0)
                            else ret None) ;;
                         match fallback with
                         | Some o => _ <- _log_time clock self ;; ret o
                         | None => _ <- print ;; ret sentinel_outline
                         end) (mkWorld n3 evs3 c3))))
               = budgets (events w) ++ l
               /\ (l = []
                   \/ (exists k1, reads w <= k1 /\ l = [remaining_at clock self k1])
                   \/ exists k1 k2,
                        reads w <= k1 /\ k1 <= k2
                        /\ l = [remaining_at clock self k1; remaining_at clock self k2])).
  { intros n3 evs3 c3 H3 Hb. unfold bind.
    destruct (time_left_exact (mkWorld n3 evs3 c3)) as [n4 [E A4]]. rewrite E. clear E.
    cbn [reads events console] in *.
    exists [t; remaining_at clock self n3].
    split; [|right; right; exists n1, n3; split; [exact A1|]; split; [lia | reflexivity]].
    destruct (Qgtb (remaining_at clock self n3) 1).
    - unfold call. cbn [reads events console].
      destruct (regex_strategy self n4) as [[r3|e] n5]; cbn [ret].
      + destruct (accepted r3) as [o|].
        * match goal with
          | |- context [_log_time clock self ?w'] =>
              after_write (log_time_cases clock self w' started)
          end; budget_done; rewrite Hb, <- app_assoc; reflexivity.
        * match goal with
          | |- context [print ?w'] => after_write (print_cases_events w')
          end; budget_done; rewrite Hb, <- app_assoc; reflexivity.
      + budget_done. rewrite Hb, <- app_assoc. reflexivity.
    - cbn [ret].
      match goal with
      | |- context [print ?w'] => after_write (print_cases_events w')
      end; budget_done; rewrite Hb, <- app_assoc; reflexivity. }
  destruct (Qgtb t 5).
  - unfold call at 1. cbn [reads events console].
    pose proof (layout_advances self n2) as A3.
    destruct (layout_strategy self n2) as [[r2|e] n3]; cbn [snd ret] in *.
    + destruct (accepted r2) as [o|].
      * exists [t]. split; [|right; left; exists n1; split; [exact A1 | reflexivity]].
        match goal with
        | |- context [_log_time clock self ?w'] =>
            after_write (log_time_cases clock self w' started)
        end; budget_done; reflexivity.
      * apply Tail; [exact A3|]. budget_done. reflexivity.
    + exists [t]. split; [budget_done; reflexivity|].
      right. left. exists n1. split; [exact A1 | reflexivity].
  - cbn [ret]. apply Tail; [lia|]. budget_done. reflexivity.
Qed.
End BudgetOrder.

Lemma remaining_at_antitone (clock : nat -> Q) (self : Extractor) (k1 k2 : nat) :
  monotone clock -> k1 <= k2 ->
  (remaining_at clock self k2 <= remaining_at clock self k1)%Q.
Proof.
  intros Hm Hk. unfold remaining_at, _time_left.
  destruct (start_time self) as [t0|]; cbn; [|apply Qle_refl].
  destruct (Qeq_bool t0 0); cbn; [apply Qle_refl|].
  unfold Qminus. apply Qplus_le_r. apply Qopp_le_compat. apply Qplus_le_l.
  apply Hm. exact Hk.
Qed.

Lemma remaining_at_le_max (clock : nat -> Q) (mx : Q) (n k : nat) :
  monotone clock -> n <= k ->
  (remaining_at clock (mkExtractor mx (Some (clock n))) k <= mx)%Q.
Proof.
  intros Hm Hk. unfold remaining_at, _time_left. cbn.
  assert (E : (mx - 0 == mx)%Q) by ring.
  destruct (Qeq_bool (clock n) 0); cbn; [rewrite E; apply Qle_refl|].
  assert (H : (0 <= clock k - clock n)%Q).
  { unfold Qminus. rewrite <- (Qplus_opp_r (clock n)).
    apply Qplus_le_l. apply Hm. exact Hk. }
  rewrite <- E at 2. unfold Qminus. apply Qplus_le_r. apply Qopp_le_compat. exact H.
Qed.

Section Advances.
Variable clock : nat -> Q.
Variable mode : list Q -> option Q.
Variable self : Extractor.

Lemma scan_pages_advances (pages : list Page) :
  forall page_num all_blocks n,
    n <= snd (scan_pages clock self pages page_num all_blocks n).
Proof.
  induction pages as [|p pages IH]; intros i acc n; cbn [scan_pages]; [apply le_n|].
  unfold bind. destruct (_time_left_exact clock self n) as [n1 [E H]]. rewrite E.
  destruct (Qltb (remaining_at clock self n) 0.5); [exact H|].
  eapply Nat.le_trans; [exact H | apply IH].
Qed.

Lemma headings_loop_advances (body : Q) (blocks : list TextBlock) :
  forall headings seen n,
    n <= snd (headings_loop clock self blocks body headings seen n).
Proof.
  induction blocks as [|b blocks IH]; intros headings seen n; cbn [headings_loop];
    [apply le_n|].
  destruct (str_mem (strip (b_text b)) seen || (length (strip (b_text b)) <? 3)
            || (150 <? length (strip (b_text b))) || _is_artifact (strip (b_text b)));
    [apply IH|].
  unfold bind. destruct (_time_left_exact clock self n) as [n1 [E H]].
  destruct (_heading_level b body); cbv beta iota zeta; rewrite E;
    (destruct (Qltb (remaining_at clock self n) 0.2);
     [exact H | eapply Nat.le_trans; [exact H | apply IH]]).
Qed.

Lemma pymupdf_advances (doc : Document) (n : nat) :
  n <= snd (_extract_with_pymupdf clock mode self doc n).
Proof.
  unfold _extract_with_pymupdf, _extract_headings_multilayer, bind.
  pose proof (scan_pages_advances (firstn 50 (doc_pages doc)) 0 [] n) as H1.
  destruct (scan_pages_returns clock self (firstn 50 (doc_pages doc)) 0 [] n)
    as [blocks [n1 E]].
  rewrite E in *. cbn [snd] in H1.
  pose proof (headings_loop_advances (body_font_of mode blocks) blocks [] [] n1) as H2.
  destruct (headings_loop clock self blocks (body_font_of mode blocks) [] [] n1)
    as [[hs|e] n2]; cbn [snd ret] in *; lia.
Qed.
End Advances.

Lemma with_doc_advances (opened : outcome Document)
      (f : Extractor -> Document -> Clock (option Outline)) :
  (forall self doc n, n <= snd (f self doc n)) ->
  advances (fun self => with_doc opened (f self)).
Proof.
  intros Hf self n. destruct opened as [doc|e]; cbn [with_doc]; [apply Hf | apply le_n].
Qed.

(** X13.  With a clock that never goes back, the time left only runs out:
    every value [_time_left()] gives the driver is at most [max_runtime],
    the second is at most the first, and when the first (read once
    MetadataStrategy's candidate is rejected) is at most 1, no other
    strategy is called. *)
Theorem budget_never_grows :
  forall (clock : nat -> Q) (mode : list Q -> option Q) (opened : outcome Document)
         (self0 : Extractor) (n : nat),
    monotone clock ->
    let evs := events (snd (extract_outline_pdf clock mode opened self0 (new_world n))) in
    (forall t, In t (budgets evs) -> (t <= max_runtime self0)%Q)
    /\ (forall t t', budgets evs = [t; t'] -> (t' <= t)%Q)
    /\ (forall t, nth_error (budgets evs) 0 = Some t -> (t <= 1)%Q ->
                  called_strategies evs = [MetadataStrategy]).
Proof.
  intros clock mode opened self0 n Hm evs. subst evs.
  unfold extract_outline_pdf. rewrite extract_outline_events.
  cbn [reads events console new_world].
  set (self := mkExtractor (max_runtime self0) (Some (clock n))).
  set (toc := fun _ : Extractor => with_doc opened (fun doc => ret (_extract_with_toc doc))).
  set (layout := fun self1 : Extractor =>
                   with_doc opened (_extract_with_pymupdf clock mode self1)).
  set (regex := fun _ : Extractor =>
                  with_doc opened (fun doc => timeless (_extract_with_regex_fallback doc))).
  assert (A1 : advances toc).
  { apply (with_doc_advances opened (fun _ doc => ret (_extract_with_toc doc))).
    intros s d k. apply le_n. }
  assert (A2 : advances layout).
  { apply (with_doc_advances opened (fun s => _extract_with_pymupdf clock mode s)).
    intros s d k. apply pymupdf_advances. }
  assert (Hstart : start_time self <> None) by discriminate.
  pose proof (@attempt_budget_order clock toc layout regex self A1 A2 Hstart
                                    (mkWorld (S n) [] []))
    as Hb.
  pose proof (attempt_has_shape clock toc layout regex self (mkWorld (S n) [] [])
                                Hstart eq_refl) as Hshape.
  unfold has_shape in Hshape. cbn [reads events budgets app] in Hb, Hshape.
  revert Hb Hshape.
  generalize (fst (attempt clock toc layout regex self (mkWorld (S n) [] []))).
  generalize (events (snd (attempt clock toc layout regex self (mkWorld (S n) [] [])))).
  intros evs out Hb Hshape.
  destruct Hb as [l [Hl Hcases]].
  rewrite Hl.
  all: assert (Hmax : forall t, In t l -> (t <= max_runtime self0)%Q)
      by (intros t Hin;
          destruct Hcases as [->|[[k1 [H1 ->]]|[k1 [k2 [H1 [H2 ->]]]]]];
          [destruct Hin
          | destruct Hin as [<-|[]]; apply remaining_at_le_max; [exact Hm | lia]
          | destruct Hin as [<-|[<-|[]]]; apply remaining_at_le_max; (exact Hm || lia)]).
  all: assert (Hord : forall t t', l = [t; t'] -> (t' <= t)%Q)
      by (intros t t' El;
          destruct Hcases as [->|[[k1 [H1 ->]]|[k1 [k2 [H1 [H2 ->]]]]]];
          [discriminate El | discriminate El
          | inversion El; subst; apply remaining_at_antitone; assumption]).
  all: split; [exact Hmax|]; split; [exact Hord|].
  all: intros t Ht Ht1.
  all: inversion Hshape as
      [e0 Ho He | r o0 A Ho He | r t0 e0 A R G Ho He | r t0 r2 o0 A R G B Ho He
       | r t0 r2 t' res3 out' A R G B R' G' Hres Ho He | r t0 r2 t' A R G B R' G' Ho He
       | r t0 t' res3 out' A R G R' G' Hres Ho He | r t0 t' A R G R' G' Ho He];
    subst; cbn [app] in *;
      cbn [budgets called_strategies] in *; try reflexivity; exfalso;
      cbn [nth_error] in Ht; inversion Ht; subst.
  all: try (apply (Qgtb_le_false G); eapply Qle_trans; [exact Ht1 | vm_compute; discriminate]).
  all: apply (Qgtb_le_false G'); eapply Qle_trans; [apply Hord; reflexivity | exact Ht1].
Qed.

(** The run of [image_only] under [slow_clock]: 4, then -2 time units
    left. *)
Lemma budget_never_grows_witness :
  budgets (events (snd (extract_outline_pdf slow_clock mode_py38 (Ret image_only)
                                            (mkExtractor 10 None) (new_world 0))))
  = [4; -2]%Q
  /\ (-2 <= 4)%Q.
Proof.
  assert (Hm : monotone slow_clock).
  { intros i j Hij. unfold slow_clock. apply Qplus_le_r.
    apply Qmult_le_l; [reflexivity|]. rewrite <- Zle_Qle. lia. }
  split; [vm_compute; reflexivity|].
  apply (proj1 (proj2 (@budget_never_grows slow_clock mode_py38 (Ret image_only)
                         (mkExtractor 10 None) 0 Hm))).
  vm_compute. reflexivity.
Defined.

(* ================================================================== *)
(** ** Numbered texts *)

Section FirstAttempt.
Variable inp : pystr.

(** A greedy repetition of one character class succeeds when what follows
    succeeds after the longest run. *)
Lemma star_class_first (p : ascii -> bool) (k : pystr -> captures -> mres) :
  forall n s c, length s <= n ->
    k (lstrip p s) c <> None ->
    star_loop (rmatch inp (Chr p)) true k n s c <> None.
Proof.
  induction n as [|n IH]; intros s c Hn Hk.
  - destruct s; [exact Hk | simpl in Hn; lia].
  - destruct s as [|a s]; [exact Hk|].
    cbn [star_loop rmatch lstrip] in *. destruct (p a) eqn:E; [|exact Hk].
    replace (length s <? length (a :: s)) with true
      by (symmetry; apply Nat.ltb_lt; simpl; lia).
    specialize (IH s c ltac:(simpl in Hn; lia) Hk).
    match goal with
    | |- match ?x with _ => _ end <> None =>
        destruct x; [intros Hx; discriminate Hx | exfalso; apply IH; reflexivity]
    end.
Qed.

Lemma plus_class_first (p : ascii -> bool) (k : pystr -> captures -> mres)
      (a : ascii) (s : pystr) (c : captures) :
  p a = true -> k (lstrip p s) c <> None ->
  rmatch inp (Plus (Chr p)) k (a :: s) c <> None.
Proof.
  intros Ha Hk. unfold Plus. cbn [rmatch]. rewrite Ha.
  apply star_class_first; [apply le_n | exact Hk].
Qed.

(** An optional full stop: taken when it is there. *)
Lemma opt_stop_first (k : pystr -> captures -> mres) (s : pystr) (c : captures) :
  k (match s with
     | a :: s' => if Ascii.eqb "." a then s' else s
     | [] => s
     end) c <> None ->
  rmatch inp (Opt (Lit ".")) k s c <> None.
Proof.
  unfold Opt, Lit. cbn [str list_ascii_of_string map cat_list Lit1 rmatch star_loop].
  destruct s as [|a s]; [auto|].
  destruct (Ascii.eqb "." a); [|auto].
  replace (length s <? length (a :: s)) with true
    by (symmetry; apply Nat.ltb_lt; simpl; lia).
  intros Hk. destruct (k s c); [intros Hx; discriminate Hx | exfalso; apply Hk; reflexivity].
Qed.

Lemma alt_first (r1 r2 : regex) (k : pystr -> captures -> mres) (s : pystr) (c : captures) :
  rmatch inp r1 k s c <> None \/ rmatch inp r2 k s c <> None ->
  rmatch inp (Alt r1 r2) k s c <> None.
Proof.
  cbn [rmatch]. destruct (rmatch inp r1 k s c); [intros _ Hx; discriminate Hx|].
  intros [H|H]; [exfalso; apply H; reflexivity | exact H].
Qed.
End FirstAttempt.

Lemma lstrip_run (p : ascii -> bool) (pre rest : pystr) :
  forallb p pre = true -> first_sat p rest = false -> lstrip p (pre ++ rest) = rest.
Proof.
  induction pre as [|a pre IH]; intros Hp Hr.
  - cbn [app]. apply lstrip_fixed. exact Hr.
  - cbn [forallb] in Hp. apply andb_true_iff in Hp. destruct Hp as [Ha Hp].
    cbn [app lstrip]. rewrite Ha. apply IH; assumption.
Qed.

Lemma space_not_digit (a : ascii) : isspace a = true -> isdigit a = false.
Proof.
  destruct a as [[] [] [] [] [] [] [] []]; vm_compute; congruence.
Qed.

Lemma space_not_stop (a : ascii) : isspace a = true -> Ascii.eqb "." a = false.
Proof.
  destruct (Ascii.eqb "." a) eqn:E; [|reflexivity].
  apply Ascii.eqb_eq in E. subst a. intros H. discriminate H.
Qed.

(** What the patterns [^\d+\.\s+[A-Z]] and [^\d+\.\d+\s+[A-Z]] match. *)
Lemma num_upper_read (t : pystr) :
  matched (re_match re_num_upper t) = true ->
  exists d ds w rest,
    t = d :: ds ++ "."%char :: w :: rest
    /\ isdigit d = true /\ forallb isdigit ds = true /\ isspace w = true.
Proof.
  unfold re_match. destruct (match_at t re_num_upper t) as [[rest c]|] eqn:E;
    [intros _ | discriminate].
  apply match_at_sound in E. unfold re_num_upper in E.
  apply matches_cat_list in E. destruct E as [s1 [c1 [H1 E]]].
  inversion H1; subst.
  apply matches_cat_list in E. destruct E as [s2 [c2 [H2 E]]].
  apply matches_class_plus in H2. destruct H2 as [d [ds [-> [Hd [Hds _]]]]].
  apply matches_cat_list in E. destruct E as [s3 [c3 [H3 E]]].
  apply matches_Lit in H3. destruct H3 as [-> _].
  apply matches_cat_list in E. destruct E as [s4 [c4 [H4 _]]].
  apply matches_class_plus in H4. destruct H4 as [w [ws [-> [Hw _]]]].
  exists d, ds, w, (ws ++ s4). split; [reflexivity|]. auto.
Qed.

Lemma subnum_upper_read (t : pystr) :
  matched (re_match re_subnum_upper t) = true ->
  exists d ds e es w rest,
    t = d :: ds ++ "."%char :: e :: es ++ w :: rest
    /\ isdigit d = true /\ forallb isdigit ds = true
    /\ isdigit e = true /\ forallb isdigit es = true /\ isspace w = true.
Proof.
  unfold re_match. destruct (match_at t re_subnum_upper t) as [[rest c]|] eqn:E;
    [intros _ | discriminate].
  apply match_at_sound in E. unfold re_subnum_upper in E.
  apply matches_cat_list in E. destruct E as [s1 [c1 [H1 E]]].
  inversion H1; subst.
  apply matches_cat_list in E. destruct E as [s2 [c2 [H2 E]]].
  apply matches_class_plus in H2. destruct H2 as [d [ds [-> [Hd [Hds _]]]]].
  apply matches_cat_list in E. destruct E as [s3 [c3 [H3 E]]].
  apply matches_Lit in H3. destruct H3 as [-> _].
  apply matches_cat_list in E. destruct E as [s4 [c4 [H4 E]]].
  apply matches_class_plus in H4. destruct H4 as [e [es [-> [He [Hes _]]]]].
  apply matches_cat_list in E. destruct E as [s5 [c5 [H5 _]]].
  apply matches_class_plus in H5. destruct H5 as [w [ws [-> [Hw _]]]].
  exists d, ds, e, es, w, (ws ++ s5). split; [reflexivity|]. auto 10.
Qed.

Lemma matched_some (inp : pystr) (r : regex) :
  match_at inp r inp <> None -> matched (re_match r inp) = true.
Proof.
  unfold re_match. destruct (match_at inp r inp) as [[rest c]|]; [reflexivity|].
  intros H. contradiction.
Qed.

(** Both shapes of a numbered text fall under [numbered]. *)
Lemma numbered_covers (t : pystr) :
  matched (re_match re_num_upper t) = true
  \/ matched (re_match re_subnum_upper t) = true ->
  matched (re_match re_numbered t) = true.
Proof.
  intros H. apply matched_some. unfold match_at, re_numbered.
  match goal with
  | |- rmatch t (Cat Bos (Group 1 ?R)) _ t [] <> None => set (alternatives := R)
  end.
  cbn [rmatch]. rewrite Nat.eqb_refl.
  set (k1 := fun (s' : pystr) (c' : captures) =>
               accept s' ((1, firstn (length t - length s') t) :: c')).
  subst alternatives.
  assert (Hws : forall w rest c, isspace w = true ->
                                 rmatch t (Plus ws) k1 (w :: rest) c <> None).
  { intros w rest c Hw. apply plus_class_first; [exact Hw | discriminate]. }
  apply alt_first.
  destruct H as [H|H].
  - left. apply num_upper_read in H.
    destruct H as [d [ds [w [rest [-> [Hd [Hds Hw]]]]]]].
    change (cat_list [Plus digit; Opt (Lit "."); Plus ws])
      with (Cat (Plus digit) (Cat (Opt (Lit ".")) (Plus ws))).
    cbn [rmatch]. apply plus_class_first; [exact Hd|].
    rewrite (lstrip_run isdigit ds _ Hds) by reflexivity.
    apply opt_stop_first. cbn [Ascii.eqb Bool.eqb]. apply Hws. exact Hw.
  - right. apply alt_first. left. apply subnum_upper_read in H.
    destruct H as [d [ds [e [es [w [rest [-> [Hd [Hds [He [Hes Hw]]]]]]]]]]].
    change (cat_list [Plus digit; Lit "."; Plus digit; Opt (Lit "."); Plus ws])
      with (Cat (Plus digit)
                (Cat (Lit ".") (Cat (Plus digit) (Cat (Opt (Lit ".")) (Plus ws))))).
    cbn [rmatch]. apply plus_class_first; [exact Hd|].
    rewrite (lstrip_run isdigit ds _ Hds) by reflexivity.
    unfold Lit at 1. rewrite rmatch_literal. cbn [str list_ascii_of_string is_prefix].
    cbn [Ascii.eqb Bool.eqb andb length skipn].
    apply plus_class_first; [exact He|].
    rewrite (lstrip_run isdigit es _ Hes) by (cbn; apply space_not_digit; exact Hw).
    apply opt_stop_first. rewrite (space_not_stop w Hw). apply Hws. exact Hw.
Qed.


